(** * go-fuzzdump: error aggregation, corpus scanning and rendering

    A shallow embedding of [fuzzdump.go] and [errors.go] of
    github.com/antichris/go-fuzzdump, and of the command in
    [cmd/fuzzdump/main.go], with the parts of the Go standard library they
    rely on ([errors.Is], [fmt.Errorf], [bytes.Split], ...).

    Go values are modelled as follows.
    - [string] and [[]byte] are Rocq strings (sequences of 8-bit characters).
    - An [error] interface value is [option errval]; [None] is [nil].
    - The dynamic error values are those the package creates or receives:
      [errors.New] sentinels, [fmt.Errorf("...%w...")] wrappers and
      [CorpusErrors] slices.  Pointer-shaped values carry the address they
      were allocated at, which is what [==] on interfaces compares.
    - The file system and the writer are interfaces in Go and records of
      functions here; every call made on them is logged in a trace. *)

From Stdlib Require Import List String Ascii Arith Bool Lia PeanoNat.
From Stdlib Require Import Numbers.DecimalString.
Import ListNotations.

Local Open Scope list_scope.
Local Open Scope bool_scope.

Infix "+++" := String.append (right associativity, at level 60).

(* ================================================================== *)
(** ** Error values *)

Definition addr := nat.

#[local] Unset Elimination Schemes.

Inductive errval : Type :=
| New (p : addr) (text : string)
    (** [*errors.errorString], made by [errors.New(text)] *)
| Wrapf (p : addr) (msg : string) (err : errval)
    (** [*fmt.wrapError], made by [fmt.Errorf] with one [%w] operand *)
| Corpus (e : list (option errval)).
    (** a [CorpusErrors] slice stored in an [error] interface *)

#[local] Set Elimination Schemes.

(** An [error] interface value; [None] is [nil]. *)
Definition error := option errval.

(** [type CorpusErrors []error] *)
Definition CorpusErrors := list error.

Fixpoint esize (x : errval) : nat :=
  match x with
  | New _ _ => 1
  | Wrapf _ _ y => S (esize y)
  | Corpus e =>
      S (list_sum (map (fun o => match o with
                                 | Some y => esize y
                                 | None => 1
                                 end) e))
  end.

Definition osize (o : error) : nat :=
  match o with Some y => esize y | None => 1 end.

(** [reflectlite.TypeOf(target).Comparable()]: pointers are comparable,
    slices are not. *)
Definition comparable (t : errval) : bool :=
  match t with Corpus _ => false | _ => true end.

(** [err == target] on two non-nil interface values whose dynamic type is
    comparable: same dynamic type and same pointer. *)
Definition same_ptr (x y : errval) : bool :=
  match x, y with
  | New p _, New q _ => p =? q
  | Wrapf p _ _, Wrapf q _ _ => p =? q
  | _, _ => false
  end.

(* ------------------------------------------------------------------ *)
(** *** errors.go: the sentinels *)

Definition ErrEmptyCorpus : errval :=
  New 0 "no valid fuzz corpus files in directory".
Definition ErrMalformedEntry : errval :=
  New 1 "must include version and at least one value".
Definition ErrUnsupportedVersion : errval :=
  New 2 "unsupported encoding version".
Definition ErrInconsistentArgCount : errval :=
  New 3 ("inconsistent arg count in corpus " +++ "entry").

(* ------------------------------------------------------------------ *)
(** *** errors.go: the simple methods of CorpusErrors *)

(** [func (e CorpusErrors) empty() bool] *)
Definition empty (e : CorpusErrors) : bool := List.length e =? 0.

(** [func (e CorpusErrors) lastIndex() int]; only called on a non-empty
    receiver, where [len(e) - 1] is not negative. *)
Definition lastIndex (e : CorpusErrors) : nat := List.length e - 1.

(** [func (e CorpusErrors) AsError() error] *)
Definition AsError (e : CorpusErrors) : error :=
  if empty e then None else Some (Corpus e).

(** [func (e CorpusErrors) last() error] *)
Definition last (e : CorpusErrors) : error :=
  if empty e then None else nth (lastIndex e) e None.

(** [func (e CorpusErrors) Unwrap() error] *)
Definition Unwrap (e : CorpusErrors) : error :=
  if empty e then None else AsError (firstn (lastIndex e) e).

(** [func (e *CorpusErrors) append(errs ...error)], as a state update. *)
Definition append (e : CorpusErrors) (errs : list error) : CorpusErrors :=
  e ++ errs.

(* ------------------------------------------------------------------ *)
(** *** errors.Is, and CorpusErrors.Is which calls it back

    The two functions are mutually recursive in Go.  They are given fuel
    here; [is_fuel_enough] below shows that the fuel [fuel_for] never runs
    out, so that [errors_Is] is the total function Go computes. *)

(** [func Is(err, target error) bool], over a given [is']. *)
Definition Is_with (is' : errval -> errval -> bool -> option bool)
    (err target : error) : option bool :=
  match err, target with
  | Some x, Some t => is' x t (comparable t)
  | None, None => Some true
  | _, _ => Some false
  end.

(** [for _, err := range t { if !f(err) { return false } }; return true] *)
Fixpoint range_all {A : Type} (f : A -> option bool) (t : list A) : option bool :=
  match t with
  | [] => Some true
  | err :: t' =>
      match f err with
      | None => None
      | Some false => Some false
      | Some true => range_all f t'
      end
  end.

Fixpoint is_ (n : nat) (err target : errval) (targetComparable : bool)
    {struct n} : option bool :=
  match n with
  | 0 => None
  | S n =>
      if targetComparable && same_ptr err target then Some true
      else
        match err with
        | New _ _ => Some false
        | Wrapf _ _ x => is_ n x target targetComparable
        | Corpus e =>
            match CorpusErrors_Is_ n e (Some target) with
            | None => None
            | Some true => Some true
            | Some false =>
                match Unwrap e with
                | None => Some false
                | Some x => is_ n x target targetComparable
                end
            end
        end
  end
with CorpusErrors_Is_ (n : nat) (e : CorpusErrors) (target : error)
    {struct n} : option bool :=
  match n with
  | 0 => None
  | S n =>
      match target with
      | Some (Corpus t) =>
          if empty e || empty t then Some (Bool.eqb (empty e) (empty t))
          else range_all (fun err => Is_with (is_ n) (Some (Corpus e)) err) t
      | _ => Is_with (is_ n) (last e) target
      end
  end.

Definition fuel_for (err target : error) : nat :=
  2 * (osize err + osize target).

Definition force (r : option bool) : bool :=
  match r with Some b => b | None => false end.

(** [errors.Is(err, target)] *)
Definition errors_Is (err target : error) : bool :=
  force (Is_with (is_ (fuel_for err target)) err target).

(** [func (e CorpusErrors) Is(target error) bool] *)
Definition CorpusErrors_Is (e : CorpusErrors) (target : error) : bool :=
  force (CorpusErrors_Is_ (S (fuel_for (Some (Corpus e)) target)) e target).

(** [func IsValidationError(err error) bool] *)
Definition IsValidationError (err : error) : bool :=
  errors_Is err (Some ErrMalformedEntry) ||
  errors_Is err (Some ErrUnsupportedVersion) ||
  errors_Is err (Some ErrInconsistentArgCount).

(* ------------------------------------------------------------------ *)
(** *** errors.go: Capture

    The receiver is a pointer in Go; the function returns the updated
    aggregate next to the returned error. *)

(** The body of [Capture] below its [err == nil] test.  The recursion is on
    the candidate, whose elements are again [error] values: the nil test of
    the recursive call is written out in the loop. *)
Fixpoint Capture_nonnil (e : CorpusErrors) (err : errval) {struct err}
    : CorpusErrors * error :=
  match err with
  | Corpus errs =>
      (fix range (e : CorpusErrors) (errs : list error) {struct errs}
           : CorpusErrors * error :=
         match errs with
         | [] => (e, None)
         | err :: errs' =>
             match (match err with
                    | None => (e, None)
                    | Some err => Capture_nonnil e err
                    end) with
             | (e', Some err') => (e', Some err')
             | (e', None) => range e' errs'
             end
         end) e errs
  | _ =>
      if IsValidationError (Some err) then (append e [Some err], None)
      else if errors_Is (Some err) (Some ErrEmptyCorpus) then
        let e' := append e [Some err] in (e', AsError e')
      else (e, Some err)
  end.

(** [func (e *CorpusErrors) Capture(err error) error] *)
Definition Capture (e : CorpusErrors) (err : error) : CorpusErrors * error :=
  match err with
  | None => (e, None)
  | Some err => Capture_nonnil e err
  end.

(** The loop of [Capture] over the elements of a candidate aggregate:
    [for _, err := range errs { if err := e.Capture(err); err != nil
    { return err } }; return nil]. *)
Fixpoint Capture_range (e : CorpusErrors) (errs : list error)
    : CorpusErrors * error :=
  match errs with
  | [] => (e, None)
  | err :: errs' =>
      match Capture e err with
      | (e', Some err') => (e', Some err')
      | (e', None) => Capture_range e' errs'
      end
  end.

(** The aggregate threaded through a run of captures that all returned nil. *)
Inductive captured_in_order : CorpusErrors -> list error -> CorpusErrors -> Prop :=
| captured_none (e : CorpusErrors) : captured_in_order e [] e
| captured_next (e e1 e2 : CorpusErrors) (x : error) (rest : list error) :
    Capture e x = (e1, None) ->
    captured_in_order e1 rest e2 ->
    captured_in_order e (x :: rest) e2.

(** Whether the dynamic type of an error is [CorpusErrors]: the type
    assertions [err.(CorpusErrors)] and [target.(CorpusErrors)]. *)
Definition is_Corpus (x : errval) : bool :=
  match x with Corpus _ => true | _ => false end.

(* ================================================================== *)
(** ** The Go library, as far as the package uses it *)

Definition LF : string := String "010" EmptyString.
Definition CR : string := String "013" EmptyString.
Definition TAB : string := String "009" EmptyString.
Definition DQ : string := String "034" EmptyString.

(** Library functions whose tables (Unicode classes, quoting rules, path
    cleaning) play no part in what is proved are kept abstract. *)
Class GoLib : Type := {
  (** what the [%q] verb prints for a string: [strconv.Quote] *)
  strconv_Quote : string -> string;
  (** [bytes.TrimSpace] *)
  bytes_TrimSpace : string -> string;
  (** [path.Join] of two elements *)
  path_Join : string -> string -> string;
  (** what [fmt] prints for an operand whose [Error] method panics *)
  fmt_panicked : string
}.

(** [bytes.Split(b, sep)] for a one-byte separator: the pieces between the
    occurrences of [sep], one more than there are occurrences. *)
Fixpoint bytes_Split (b : string) (sep : ascii) : list string :=
  match b with
  | EmptyString => [EmptyString]
  | String c b' =>
      if Ascii.eqb c sep then EmptyString :: bytes_Split b' sep
      else
        match bytes_Split b' sep with
        | x :: s => String c x :: s
        | [] => [String c EmptyString]
        end
  end.

(** Whether the byte [c] occurs in [s]. *)
Fixpoint has_byte (c : ascii) (s : string) : bool :=
  match s with
  | EmptyString => false
  | String a s' => Ascii.eqb a c || has_byte c s'
  end.

(** [strings.HasSuffix] *)
Definition strings_HasSuffix (s suffix : string) : bool :=
  (String.length suffix <=? String.length s) &&
  String.eqb
    (substring (String.length s - String.length suffix)
       (String.length suffix) s)
    suffix.

(** [strings.TrimSuffix] *)
Definition strings_TrimSuffix (s suffix : string) : string :=
  if strings_HasSuffix s suffix
  then substring 0 (String.length s - String.length suffix) s
  else s.

(** [strings.Join] *)
Fixpoint strings_Join (elems : list string) (sep : string) : string :=
  match elems with
  | [] => EmptyString
  | [x] => x
  | x :: rest => x +++ sep +++ strings_Join rest sep
  end.

(** The [%d] verb on a non-negative [int]. *)
Definition fmt_d (n : nat) : string := NilZero.string_of_uint (Nat.to_uint n).

(* ------------------------------------------------------------------ *)
(** *** errors.go: the messages *)

(** The [Error] method of each dynamic type; [None] when it panics, which
    [CorpusErrors.Error] does on a nil element. *)
Fixpoint Error (x : errval) : option string :=
  match x with
  | New _ text => Some text
  | Wrapf _ msg _ => Some msg
  | Corpus e =>
      if empty e then Some "no fuzz corpus errors"%string
      else
        match
          (fix range (e : list error) : option (list string) :=
             match e with
             | [] => Some []
             | None :: _ => None
             | Some x :: e' =>
                 match Error x, range e' with
                 | Some m, Some mss => Some (m :: mss)
                 | _, _ => None
                 end
             end) e
        with
        | Some mss =>
            Some (strings_Join ("fuzz corpus has errors:"%string :: mss)
                    (LF +++ TAB))
        | None => None
        end
  end.

(** An element that is neither nil nor itself an aggregate. *)
Definition plain (x : error) : bool :=
  match x with Some v => negb (is_Corpus v) | None => false end.

(** An error that [Capture] absorbs: plain and of a validation kind. *)
Definition absorbed (o : error) : Prop :=
  exists x, o = Some x /\ is_Corpus x = false /\
            IsValidationError (Some x) = true.

(* ------------------------------------------------------------------ *)
(** *** Candidates on which the kinds and the aggregate case overlap *)

(** [CorpusErrors{ErrMalformedEntry}] *)
Definition cex_malformed_aggregate : errval :=
  Corpus [Some ErrMalformedEntry].

(** [CorpusErrors{errSnap}], with [errSnap] of the tests *)
Definition cex_foreign_aggregate : errval :=
  Corpus [Some (New 10 "snap")].

(** [wrap] of the tests, [fmt.Errorf("wrapped: %w", err)], allocated at [p],
    for an [err] whose [Error] method returns. *)
Definition wrap (p : addr) (err : errval) : errval :=
  Wrapf p ("wrapped: " +++
           match Error err with Some m => m | None => EmptyString end) err.

(** [wrap(CorpusErrors{ErrMalformedEntry, ErrEmptyCorpus})] *)
Definition cex_two_kinds : errval :=
  wrap 20 (Corpus [Some ErrMalformedEntry; Some ErrEmptyCorpus]).

(* ================================================================== *)
(** ** The world: file system, writer, allocation

    [fs.FS] and [io.Writer] are interfaces.  A file system is a pair of
    functions; a writer is the function that says which error its [Write]
    returns, given everything that happened before and the bytes passed.
    Every call is appended to the trace. *)

Record DirEntry : Type := { Name : string; IsRegular : bool }.

Record FS : Type := {
  fs_ReadDir : string -> list DirEntry * error;
  fs_ReadFile : string -> string * error
}.

Inductive Event : Type :=
| EvReadDir (dir : string) (err : error)
| EvReadFile (name : string) (err : error)
| EvWrite (b : string) (err : error).

Definition Writer : Type := list Event -> string -> error.

Record State : Type := { trace : list Event; heap : addr }.

Definition M (A : Type) : Type := State -> A * State.

Definition ret {A : Type} (a : A) : M A := fun s => (a, s).

Definition bind {A B : Type} (m : M A) (k : A -> M B) : M B :=
  fun s => let (a, s') := m s in k a s'.

Notation "x <- m ;; k" := (bind m (fun x => k))
  (at level 61, m at next level, right associativity).
Notation "' p <- m ;; k" := (bind m (fun x => let 'p := x in k))
  (at level 61, p pattern, m at next level, right associativity).

(** The bytes the writer accepted, in order. *)
Fixpoint written (t : list Event) : string :=
  match t with
  | [] => EmptyString
  | EvWrite b None :: t' => b +++ written t'
  | _ :: t' => written t'
  end.

Section Fuzzdump.

Context {lib : GoLib}.
Variable w : Writer.
Variable fsys : FS.

(** [w.Write(b)], keeping the error only. *)
Definition Write (b : string) : M error :=
  fun s =>
    let err := w (trace s) b in
    (err, {| trace := trace s ++ [EvWrite b err]; heap := heap s |}).

(** [fs.ReadFile(fsys, name)] *)
Definition ReadFile (name : string) : M (string * error) :=
  fun s =>
    let r := fs_ReadFile fsys name in
    (r, {| trace := trace s ++ [EvReadFile name (snd r)]; heap := heap s |}).

(** [fs.ReadDir(fsys, dir)] *)
Definition ReadDir (dir : string) : M (list DirEntry * error) :=
  fun s =>
    let r := fs_ReadDir fsys dir in
    (r, {| trace := trace s ++ [EvReadDir dir (snd r)]; heap := heap s |}).

(** What the [%w] (or [%s]) verb prints for an error. *)
Definition fmt_w (x : errval) : string :=
  match Error x with Some m => m | None => fmt_panicked end.

(** [fmt.Errorf] with exactly one [%w] operand [err]; [msg] is the
    formatted text.  Allocates the wrapper. *)
Definition Errorf (msg : string) (err : errval) : M errval :=
  fun s => (Wrapf (heap s) msg err, {| trace := trace s; heap := S (heap s) |}).

(** [fmt.Fprintln(w, s)], one [Write] of the line. *)
Definition Fprintln (s : string) : M error := Write (s +++ LF).

(* ------------------------------------------------------------------ *)
(** *** errors.go: readErr, writeErr *)

Definition readErr (err : error) (fileName : string) : M error :=
  match err with
  | Some x =>
      e <- Errorf ("reading " +++ strconv_Quote fileName +++ ": " +++ fmt_w x) x ;;
      ret (Some e)
  | None => ret None
  end.

Definition writeErr (err : error) : M error :=
  match err with
  | Some x =>
      e <- Errorf ("writing output: " +++ fmt_w x) x ;;
      ret (Some e)
  | None => ret None
  end.

(* ------------------------------------------------------------------ *)
(** *** fuzzdump.go *)

Definition encVersion1 : string := "go test fuzz v1".

Record separators : Type := { Pre : string; In_ : string; Post : string }.

Definition sigleArgSep : separators :=
  {| Pre := "{"; In_ := EmptyString; Post := "}" |}.
Definition multiArgSep : separators :=
  {| Pre := "{{"; In_ := "}, {"; Post := "}}" |}.

(** The loop of [readLines] over [s[1:]]. *)
Fixpoint readLines_range (s : list string) (lines : list string) : list string :=
  match s with
  | [] => lines
  | v :: s' =>
      let line := bytes_TrimSpace v in
      if String.length line =? 0 then readLines_range s' lines
      else readLines_range s' (lines ++ [line])
  end.

(** What [readLines] does with the bytes of a file once they are read. *)
Definition parseLines (b : string) : M (list string * error) :=
  let s := bytes_Split b "010" in
  if List.length s <? 2 then ret ([], Some ErrMalformedEntry)
  else
    let v := strings_TrimSuffix (hd EmptyString s) CR in
    if negb (String.eqb v encVersion1) then
      err <- Errorf (fmt_w ErrUnsupportedVersion +++ ": " +++ strconv_Quote v)
               ErrUnsupportedVersion ;;
      ret ([], Some err)
    else
      let lines := readLines_range (skipn 1 s) [] in
      if List.length lines <? 1 then ret (lines, Some ErrMalformedEntry)
      else ret (lines, None).

Definition readLines (name : string) : M (list string * error) :=
  '(b, err) <- ReadFile name ;;
  match err with
  | Some _ => ret ([], err)
  | None => parseLines b
  end.

Definition getFiles (dir : string) : M (list DirEntry * error) :=
  '(s, err) <- ReadDir dir ;;
  match err with
  | Some _ => ret ([], err)
  | None => ret (filter IsRegular s, None)
  end.

Definition corpusFiles (dir : string) : M (list DirEntry * error) :=
  '(files, err) <- getFiles dir ;;
  match err with
  | Some _ => ret (files, err)
  | None =>
      if List.length files =? 0 then ret (files, Some ErrEmptyCorpus)
      else ret (files, None)
  end.

(** The loop of [firstValidFileLines], from index [i] on: [files] is
    [allFiles[i:]] and [errs] the aggregate so far. *)
Fixpoint firstValidFileLines_from (dir : string) (errs : CorpusErrors)
    (files : list DirEntry) : M (list string * list DirEntry * error) :=
  match files with
  | [] =>
      let (_, err) := Capture errs (Some ErrEmptyCorpus) in
      ret ([], [], err)
  | f :: files' =>
      let name := Name f in
      '(lines, err) <- readLines (path_Join dir name) ;;
      match err with
      | None => ret (lines, files, AsError errs)
      | Some _ =>
          err <- readErr err name ;;
          let (errs', err) := Capture errs err in
          match err with
          | Some _ => ret ([], [], err)
          | None => firstValidFileLines_from dir errs' files'
          end
      end
  end.

Definition firstValidFileLines (dir : string) (allFiles : list DirEntry)
    : M (list string * list DirEntry * error) :=
  firstValidFileLines_from dir [] allFiles.

Fixpoint dumpLines (lines : list string) : M error :=
  match lines with
  | [] => ret None
  | v :: lines' =>
      err <- Write (TAB +++ v +++ "," +++ LF) ;;
      match err with
      | Some _ => writeErr err
      | None => dumpLines lines'
      end
  end.

(** The loop of [dumpFiles], with the aggregate so far. *)
Fixpoint dumpFiles_range (dir : string) (argCount : nat) (errs : CorpusErrors)
    (files : list DirEntry) : M error :=
  match files with
  | [] => ret (AsError errs)
  | f :: files' =>
      let name := Name f in
      '(lines, err) <- readLines (path_Join dir name) ;;
      match err with
      | Some _ =>
          err <- readErr err name ;;
          let (errs', e) := Capture errs err in
          match e with
          | Some _ => ret e
          | None => dumpFiles_range dir argCount errs' files'
          end
      | None =>
          let l := List.length lines in
          if negb (l =? argCount) then
            err <- Errorf (fmt_w ErrInconsistentArgCount +++ ": want " +++
                           fmt_d argCount +++ ", got " +++ fmt_d l)
                     ErrInconsistentArgCount ;;
            err <- readErr (Some err) name ;;
            dumpFiles_range dir argCount (append errs [err]) files'
          else
            err <- (if 1 <? argCount then Fprintln (In_ multiArgSep)
                    else ret None) ;;
            match err with
            | Some _ => writeErr err
            | None =>
                err <- dumpLines lines ;;
                match err with
                | Some _ => ret err
                | None => dumpFiles_range dir argCount errs files'
                end
            end
      end
  end.

Definition dumpFiles (dir : string) (files : list DirEntry) (argCount : nat)
    : M error :=
  dumpFiles_range dir argCount [] files.

(** [DumpDir(w, fsys, dir)].  The slice [files[1:]] is in range whenever it
    is reached, see [firstValidFileLines_files]. *)
Definition DumpDir (dir : string) : M error :=
  '(files, err) <- corpusFiles dir ;;
  match err with
  | Some _ => ret err
  | None =>
      '(lines, files, err) <- firstValidFileLines dir files ;;
      let (errs, e) := Capture [] err in
      match e with
      | Some _ => ret e
      | None =>
          let argCount := List.length lines in
          let seps := if 1 <? argCount then multiArgSep else sigleArgSep in
          err <- Fprintln (Pre seps) ;;
          match err with
          | Some _ => writeErr err
          | None =>
              err <- dumpLines lines ;;
              match err with
              | Some _ => ret err
              | None =>
                  err <- dumpFiles dir (skipn 1 files) argCount ;;
                  let (errs, e) := Capture errs err in
                  match e with
                  | Some _ => ret e
                  | None =>
                      err <- Fprintln (Post seps) ;;
                      match err with
                      | Some _ => writeErr err
                      | None => ret (AsError errs)
                      end
                  end
              end
          end
      end
  end.

End Fuzzdump.

(* ================================================================== *)
(** ** A concrete world: the fixtures of fuzzdump_test.go *)

Module Fixture.

#[local] Open Scope string_scope.

(** The six ASCII bytes [bytes.TrimSpace] removes. *)
Definition asciiSpace (c : ascii) : bool :=
  let n := nat_of_ascii c in
  ((n =? 9) || (n =? 10) || (n =? 11) || (n =? 12) || (n =? 13) || (n =? 32))%nat.

Fixpoint trimLeft (s : string) : string :=
  match s with
  | String c s' => if asciiSpace c then trimLeft s' else s
  | EmptyString => EmptyString
  end.

Fixpoint trimRight (s : string) : string :=
  match s with
  | EmptyString => EmptyString
  | String c s' =>
      match trimRight s' with
      | EmptyString => if asciiSpace c then EmptyString else String c EmptyString
      | r => String c r
      end
  end.

(** The library on ASCII text and clean relative paths, where quoting adds
    the two quote marks, trimming removes ASCII space, and joining puts a
    slash after a directory other than the current one. *)
#[local] Instance ascii_lib : GoLib := {|
  strconv_Quote := fun s => DQ +++ s +++ DQ;
  bytes_TrimSpace := fun s => trimRight (trimLeft s);
  path_Join := fun dir name =>
    if String.eqb dir "." then name else dir +++ "/" +++ name;
  fmt_panicked :=
    "%!v(PANIC=Error method: runtime error: invalid memory address or nil pointer dereference)"
|}.

(** [strings.Builder], [io.Discard]: a writer that accepts everything. *)
Definition Builder : Writer := fun _ _ => None.

(** [PredicateErrWriter(io.Discard, err, predicate)] of support_test.go. *)
Definition PredicateErrWriter (err : errval) (predicate : string -> bool)
    : Writer :=
  fun _ b => if predicate b then Some err else None.

Definition errSnap : errval := New 10 "snap".
Definition errWhoops : errval := New 11 "whoops".

(** [fs.ErrNotExist], and the [*fs.PathError] that carries it: a pointer
    with an [Unwrap] method, as [*fmt.wrapError] is. *)
Definition ErrNotExist : errval := New 12 "file does not exist".
Definition PathError (p : addr) (op path : string) (err : errval) : errval :=
  Wrapf p (op +++ " " +++ path +++ ": " +++ fmt_w err) err.

Definition corpusFile (contents : string) : string :=
  encVersion1 +++ LF +++ contents +++ LF.

Definition sigleData1 : string := LF +++ LF +++ "uint(3)" +++ LF +++ LF.
Definition sigleData2 : string := "uint(5)".
Definition multiData1 : string :=
  LF +++ LF +++ "string(" +++ DQ +++ "foo" +++ DQ +++ ")" +++ LF +++ LF +++
  "uint(8)" +++ LF +++ LF.
Definition multiData2 : string :=
  "string(" +++ DQ +++ "bar" +++ DQ +++ ")" +++ LF +++ "uint(13)".

(** The files of the [fstest.MapFS] in fuzzdump_test.go. *)
Definition files : list (string * string) :=
  [ ("bar", EmptyString);
    ("bad/badVer", "foo" +++ LF);
    ("bad/verOnly", encVersion1);
    ("bad/noArgs", encVersion1 +++ LF);
    ("bad/emptyArgs", corpusFile EmptyString);
    ("single/1", corpusFile sigleData1);
    ("single/2", corpusFile sigleData2);
    ("multi/1", corpusFile multiData1);
    ("multi/2", corpusFile multiData2);
    ("badMulti/1", corpusFile EmptyString);
    ("badMulti/2", corpusFile multiData1);
    ("badMulti/3", corpusFile multiData2);
    ("badMulti/4", corpusFile EmptyString);
    ("multi-in-single/1", corpusFile sigleData1);
    ("multi-in-single/2", corpusFile multiData1);
    ("multi-in-single/3", corpusFile sigleData2);
    ("single-in-multi/1", corpusFile multiData1);
    ("single-in-multi/2", corpusFile sigleData1);
    ("single-in-multi/3", corpusFile multiData2) ].

Definition regular (names : list string) : list DirEntry :=
  map (fun n => {| Name := n; IsRegular := true |}) names.

(** Its directories, each listing sorted by name. *)
Definition dirs : list (string * list DirEntry) :=
  [ (".", (map (fun n => {| Name := n; IsRegular := false |})
             ["bad"; "badMulti"] ++
           {| Name := "bar"; IsRegular := true |} ::
           map (fun n => {| Name := n; IsRegular := false |})
             ["empty"; "multi"; "multi-in-single"; "single";
              "single-in-multi"])%list);
    ("empty", []);
    ("bad", regular ["badVer"; "emptyArgs"; "noArgs"; "verOnly"]);
    ("single", regular ["1"; "2"]);
    ("multi", regular ["1"; "2"]);
    ("badMulti", regular ["1"; "2"; "3"; "4"]);
    ("multi-in-single", regular ["1"; "2"; "3"]);
    ("single-in-multi", regular ["1"; "2"; "3"]) ].

Fixpoint lookup {A : Type} (k : string) (m : list (string * A)) : option A :=
  match m with
  | [] => None
  | (k', v) :: m' => if String.eqb k k' then Some v else lookup k m'
  end.

Definition fsys : FS := {|
  fs_ReadDir := fun dir =>
    match lookup dir dirs with
    | Some l => (l, None)
    | None => ([], Some (PathError 13 "open" dir ErrNotExist))
    end;
  fs_ReadFile := fun name =>
    match lookup name files with
    | Some b => (b, None)
    | None => (EmptyString, Some (PathError 14 "open" name ErrNotExist))
    end
|}.

(** A file system that lists [dir] as above and has lost every file since:
    [checkErrNotExistPassedForFiles] of the tests. *)
Definition fsys_vanished : FS := {|
  fs_ReadDir := fs_ReadDir fsys;
  fs_ReadFile := fun name =>
    (EmptyString, Some (PathError 14 "open" name ErrNotExist))
|}.

(** A fresh run: nothing has happened, and the allocator is past every
    address used above. *)
Definition start : State := {| trace := []; heap := 100 |}.

(** A run of [DumpDir] from the fresh state. *)
Definition scan (w : Writer) (fsys : FS) (dir : string) : error * State :=
  DumpDir w fsys dir start.

(** What a run of [DumpDir] returned and what it wrote. *)
Definition run (w : Writer) (fsys : FS) (dir : string) : error * string :=
  let (err, s) := scan w fsys dir in (err, written (trace s)).

(** A writer that fails on the separator between entries. *)
Definition failOnSeparator (err : errval) : Writer :=
  PredicateErrWriter err (String.eqb ("}, {" +++ LF)).

(** The file system above with the third file of [badMulti] gone missing
    after the listing. *)
Definition fsys_missing : FS := {|
  fs_ReadDir := fs_ReadDir fsys;
  fs_ReadFile := fun name =>
    if String.eqb name "badMulti/3"
    then (EmptyString, Some (PathError 14 "open" name ErrNotExist))
    else fs_ReadFile fsys name
|}.

End Fixture.

(* ================================================================== *)
(** ** Reasoning about runs *)

(** An error outside the four kinds of the package: what an I/O failure
    normally is. *)
Definition opaque (x : errval) : bool :=
  negb (IsValidationError (Some x)) &&
  negb (errors_Is (Some x) (Some ErrEmptyCorpus)).

(** [spec m Q]: from any state, [m] appends some events [evs] to the trace
    and returns some [a] with [Q evs a]. *)
Definition spec {A : Type} (m : M A) (Q : list Event -> A -> Prop) : Prop :=
  forall st, exists evs,
    trace (snd (m st)) = trace st ++ evs /\ Q evs (fst (m st)).

(** A read or write that failed with an opaque error. *)
Definition io_failure (ev : Event) : Prop :=
  match ev with
  | EvWrite _ (Some x) | EvReadFile _ (Some x) => opaque x = true
  | _ => False
  end.

Section Discipline.

Context {lib : GoLib}.

(** What a scan of the files [files] of [dir] returns after a failed read
    or write. *)
Inductive aborts_with (dir : string) (files : list DirEntry)
    : Event -> error -> Prop :=
| aborts_write (b : string) (x : errval) (p : addr) :
    aborts_with dir files (EvWrite b (Some x))
      (Some (Wrapf p ("writing output: " +++ fmt_w x) x))
| aborts_read (f : DirEntry) (x : errval) (p : addr) :
    In f files ->
    aborts_with dir files (EvReadFile (path_Join dir (Name f)) (Some x))
      (Some (Wrapf p ("reading " +++ strconv_Quote (Name f) +++ ": " +++
                      fmt_w x) x)).

(** Every opaque I/O failure among the events is the last event, and the
    result is that failure in its wrapper. *)
Definition abort_discipline (dir : string) (files : list DirEntry)
    (evs : list Event) (err : error) : Prop :=
  forall pre ev post,
    evs = pre ++ ev :: post -> io_failure ev ->
    post = [] /\ aborts_with dir files ev err.

(** No opaque I/O failure among the events. *)
Definition clean (evs : list Event) : Prop :=
  Forall (fun ev => ~ io_failure ev) evs.

End Discipline.

(** The argument lines a file's bytes decode to, when they validate: what
    [readLines] returns for them (the state only names the address of an
    error wrapper). *)
Definition entry {lib : GoLib} (b : string) : option (list string) :=
  let r := fst (parseLines b {| trace := []; heap := 0 |}) in
  match snd r with
  | None => Some (fst r)
  | Some _ => None
  end.

(* ------------------------------------------------------------------ *)
(** *** Where in the rendering a write is *)

(** The closing delimiter line, flat or grouped. *)
Definition closing (b : string) : Prop :=
  b = "}" +++ LF \/ b = "}}" +++ LF.

(** A line of an entry that is not the first: the separator or a value. *)
Definition entry_line (b : string) : Prop :=
  b = "}, {" +++ LF \/ exists v, b = TAB +++ v +++ "," +++ LF.

(** No file has been read since the first write: whatever has been
    rendered so far belongs to the opening delimiter and the first entry. *)
Definition first_entry_only (pre : list Event) : Prop :=
  forall p1 c e p2,
    pre = p1 ++ EvWrite c e :: p2 -> forall n r, ~ In (EvReadFile n r) p2.

(** A write that failed. *)
Definition failed_write (ev : Event) : Prop :=
  match ev with EvWrite _ (Some _) => True | _ => False end.

(** A write of a line of a later entry, or no write at all. *)
Definition entry_event (ev : Event) : Prop :=
  match ev with EvWrite b _ => entry_line b | _ => True end.

(** The events of rendering the later entries: they begin with the read of
    a file, and all that is written are lines of later entries. *)
Definition later_entries (evs : list Event) : Prop :=
  match evs with
  | [] => True
  | ev :: evs' =>
      (exists n e, ev = EvReadFile n e) /\ Forall entry_event evs'
  end.

(** The property of a run: a failed write on the closing delimiter, or
    before any later entry is read, ends the scan in its wrapper. *)
Definition aborts_in_place {lib : GoLib} (dir : string)
    (files : list DirEntry) (evs : list Event) (err : error) : Prop :=
  forall pre b x post,
    evs = pre ++ EvWrite b (Some x) :: post ->
    closing b \/ first_entry_only pre ->
    post = [] /\ aborts_with dir files (EvWrite b (Some x)) err.

(* ================================================================== *)
(** ** What a scan without I/O failures should produce *)

(** A writer whose [Write] always succeeds, such as [strings.Builder]. *)
Definition never_fails (w : Writer) : Prop := forall t b, w t b = None.

Section Expected.

Context {lib : GoLib}.
Variable fsys : FS.
Variable dir : string.

(** The arguments of a file of [dir], when it can be read and validates. *)
Definition file_entry (f : DirEntry) : option (list string) :=
  match fs_ReadFile fsys (path_Join dir (Name f)) with
  | (b, None) => entry b
  | (_, Some _) => None
  end.

(** The file can be read and its bytes do not validate. *)
Definition fails_validation (f : DirEntry) : Prop :=
  exists b, fs_ReadFile fsys (path_Join dir (Name f)) = (b, None) /\
            entry b = None.

(** The read of the file succeeds. *)
Definition can_read (f : DirEntry) : Prop :=
  snd (fs_ReadFile fsys (path_Join dir (Name f))) = None.

(** The message [readErr] makes of the message of an error of file [f]. *)
Definition reading (f : DirEntry) (msg : string) : string :=
  "reading " +++ strconv_Quote (Name f) +++ ": " +++ msg.

(** The message of the error for an entry with [l] arguments where
    [argCount] were expected. *)
Definition inconsistent (argCount l : nat) : string :=
  "inconsistent arg count in corpus entry: want " +++ fmt_d argCount +++
  ", got " +++ fmt_d l.

(** The later files whose entries are to be emitted for arity [argCount]. *)
Definition emitted (argCount : nat) (files : list DirEntry)
    : list (list string) :=
  flat_map (fun f => match file_entry f with
                     | Some l => if List.length l =? argCount then [l] else []
                     | None => []
                     end) files.

(** The errors recorded for a run of files, in order: nothing for an entry
    of the expected arity, [ErrInconsistentArgCount] in its two wrappers
    for an entry of another arity, and for a file that does not validate
    the error [readLines] returned, in the wrapper of [readErr]. *)
Inductive recorded (argCount : nat) : list DirEntry -> list error -> Prop :=
| recorded_nil : recorded argCount [] []
| recorded_emitted (f : DirEntry) (l : list string)
    (files : list DirEntry) (es : list error) :
    file_entry f = Some l -> List.length l = argCount ->
    recorded argCount files es ->
    recorded argCount (f :: files) es
| recorded_mismatch (f : DirEntry) (l : list string) (p p' : addr)
    (files : list DirEntry) (es : list error) :
    file_entry f = Some l -> List.length l <> argCount ->
    recorded argCount files es ->
    recorded argCount (f :: files)
      (Some (Wrapf p (reading f (inconsistent argCount (List.length l)))
               (Wrapf p' (inconsistent argCount (List.length l))
                  ErrInconsistentArgCount)) :: es)
| recorded_invalid (f : DirEntry) (x : errval) (p : addr)
    (files : list DirEntry) (es : list error) :
    file_entry f = None ->
    IsValidationError (Some x) = true ->
    (exists st, fst (readLines fsys (path_Join dir (Name f)) st) =
                ([], Some x)) ->
    recorded argCount files es ->
    recorded argCount (f :: files) (Some (Wrapf p (reading f (fmt_w x)) x) :: es).

End Expected.

(** One value line per argument: a tab, the value, a comma, a line feed. *)
Fixpoint render_values (lines : list string) : string :=
  match lines with
  | [] => EmptyString
  | v :: lines' => TAB +++ v +++ "," +++ LF +++ render_values lines'
  end.

(** The entries after the first: in the grouped form each is preceded by
    the separator line. *)
Fixpoint render_more (argCount : nat) (entries : list (list string)) : string :=
  match entries with
  | [] => EmptyString
  | l :: entries' =>
      (if 1 <? argCount then "}, {" +++ LF else EmptyString) +++
      render_values l +++ render_more argCount entries'
  end.

(** The whole listing: flat between braces for arity 1, grouped between
    double braces for a larger arity. *)
Definition render (argCount : nat) (first : list string)
    (more : list (list string)) : string :=
  (if 1 <? argCount then "{{" else "{") +++ LF +++
  render_values first +++ render_more argCount more +++
  (if 1 <? argCount then "}}" else "}") +++ LF.

(** The two listings of README and tests, as the bytes written. *)
Definition single_listing : string :=
  "{" +++ LF +++
  TAB +++ "uint(3)," +++ LF +++
  TAB +++ "uint(5)," +++ LF +++
  "}" +++ LF.

Definition multi_listing : string :=
  "{{" +++ LF +++
  TAB +++ "string(" +++ DQ +++ "foo" +++ DQ +++ ")," +++ LF +++
  TAB +++ "uint(8)," +++ LF +++
  "}, {" +++ LF +++
  TAB +++ "string(" +++ DQ +++ "bar" +++ DQ +++ ")," +++ LF +++
  TAB +++ "uint(13)," +++ LF +++
  "}}" +++ LF.

(* ================================================================== *)
(** ** Further notions about aggregates and runs *)

(** What a capture into [e] did, from its result [r]: it appended a run
    [l] of absorbed errors and returned nil; or it appended such a run and
    then one plain error of the EmptyCorpus kind, and returned the
    aggregate as it then is; or it appended such a run and returned an
    opaque error that is not an aggregate. *)
Definition captured_run (e : CorpusErrors) (r : CorpusErrors * error) : Prop :=
  exists l : list error,
    fst r = e ++ l /\
    match snd r with
    | None => Forall absorbed l
    | Some s =>
        (exists l0 x,
            l = l0 ++ [Some x] /\ Forall absorbed l0 /\
            is_Corpus x = false /\ IsValidationError (Some x) = false /\
            errors_Is (Some x) (Some ErrEmptyCorpus) = true /\
            s = Corpus (e ++ l)) \/
        (Forall absorbed l /\ is_Corpus s = false /\ opaque s = true)
    end.

(** The errors of an error value that are not aggregates, in order,
    through the aggregates it holds. *)
Fixpoint leaves_of (x : errval) : list error :=
  match x with
  | Corpus e =>
      flat_map (fun o => match o with
                         | Some y => leaves_of y
                         | None => []
                         end) e
  | _ => [Some x]
  end.

(** The loop of [CorpusErrors.Error] over the elements: their messages, or
    [None] when an [Error] call panics. *)
Fixpoint Error_range (e : list error) : option (list string) :=
  match e with
  | [] => Some []
  | None :: _ => None
  | Some x :: e' =>
      match Error x, Error_range e' with
      | Some m, Some mss => Some (m :: mss)
      | _, _ => None
      end
  end.

(* ------------------------------------------------------------------ *)
(** *** What a scan reads *)

(** Whether an event is a call on the file system. *)
Definition is_input (ev : Event) : bool :=
  match ev with EvWrite _ _ => false | _ => true end.

(** The calls on the file system among the events, in order. *)
Definition inputs (t : list Event) : list Event := filter is_input t.

(** The read of the file [f] of [dir], with its result. *)
Definition read_of {lib : GoLib} (fsys : FS) (dir : string) (f : DirEntry)
    : Event :=
  EvReadFile (path_Join dir (Name f))
    (snd (fs_ReadFile fsys (path_Join dir (Name f)))).

(** A call that returned no error. *)
Definition succeeded (ev : Event) : Prop :=
  match ev with
  | EvReadDir _ None | EvReadFile _ None | EvWrite _ None => True
  | _ => False
  end.

(** The entries of the files [files], all valid and of arity [argCount]. *)
Definition entries_of {lib : GoLib} (fsys : FS) (dir : string)
    (argCount : nat) (files : list DirEntry) (entries : list (list string))
    : Prop :=
  Forall2 (fun f l => file_entry fsys dir f = Some l /\
                      List.length l = argCount) files entries.

(** Whether the file [f] of [dir] is a valid entry of [argCount]
    arguments: whether a scan for that arity emits it. *)
Definition emits {lib : GoLib} (fsys : FS) (dir : string) (argCount : nat)
    (f : DirEntry) : bool :=
  match file_entry fsys dir f with
  | Some l => List.length l =? argCount
  | None => false
  end.

(* ================================================================== *)
(** ** cmd/fuzzdump/main.go

    The command runs [DumpDir] on the directory named by its argument and
    turns the error into an exit status.  [os.DirFS] and [path.Base] are
    parameters.  What [shellIface] prints to [stdErr] is kept as the list of
    the lines passed to it: the result of that [Fprintln] is discarded, so
    the stream has no other part in the run. *)

Definition ExitSuccess : nat := 0.
Definition ExitSoft : nat := 1.
Definition ExitEmptyCorpus : nat := 2.
Definition ExitHard : nat := 3.

Definition errNoDirArg : errval := New 4 "directory path argument required".

(** [type mainFn func(w io.Writer, args []string) error] *)
Definition mainFn : Type := Writer -> list string -> M error.

Section Main.

Context {lib : GoLib}.
Variable os_DirFS : string -> FS.
Variable path_Base : string -> string.

(** [func realMain(w io.Writer, args []string) error] *)
Definition realMain : mainFn :=
  fun w args =>
    match args with
    | [] => ret (Some errNoDirArg)
    | a :: _ =>
        if String.length a =? 0 then ret (Some errNoDirArg)
        else DumpDir w (os_DirFS a) "."
    end.

(** The function [shellIface(fn)], applied to [stdOut] and [args]: the exit
    code and the lines printed to [stdErr].  [None] is the panic of
    [args[1:]] on an empty [args]. *)
Definition shellIface (fn : mainFn) (stdOut : Writer) (args : list string)
    : M (option (nat * list string)) :=
  match args with
  | [] => ret None
  | arg0 :: args' =>
      err <- fn stdOut args' ;;
      match err with
      | Some e =>
          let line := (path_Base arg0 +++ ":") +++ " " +++ fmt_w e +++ LF in
          ret (Some (if errors_Is err (Some ErrEmptyCorpus) then ExitEmptyCorpus
                     else if IsValidationError err then ExitSoft
                     else ExitHard,
                     [line]))
      | None => ret (Some (ExitSuccess, []))
      end
  end.

End Main.

(** A concrete command line: [path.Base] on a program name without a
    slash, and for [os.DirFS] the file system that holds a directory of the
    test fixtures at its root. *)
Module CmdFixture.

Definition Base (p : string) : string := p.

Definition DirFS (root : string) : FS := {|
  fs_ReadDir := fun dir =>
    if String.eqb dir "." then fs_ReadDir Fixture.fsys root
    else ([], Some (Fixture.PathError 13 "open" dir Fixture.ErrNotExist));
  fs_ReadFile := fun name => fs_ReadFile Fixture.fsys (root +++ "/" +++ name)
|}.

(** The command run from the fresh state, printing to a
    [strings.Builder]. *)
Definition run (args : list string)
    : option (nat * list string) * State :=
  @shellIface Fixture.ascii_lib Base (@realMain Fixture.ascii_lib DirFS)
    Fixture.Builder args Fixture.start.

End CmdFixture.

(* ================================================================== *)
(** ** errors.Is terminates: the fuel is enough *)

Lemma esize_pos (x : errval) : 1 <= esize x.
Proof. destruct x; simpl; lia. Qed.

Lemma osize_pos (o : error) : 1 <= osize o.
Proof. destruct o; simpl; [apply esize_pos | lia]. Qed.

Lemma esize_Corpus (e : CorpusErrors) :
  esize (Corpus e) = S (list_sum (map osize e)).
Proof. reflexivity. Qed.

Lemma osize_In (x : error) (e : CorpusErrors) :
  In x e -> osize x < esize (Corpus e).
Proof.
  rewrite esize_Corpus. induction e as [|y e IH]; simpl; [tauto|].
  intros [->|H]; [lia | specialize (IH H); lia].
Qed.

Lemma last_In (e : CorpusErrors) : empty e = false -> In (last e) e.
Proof.
  unfold last, empty, lastIndex. intros H. rewrite H.
  apply nth_In. apply Nat.eqb_neq in H. lia.
Qed.

Lemma osize_last (e : CorpusErrors) :
  empty e = false -> osize (last e) < esize (Corpus e).
Proof. intros H. apply osize_In, last_In, H. Qed.

Lemma osize_firstn_lt (e : CorpusErrors) :
  empty e = false ->
  list_sum (map osize (firstn (lastIndex e) e)) < list_sum (map osize e).
Proof.
  unfold empty, lastIndex. induction e as [|x e IH]; simpl; [discriminate|].
  intros _. rewrite Nat.sub_0_r. destruct e as [|y e].
  - simpl. pose proof (osize_pos x). lia.
  - simpl firstn. simpl list_sum at 1. simpl in IH.
    rewrite Nat.sub_0_r in IH. specialize (IH eq_refl).
    change (list_sum (map osize (x :: y :: e)))
      with (osize x + list_sum (map osize (y :: e))).
    simpl list_sum at 2. lia.
Qed.

Lemma esize_Unwrap (e : CorpusErrors) (x : errval) :
  Unwrap e = Some x -> esize x < esize (Corpus e).
Proof.
  unfold Unwrap, AsError. destruct (empty e) eqn:He; [discriminate|].
  destruct (empty (firstn (lastIndex e) e)); [discriminate|].
  intros [= <-]. pose proof (osize_firstn_lt e He) as H.
  rewrite !esize_Corpus. lia.
Qed.

Lemma range_all_forallb {A : Type} (f : A -> option bool) (g : A -> bool)
    (t : list A) :
  (forall x, In x t -> f x = Some (g x)) ->
  range_all f t = Some (forallb g t).
Proof.
  induction t as [|x t IH]; simpl; intros H; [reflexivity|].
  rewrite (H x) by auto. destruct (g x); simpl; auto.
Qed.

Lemma is_S (n : nat) (err target : errval) (c : bool) :
  is_ (S n) err target c =
  if c && same_ptr err target then Some true
  else
    match err with
    | New _ _ => Some false
    | Wrapf _ _ x => is_ n x target c
    | Corpus e =>
        match CorpusErrors_Is_ n e (Some target) with
        | None => None
        | Some true => Some true
        | Some false =>
            match Unwrap e with
            | None => Some false
            | Some x => is_ n x target c
            end
        end
    end.
Proof. reflexivity. Qed.

Lemma Is_S (n : nat) (e : CorpusErrors) (target : error) :
  CorpusErrors_Is_ (S n) e target =
  match target with
  | Some (Corpus t) =>
      if empty e || empty t then Some (Bool.eqb (empty e) (empty t))
      else range_all (fun err => Is_with (is_ n) (Some (Corpus e)) err) t
  | _ => Is_with (is_ n) (last e) target
  end.
Proof. reflexivity. Qed.

Lemma range_all_mono {A : Type} (f g : A -> option bool) (t : list A) :
  (forall x b, f x = Some b -> g x = Some b) ->
  forall b, range_all f t = Some b -> range_all g t = Some b.
Proof.
  intros H. induction t as [|x t IH]; simpl; auto.
  intros b. destruct (f x) as [[|]|] eqn:Hx; try discriminate;
    rewrite (H _ _ Hx); auto.
Qed.

Lemma range_all_returns {A : Type} (f : A -> option bool) (t : list A) :
  (forall x, In x t -> f x <> None) -> range_all f t <> None.
Proof.
  induction t as [|x t IH]; simpl; intros H; [discriminate|].
  destruct (f x) as [[|]|] eqn:Hx; [auto|discriminate|].
  exfalso. apply (H x); auto.
Qed.

(** More fuel never changes an answer. *)
Lemma is_fuel_S (n : nat) :
  (forall err target c b,
      is_ n err target c = Some b -> is_ (S n) err target c = Some b) /\
  (forall e target b,
      CorpusErrors_Is_ n e target = Some b ->
      CorpusErrors_Is_ (S n) e target = Some b).
Proof.
  induction n as [|n [IHis IHIs]]; [split; intros; discriminate|].
  assert (Hwith : forall err target b,
             Is_with (is_ n) err target = Some b ->
             Is_with (is_ (S n)) err target = Some b).
  { intros [x|] [t|] b; unfold Is_with; auto. }
  assert (HIs : forall e target b,
             CorpusErrors_Is_ (S n) e target = Some b ->
             CorpusErrors_Is_ (S (S n)) e target = Some b).
  { intros e target b. rewrite (Is_S (S n)), (Is_S n).
    destruct target as [[p s|p m x|t]|]; auto.
    destruct (empty e || empty t); auto.
    apply range_all_mono. intros x b'. apply Hwith. }
  split; [|exact HIs].
  intros err target c b. rewrite (is_S (S n)), (is_S n).
  destruct (c && same_ptr err target); auto.
  destruct err as [p s|p m x|e]; auto.
  destruct (CorpusErrors_Is_ n e (Some target)) as [[|]|] eqn:HI;
    try discriminate.
  - rewrite (IHIs _ _ _ HI). auto.
  - rewrite (IHIs _ _ _ HI). destruct (Unwrap e); auto.
Qed.

Lemma is_fuel_le (n m : nat) (err target : errval) (c b : bool) :
  n <= m -> is_ n err target c = Some b -> is_ m err target c = Some b.
Proof.
  induction 1; auto. intros H'. apply is_fuel_S. auto.
Qed.

Lemma Is_fuel_le (n m : nat) (e : CorpusErrors) (target : error) (b : bool) :
  n <= m ->
  CorpusErrors_Is_ n e target = Some b -> CorpusErrors_Is_ m e target = Some b.
Proof.
  induction 1; auto. intros H'. apply is_fuel_S. auto.
Qed.

(** The fuel is enough: both functions return. *)
Lemma is_fuel_enough (M : nat) :
  (forall err target c n,
      esize err + esize target <= M -> 2 * M <= n ->
      is_ n err target c <> None) /\
  (forall e target n,
      esize (Corpus e) + osize target <= M -> 2 * M <= n + 1 ->
      CorpusErrors_Is_ n e target <> None).
Proof.
  induction M as [M IH] using lt_wf_ind.
  assert (Hwith : forall err target n,
             osize err + osize target < M -> 2 * M <= n + 2 ->
             Is_with (is_ n) err target <> None).
  { intros [x|] [t|] n Hs Hn; unfold Is_with; try discriminate.
    simpl in Hs. apply (proj1 (IH (esize x + esize t) Hs)); lia. }
  assert (HIs : forall e target n,
             esize (Corpus e) + osize target <= M -> 2 * M <= n + 1 ->
             CorpusErrors_Is_ n e target <> None).
  { intros e target n Hs Hn.
    pose proof (esize_pos (Corpus e)). pose proof (osize_pos target).
    destruct n as [|n]; [lia|]. rewrite Is_S.
    assert (Hlast : forall t, osize target = esize t ->
               Is_with (is_ n) (last e) target <> None).
    { intros t Ht. destruct (empty e) eqn:He.
      - unfold last. rewrite He. destruct target; discriminate.
      - apply Hwith; [|lia]. pose proof (osize_last e He). lia. }
    destruct target as [[p s|p m x|t]|]; try (eapply Hlast; reflexivity).
    - destruct (empty e || empty t); [discriminate|].
      assert (Ht : forall y, In y t ->
                 Is_with (is_ n) (Some (Corpus e)) y <> None).
      { intros y Hy. apply Hwith; [|lia].
        pose proof (osize_In y t Hy). cbn [osize] in *. lia. }
      apply range_all_returns, Ht.
    - destruct (last e); discriminate. }
  split; [|exact HIs].
  intros err target c n Hs Hn.
  pose proof (esize_pos err). pose proof (esize_pos target).
  destruct n as [|n]; [lia|]. rewrite is_S.
  destruct (c && same_ptr err target); [discriminate|].
  destruct err as [p s|p m x|e]; [discriminate| |].
  - simpl in Hs. apply (proj1 (IH (esize x + esize target) ltac:(lia))); lia.
  - pose proof (HIs e (Some target) n Hs ltac:(lia)) as HI.
    destruct (CorpusErrors_Is_ n e (Some target)) as [[|]|];
      [discriminate| |contradiction].
    destruct (Unwrap e) as [x|] eqn:Hu; [|discriminate].
    pose proof (esize_Unwrap e x Hu).
    apply (proj1 (IH (esize x + esize target) ltac:(lia))); lia.
Qed.

(** With enough fuel the fuelled functions compute the total ones. *)
Lemma is_eval (n : nat) (x t : errval) :
  2 * (esize x + esize t) <= n ->
  is_ n x t (comparable t) = Some (errors_Is (Some x) (Some t)).
Proof.
  intros Hn. unfold errors_Is, Is_with, fuel_for. cbn [osize].
  destruct (is_ (2 * (esize x + esize t)) x t (comparable t)) as [b|] eqn:Hb.
  - apply (is_fuel_le _ n) in Hb; auto.
  - exfalso. revert Hb.
    apply (proj1 (is_fuel_enough (esize x + esize t))); lia.
Qed.

Lemma Is_with_eval (n : nat) (err target : error) :
  fuel_for err target <= n ->
  Is_with (is_ n) err target = Some (errors_Is err target).
Proof.
  destruct err as [x|], target as [t|]; try reflexivity.
  intros Hn. apply is_eval. exact Hn.
Qed.

Lemma Is_eval (n : nat) (e : CorpusErrors) (target : error) :
  2 * (esize (Corpus e) + osize target) <= n + 1 ->
  CorpusErrors_Is_ n e target = Some (CorpusErrors_Is e target).
Proof.
  intros Hn. unfold CorpusErrors_Is, fuel_for. cbn [osize].
  destruct (CorpusErrors_Is_ n e target) as [b|] eqn:Hb.
  - destruct (Nat.le_ge_cases n (S (2 * (esize (Corpus e) + osize target))))
      as [Hle|Hle].
    + apply (Is_fuel_le _ _ _ _ _ Hle) in Hb. rewrite Hb. reflexivity.
    + destruct (CorpusErrors_Is_ (S (2 * (esize (Corpus e) + osize target)))
                  e target) as [b'|] eqn:Hb'.
      * apply (Is_fuel_le _ _ _ _ _ Hle) in Hb'. simpl. congruence.
      * exfalso. revert Hb'.
        apply (proj2 (is_fuel_enough (esize (Corpus e) + osize target))); lia.
  - exfalso. revert Hb.
    apply (proj2 (is_fuel_enough (esize (Corpus e) + osize target))); lia.
Qed.

(* ------------------------------------------------------------------ *)
(** *** The equations of errors.Is and CorpusErrors.Is, as Go runs them *)

Lemma errors_Is_nil_l (target : error) :
  errors_Is None target = match target with None => true | Some _ => false end.
Proof. destruct target; reflexivity. Qed.

Lemma errors_Is_nil_r (err : error) :
  errors_Is err None = match err with None => true | Some _ => false end.
Proof. destruct err; reflexivity. Qed.

Lemma errors_Is_step (x t : errval) :
  errors_Is (Some x) (Some t) =
  (comparable t && same_ptr x t) ||
  match x with
  | New _ _ => false
  | Wrapf _ _ y => errors_Is (Some y) (Some t)
  | Corpus e => CorpusErrors_Is e (Some t) || errors_Is (Unwrap e) (Some t)
  end.
Proof.
  pose proof (esize_pos x) as Hx. pose proof (esize_pos t) as Ht.
  assert (E : Some (errors_Is (Some x) (Some t)) =
              is_ (S (2 * (esize x + esize t))) x t (comparable t)).
  { symmetry. apply is_eval. lia. }
  rewrite is_S in E.
  destruct (comparable t && same_ptr x t); [now injection E|].
  simpl orb. destruct x as [p s|p m y|e].
  - now injection E.
  - rewrite is_eval in E by (simpl; lia). now injection E.
  - rewrite Is_eval in E by (cbn [osize]; lia).
    destruct (CorpusErrors_Is e (Some t)); [now injection E|].
    simpl orb. destruct (Unwrap e) as [y|] eqn:Hu.
    + pose proof (esize_Unwrap e y Hu).
      rewrite is_eval in E by lia. now injection E.
    + rewrite errors_Is_nil_l. now injection E.
Qed.

Lemma CorpusErrors_Is_step (e : CorpusErrors) (target : error) :
  CorpusErrors_Is e target =
  match target with
  | Some (Corpus t) =>
      if empty e || empty t then Bool.eqb (empty e) (empty t)
      else forallb (fun err => errors_Is (Some (Corpus e)) err) t
  | _ => errors_Is (last e) target
  end.
Proof.
  assert (E : Some (CorpusErrors_Is e target) =
              CorpusErrors_Is_ (S (2 * (esize (Corpus e) + osize target)))
                e target).
  { symmetry. apply Is_eval. lia. }
  rewrite Is_S in E.
  assert (Hlast : forall t, osize target = esize t ->
             Is_with (is_ (2 * (esize (Corpus e) + osize target)))
               (last e) target = Some (errors_Is (last e) target)).
  { intros t Ht. apply Is_with_eval. unfold fuel_for.
    destruct (empty e) eqn:He.
    - unfold last. rewrite He. simpl osize at 1.
      pose proof (esize_pos (Corpus e)). lia.
    - pose proof (osize_last e He). lia. }
  destruct target as [[p s|p m x|t]|].
  - rewrite (Hlast _ eq_refl) in E. now injection E.
  - rewrite (Hlast _ eq_refl) in E. now injection E.
  - destruct (empty e || empty t); [now injection E|].
    rewrite (range_all_forallb _
               (fun err => errors_Is (Some (Corpus e)) err)) in E.
    + now injection E.
    + intros y Hy. apply Is_with_eval. unfold fuel_for.
      pose proof (osize_In y t Hy). cbn [osize] in *. lia.
  - rewrite errors_Is_nil_r. rewrite errors_Is_nil_r in *.
    unfold Is_with in E. destruct (last e); now injection E.
Qed.

(* ================================================================== *)
(** ** The aggregate: last, Unwrap, AsError *)

Lemma empty_snoc (e : CorpusErrors) (x : error) : empty (e ++ [x]) = false.
Proof. destruct e; reflexivity. Qed.

Lemma empty_true_iff (e : CorpusErrors) : empty e = true <-> e = [].
Proof. destruct e; unfold empty; simpl; split; congruence. Qed.

Lemma lastIndex_snoc (e : CorpusErrors) (x : error) :
  lastIndex (e ++ [x]) = List.length e.
Proof. unfold lastIndex. rewrite length_app. simpl. lia. Qed.

Lemma last_snoc (e : CorpusErrors) (x : error) : last (e ++ [x]) = x.
Proof.
  unfold last. rewrite empty_snoc, lastIndex_snoc.
  rewrite app_nth2, Nat.sub_diag by lia. reflexivity.
Qed.

Lemma Unwrap_snoc (e : CorpusErrors) (x : error) :
  Unwrap (e ++ [x]) = AsError e.
Proof.
  unfold Unwrap. rewrite empty_snoc, lastIndex_snoc.
  rewrite firstn_app, Nat.sub_diag, firstn_all. simpl.
  rewrite app_nil_r. reflexivity.
Qed.

(** C9.  [Unwrap] drops the last element and turns an aggregate left empty
    into nil (an aggregate already empty unwraps to nil); [AsError] is nil
    exactly on the empty aggregate and is the aggregate itself otherwise. *)
Theorem Unwrap_AsError_spec (e : CorpusErrors) (x : error) :
  Unwrap [] = None /\
  Unwrap (e ++ [x]) = match e with [] => None | _ :: _ => Some (Corpus e) end /\
  (AsError e = None <-> e = []) /\
  AsError (x :: e) = Some (Corpus (x :: e)).
Proof.
  split; [reflexivity|]. split; [|split].
  - rewrite Unwrap_snoc. destruct e; reflexivity.
  - destruct e; unfold AsError; simpl; split; congruence.
  - reflexivity.
Qed.

(* ================================================================== *)
(** ** Capture *)

Lemma Capture_Corpus (e : CorpusErrors) (errs : list error) :
  Capture e (Some (Corpus errs)) = Capture_range e errs.
Proof.
  simpl. revert e. induction errs as [|x errs IH]; intros e; [reflexivity|].
  simpl. destruct x as [x|]; simpl.
  - destruct (Capture_nonnil e x) as [e' [s|]]; [reflexivity | apply IH].
  - apply IH.
Qed.

Lemma Capture_plain (e : CorpusErrors) (c : errval) :
  is_Corpus c = false ->
  Capture e (Some c) =
  if IsValidationError (Some c) then (append e [Some c], None)
  else if errors_Is (Some c) (Some ErrEmptyCorpus) then
    (append e [Some c], AsError (append e [Some c]))
  else (e, Some c).
Proof. destruct c; [reflexivity | reflexivity | discriminate]. Qed.

Lemma Capture_range_cases (e : CorpusErrors) (errs : list error) :
  (exists e', captured_in_order e errs e' /\
              Capture e (Some (Corpus errs)) = (e', None)) \/
  (exists pre x post e1 e2 s,
      errs = pre ++ x :: post /\
      captured_in_order e pre e1 /\
      Capture e1 x = (e2, Some s) /\
      forall post', Capture e (Some (Corpus (pre ++ x :: post'))) = (e2, Some s)).
Proof.
  revert e. induction errs as [|x errs IH]; intros e.
  - left. exists e. split; [constructor | reflexivity].
  - destruct (Capture e x) as [e1 [s|]] eqn:Hx.
    + right. exists [], x, errs, e, e1, s. repeat split; try constructor; auto.
      intros post'. rewrite Capture_Corpus. simpl app.
      cbn [Capture_range]. rewrite Hx. reflexivity.
    + destruct (IH e1) as [(e' & Hc & He')|(pre & y & post & e2 & e3 & s & -> & Hc & Hy & Hall)].
      * left. exists e'. split; [econstructor; eauto|].
        rewrite Capture_Corpus in *. cbn [Capture_range]. rewrite Hx. exact He'.
      * right. exists (x :: pre), y, post, e2, e3, s.
        repeat split; auto; [econstructor; eauto|].
        intros post'. specialize (Hall post').
        rewrite Capture_Corpus in *. simpl app. cbn [Capture_range].
        rewrite Hx. exact Hall.
Qed.

Lemma AsError_snoc (e : CorpusErrors) (x : error) :
  AsError (append e [x]) = Some (Corpus (e ++ [x])).
Proof. unfold AsError, append. rewrite empty_snoc. reflexivity. Qed.

Lemma Capture_ErrEmptyCorpus (e : CorpusErrors) :
  Capture e (Some ErrEmptyCorpus) =
  (e ++ [Some ErrEmptyCorpus], Some (Corpus (e ++ [Some ErrEmptyCorpus]))).
Proof.
  rewrite Capture_plain by reflexivity.
  replace (IsValidationError (Some ErrEmptyCorpus)) with false
    by (vm_compute; reflexivity).
  replace (errors_Is (Some ErrEmptyCorpus) (Some ErrEmptyCorpus)) with true
    by (vm_compute; reflexivity).
  rewrite AsError_snoc. reflexivity.
Qed.

(** C2.  Capturing an aggregate captures its elements one at a time, in
    stored order, each into the aggregate the previous ones left: either
    every element returns nil and so does the whole capture, or the first
    element to return a signal ends the loop with that signal, whatever
    follows it in the candidate.  In particular one [ErrEmptyCorpus] inside
    a nested aggregate aborts every enclosing capture. *)
Theorem Capture_aggregate_in_order (e : CorpusErrors) (errs : list error) :
  ((exists e', captured_in_order e errs e' /\
               Capture e (Some (Corpus errs)) = (e', None)) \/
   (exists pre x post e1 e2 s,
       errs = pre ++ x :: post /\
       captured_in_order e pre e1 /\
       Capture e1 x = (e2, Some s) /\
       forall post',
         Capture e (Some (Corpus (pre ++ x :: post'))) = (e2, Some s))) /\
  (forall inner post,
      Capture e
        (Some (Corpus (Some (Corpus (Some ErrEmptyCorpus :: inner)) :: post))) =
      (e ++ [Some ErrEmptyCorpus],
       Some (Corpus (e ++ [Some ErrEmptyCorpus])))).
Proof.
  split; [apply Capture_range_cases|].
  intros inner post. rewrite Capture_Corpus. cbn [Capture_range].
  rewrite Capture_Corpus. cbn [Capture_range].
  rewrite Capture_ErrEmptyCorpus. reflexivity.
Qed.

(* ------------------------------------------------------------------ *)
(** *** Kinds survive wrapping *)

Lemma errors_Is_Wrapf_New (p q : addr) (msg text : string) (x : errval) :
  errors_Is (Some (Wrapf p msg x)) (Some (New q text)) =
  errors_Is (Some x) (Some (New q text)).
Proof. rewrite errors_Is_step. reflexivity. Qed.

Lemma IsValidationError_Wrapf (p : addr) (msg : string) (x : errval) :
  IsValidationError (Some (Wrapf p msg x)) = IsValidationError (Some x).
Proof.
  unfold IsValidationError, ErrMalformedEntry, ErrUnsupportedVersion,
    ErrInconsistentArgCount.
  rewrite !errors_Is_Wrapf_New. reflexivity.
Qed.

Lemma IsValidationError_false (c : error) :
  IsValidationError c = false <->
  errors_Is c (Some ErrMalformedEntry) = false /\
  errors_Is c (Some ErrUnsupportedVersion) = false /\
  errors_Is c (Some ErrInconsistentArgCount) = false.
Proof.
  unfold IsValidationError. rewrite !orb_false_iff. tauto.
Qed.

Lemma IsValidationError_true (c : error) :
  IsValidationError c = true <->
  errors_Is c (Some ErrMalformedEntry) = true \/
  errors_Is c (Some ErrUnsupportedVersion) = true \/
  errors_Is c (Some ErrInconsistentArgCount) = true.
Proof.
  unfold IsValidationError. rewrite !orb_true_iff. tauto.
Qed.

(** C1, amended.  For a candidate that is not itself an aggregate: one of
    the three validation kinds, also under wrapping, is appended and nil is
    returned; otherwise an [ErrEmptyCorpus] kind is appended and the
    aggregate, now holding it, is returned; otherwise the candidate is
    returned as it is and the aggregate is left alone.  A nil candidate
    changes nothing and returns nil. *)
Theorem Capture_plain_spec (e : CorpusErrors) (c : errval)
    (Hc : is_Corpus c = false) :
  Capture e None = (e, None) /\
  (errors_Is (Some c) (Some ErrMalformedEntry) = true \/
   errors_Is (Some c) (Some ErrUnsupportedVersion) = true \/
   errors_Is (Some c) (Some ErrInconsistentArgCount) = true ->
   Capture e (Some c) = (e ++ [Some c], None)) /\
  (errors_Is (Some c) (Some ErrMalformedEntry) = false ->
   errors_Is (Some c) (Some ErrUnsupportedVersion) = false ->
   errors_Is (Some c) (Some ErrInconsistentArgCount) = false ->
   errors_Is (Some c) (Some ErrEmptyCorpus) = true ->
   Capture e (Some c) = (e ++ [Some c], Some (Corpus (e ++ [Some c])))) /\
  (errors_Is (Some c) (Some ErrMalformedEntry) = false ->
   errors_Is (Some c) (Some ErrUnsupportedVersion) = false ->
   errors_Is (Some c) (Some ErrInconsistentArgCount) = false ->
   errors_Is (Some c) (Some ErrEmptyCorpus) = false ->
   Capture e (Some c) = (e, Some c)) /\
  (forall p msg k,
      In k [ErrMalformedEntry; ErrUnsupportedVersion;
            ErrInconsistentArgCount; ErrEmptyCorpus] ->
      errors_Is (Some (Wrapf p msg c)) (Some k) = errors_Is (Some c) (Some k)).
Proof.
  split; [reflexivity|]. rewrite (Capture_plain e c Hc).
  split; [|split; [|split]].
  - intros H. apply IsValidationError_true in H. rewrite H. reflexivity.
  - intros H1 H2 H3 H4.
    rewrite (proj2 (IsValidationError_false (Some c))) by auto.
    rewrite H4, AsError_snoc. reflexivity.
  - intros H1 H2 H3 H4.
    rewrite (proj2 (IsValidationError_false (Some c))) by auto.
    rewrite H4. reflexivity.
  - intros p msg k [<-|[<-|[<-|[<-|[]]]]]; apply errors_Is_Wrapf_New.
Qed.

Lemma Capture_plain_spec_witness :
  Capture [Some ErrUnsupportedVersion]
    (Some (Wrapf 7 "reading: malformed" ErrMalformedEntry)) =
  ([Some ErrUnsupportedVersion;
    Some (Wrapf 7 "reading: malformed" ErrMalformedEntry)], None).
Proof.
  apply (Capture_plain_spec [Some ErrUnsupportedVersion]
           (Wrapf 7 "reading: malformed" ErrMalformedEntry) eq_refl).
  left. vm_compute. reflexivity.
Defined.

(** C1 as stated fails on candidates that are, or wrap, an aggregate:
    an aggregate of validation kind is flattened into the receiver instead
    of being appended; an empty aggregate, of no kind at all, comes back as
    nil and one holding a foreign error comes back as that error, not as
    itself; a wrapper of both a validation kind and [ErrEmptyCorpus] is
    absorbed without the abort signal. *)
Lemma Capture_claim_counterexample :
  (errors_Is (Some cex_malformed_aggregate) (Some ErrMalformedEntry) = true /\
   Capture [] (Some cex_malformed_aggregate) <>
   ([Some cex_malformed_aggregate], None)) /\
  (IsValidationError (Some (Corpus [])) = false /\
   errors_Is (Some (Corpus [])) (Some ErrEmptyCorpus) = false /\
   Capture [] (Some (Corpus [])) <> ([], Some (Corpus []))) /\
  (IsValidationError (Some cex_foreign_aggregate) = false /\
   errors_Is (Some cex_foreign_aggregate) (Some ErrEmptyCorpus) = false /\
   Capture [] (Some cex_foreign_aggregate) <>
   ([], Some cex_foreign_aggregate)) /\
  (is_Corpus cex_two_kinds = false /\
   errors_Is (Some cex_two_kinds) (Some ErrEmptyCorpus) = true /\
   Capture [] (Some cex_two_kinds) <>
   ([Some cex_two_kinds], Some (Corpus [Some cex_two_kinds]))).
Proof.
  repeat split; try (vm_compute; reflexivity); vm_compute; discriminate.
Qed.

(* ================================================================== *)
(** ** The matching relation *)

Lemma same_ptr_Corpus_l (e : CorpusErrors) (t : errval) :
  same_ptr (Corpus e) t = false.
Proof. reflexivity. Qed.

Lemma CorpusErrors_Is_plain (e : CorpusErrors) (v : errval) :
  is_Corpus v = false ->
  CorpusErrors_Is e (Some v) = errors_Is (last e) (Some v).
Proof.
  intros Hv. rewrite CorpusErrors_Is_step.
  destruct v; [reflexivity | reflexivity | discriminate].
Qed.

Lemma CorpusErrors_Is_aggregate (e t : CorpusErrors) :
  CorpusErrors_Is e (Some (Corpus t)) =
  if empty e || empty t then Bool.eqb (empty e) (empty t)
  else forallb (fun err => errors_Is (Some (Corpus e)) err) t.
Proof. rewrite CorpusErrors_Is_step. reflexivity. Qed.

Lemma errors_Is_Corpus (e : CorpusErrors) (t : errval) :
  errors_Is (Some (Corpus e)) (Some t) =
  CorpusErrors_Is e (Some t) || errors_Is (Unwrap e) (Some t).
Proof.
  rewrite errors_Is_step, same_ptr_Corpus_l, andb_false_r. reflexivity.
Qed.

(** Against a plain target, [errors.Is] walks the aggregate from its last
    element back to its first. *)
Lemma errors_Is_Corpus_plain (e : CorpusErrors) (v : errval) :
  is_Corpus v = false ->
  errors_Is (Some (Corpus e)) (Some v) =
  existsb (fun y => errors_Is y (Some v)) e.
Proof.
  intros Hv. induction e as [|y e IH] using rev_ind.
  - rewrite errors_Is_Corpus, CorpusErrors_Is_plain by exact Hv. reflexivity.
  - rewrite errors_Is_Corpus, CorpusErrors_Is_plain by exact Hv.
    rewrite last_snoc, Unwrap_snoc, existsb_app. simpl existsb.
    rewrite orb_false_r, orb_comm. f_equal.
    unfold AsError. destruct (empty e) eqn:He; [|exact IH].
    apply empty_true_iff in He. subst e. reflexivity.
Qed.

Lemma plain_inv (x : error) :
  plain x = true -> exists v, x = Some v /\ is_Corpus v = false.
Proof.
  destruct x as [v|]; simpl; [|discriminate].
  intros H. exists v. split; [reflexivity|]. now apply negb_true_iff.
Qed.

(** C3, amended.  Two empty aggregates match, an empty and a non-empty one
    do not, whatever the non-empty one holds; two non-empty aggregates match
    exactly when every element of the target matches, through [errors.Is],
    the receiver as a whole, whatever the target holds, nil elements and
    aggregates included.  When the target holds only plain non-nil errors,
    that is exactly when every element of the target matches some element
    of the receiver.  A plain target is matched against the last element of
    the receiver, so never by an empty one.  With [C] distinct from [A] and
    [B], {A,B} matches {A} and {B} but not {A,B,C}; through [errors.Is] the
    empty aggregate matches the empty aggregate only. *)
Theorem CorpusErrors_Is_spec (x y : error) (e t : CorpusErrors) (v : errval)
    (pa pb pc : addr) (sa sb sc : string)
    (Hv : is_Corpus v = false)
    (Hac : pa <> pc) (Hbc : pb <> pc) :
  let A := Some (New pa sa) in
  let B := Some (New pb sb) in
  let C := Some (New pc sc) in
  CorpusErrors_Is [] (Some (Corpus [])) = true /\
  CorpusErrors_Is (x :: e) (Some (Corpus [])) = false /\
  CorpusErrors_Is [] (Some (Corpus (y :: t))) = false /\
  (CorpusErrors_Is (x :: e) (Some (Corpus (y :: t))) = true <->
   forall z, In z (y :: t) ->
             errors_Is (Some (Corpus (x :: e))) z = true) /\
  (forallb plain (y :: t) = true ->
   (CorpusErrors_Is (x :: e) (Some (Corpus (y :: t))) = true <->
    forall z, In z (y :: t) ->
              exists u, In u (x :: e) /\ errors_Is u z = true)) /\
  CorpusErrors_Is (x :: e) (Some v) = errors_Is (last (x :: e)) (Some v) /\
  CorpusErrors_Is [] (Some v) = false /\
  (CorpusErrors_Is [A; B] (Some (Corpus [A])) = true /\
   CorpusErrors_Is [A; B] (Some (Corpus [B])) = true /\
   CorpusErrors_Is [A; B] (Some (Corpus [A; B; C])) = false) /\
  (forall target,
      errors_Is (Some (Corpus [])) target = true <->
      target = Some (Corpus [])).
Proof.
  intros A B C.
  assert (Hcover : forall r s,
             forallb plain s = true ->
             (forallb (fun err => errors_Is (Some (Corpus r)) err) s = true <->
              forall z, In z s -> exists u, In u r /\ errors_Is u z = true)).
  { intros r s Hs. rewrite forallb_forall in *. split; intros H z Hz.
    - destruct (plain_inv z (Hs z Hz)) as (u & -> & Hu).
      specialize (H _ Hz). rewrite errors_Is_Corpus_plain in H by exact Hu.
      apply existsb_exists in H. exact H.
    - destruct (plain_inv z (Hs z Hz)) as (u & -> & Hu).
      rewrite errors_Is_Corpus_plain by exact Hu.
      apply existsb_exists. apply H, Hz. }
  assert (HAA : forall p s q s', errors_Is (Some (New p s)) (Some (New q s'))
                                 = (p =? q)).
  { intros. rewrite errors_Is_step. simpl. apply orb_false_r. }
  split; [reflexivity|]. split; [reflexivity|]. split; [reflexivity|].
  split; [|split; [|split; [|split; [|split]]]].
  - rewrite CorpusErrors_Is_aggregate.
    cbn [empty List.length Nat.eqb orb]. apply forallb_forall.
  - intros Hflat. rewrite CorpusErrors_Is_aggregate.
    cbn [empty List.length Nat.eqb orb]. apply Hcover, Hflat.
  - apply CorpusErrors_Is_plain, Hv.
  - rewrite CorpusErrors_Is_plain by exact Hv. reflexivity.
  - rewrite !CorpusErrors_Is_aggregate.
    cbn [empty List.length Nat.eqb orb forallb].
    unfold A, B, C. rewrite !errors_Is_Corpus_plain by reflexivity.
    cbn [existsb]. rewrite !HAA, !Nat.eqb_refl.
    apply Nat.eqb_neq in Hac, Hbc. rewrite Hac, Hbc.
    rewrite !orb_true_r. repeat split; reflexivity.
  - intros [target|].
    + rewrite errors_Is_Corpus. change (Unwrap []) with (@None errval).
      rewrite errors_Is_nil_l, orb_false_r, CorpusErrors_Is_step.
      destruct target as [p s|p m z|[|z s]]; simpl;
        split; intros H; try discriminate; reflexivity.
    + split; discriminate.
Qed.

Lemma CorpusErrors_Is_spec_witness :
  CorpusErrors_Is [] (Some (Corpus [None])) = false /\
  CorpusErrors_Is [Some ErrMalformedEntry; Some ErrUnsupportedVersion]
    (Some (Corpus [Some (Corpus [Some ErrMalformedEntry;
                                 Some ErrUnsupportedVersion])])) = true /\
  CorpusErrors_Is [Some ErrMalformedEntry; Some ErrUnsupportedVersion]
    (Some (Corpus [Some ErrUnsupportedVersion])) = true.
Proof.
  assert (Hac : 1 <> 3) by discriminate.
  assert (Hbc : 2 <> 3) by discriminate.
  split; [|split].
  - exact (proj1 (proj2 (proj2
             (CorpusErrors_Is_spec None None [] [] ErrEmptyCorpus
                1 2 3 "a" "b" "c" eq_refl Hac Hbc)))).
  - destruct (CorpusErrors_Is_spec (Some ErrMalformedEntry)
                (Some (Corpus [Some ErrMalformedEntry;
                               Some ErrUnsupportedVersion]))
                [Some ErrUnsupportedVersion] []
                ErrEmptyCorpus 1 2 3 "a" "b" "c" eq_refl Hac Hbc)
      as (_ & _ & _ & H & _).
    apply H. intros z [<-|[]]. vm_compute. reflexivity.
  - destruct (CorpusErrors_Is_spec (Some ErrMalformedEntry)
                (Some ErrUnsupportedVersion) [Some ErrUnsupportedVersion] []
                ErrEmptyCorpus 1 2 3 "a" "b" "c" eq_refl Hac Hbc)
      as (_ & _ & _ & _ & H & _).
    apply H; [reflexivity|]. intros z [<-|[]].
    exists (Some ErrUnsupportedVersion).
    split; [simpl; auto | vm_compute; reflexivity].
Defined.

(** C3 as stated fails when the target holds an aggregate or a nil: {A,B}
    matches the target {{A,B}} although neither A nor B matches {A,B};
    {{},A} does not match the target {{}} and {nil} does not match the
    target {nil}, although their one element matches an element of the
    receiver. *)
Lemma CorpusErrors_Is_claim_counterexample :
  (CorpusErrors_Is [Some ErrMalformedEntry; Some ErrUnsupportedVersion]
     (Some (Corpus [Some (Corpus [Some ErrMalformedEntry;
                                  Some ErrUnsupportedVersion])])) = true /\
   ~ (forall z,
         In z [Some (Corpus [Some ErrMalformedEntry;
                             Some ErrUnsupportedVersion])] ->
         exists u,
           In u [Some ErrMalformedEntry; Some ErrUnsupportedVersion] /\
           errors_Is u z = true)) /\
  (CorpusErrors_Is [Some (Corpus []); Some ErrMalformedEntry]
     (Some (Corpus [Some (Corpus [])])) = false /\
   (forall z, In z [Some (Corpus [])] ->
              exists u, In u [Some (Corpus []); Some ErrMalformedEntry] /\
                        errors_Is u z = true)) /\
  (CorpusErrors_Is [None] (Some (Corpus [None])) = false /\
   (forall z, In z [@None errval] ->
              exists u, In u [@None errval] /\ errors_Is u z = true)).
Proof.
  repeat split; try (vm_compute; reflexivity).
  - intros H. destruct (H _ (or_introl eq_refl)) as (u & Hu & Hm).
    destruct Hu as [<-|[<-|[]]]; vm_compute in Hm; discriminate.
  - intros z [<-|[]]. exists (Some (Corpus [])).
    split; [simpl; auto | vm_compute; reflexivity].
  - intros z [<-|[]]. exists None. split; [simpl; auto | reflexivity].
Qed.

(* ================================================================== *)
(** ** A small program logic for runs *)

Section Logic.

Context {lib : GoLib}.
Variable w : Writer.
Variable fsys : FS.

Lemma spec_ret {A : Type} (a : A) (Q : list Event -> A -> Prop) :
  Q [] a -> spec (ret a) Q.
Proof. intros H st. exists []. rewrite app_nil_r. auto. Qed.

Lemma spec_bind {A B : Type} (m : M A) (k : A -> M B)
    (Q1 : list Event -> A -> Prop) (Q : list Event -> B -> Prop) :
  spec m Q1 ->
  (forall a evs1, Q1 evs1 a -> spec (k a) (fun evs2 b => Q (evs1 ++ evs2) b)) ->
  spec (bind m k) Q.
Proof.
  intros Hm Hk st. unfold bind.
  destruct (Hm st) as (evs1 & Ht1 & H1).
  destruct (m st) as [a st1]. simpl in Ht1, H1.
  destruct (Hk a evs1 H1 st1) as (evs2 & Ht2 & H2).
  exists (evs1 ++ evs2). rewrite Ht2, Ht1, app_assoc. auto.
Qed.

Lemma spec_weaken {A : Type} (m : M A) (Q Q' : list Event -> A -> Prop) :
  spec m Q -> (forall evs a, Q evs a -> Q' evs a) -> spec m Q'.
Proof.
  intros Hm HQ st. destruct (Hm st) as (evs & Ht & H). eauto.
Qed.

Lemma spec_Write (b : string) :
  spec (Write w b) (fun evs err => evs = [EvWrite b err]).
Proof. intros st. eexists. split; reflexivity. Qed.

Lemma spec_ReadFile (name : string) :
  spec (ReadFile fsys name)
    (fun evs r => r = fs_ReadFile fsys name /\ evs = [EvReadFile name (snd r)]).
Proof. intros st. eexists. split; [reflexivity | split; reflexivity]. Qed.

Lemma spec_ReadDir (dir : string) :
  spec (ReadDir fsys dir)
    (fun evs r => r = fs_ReadDir fsys dir /\ evs = [EvReadDir dir (snd r)]).
Proof. intros st. eexists. split; [reflexivity | split; reflexivity]. Qed.

Lemma spec_Errorf (msg : string) (err : errval) :
  spec (Errorf msg err) (fun evs e => evs = [] /\ exists p, e = Wrapf p msg err).
Proof.
  intros st. exists []. simpl. rewrite app_nil_r. eauto.
Qed.

Lemma spec_readErr (x : errval) (fileName : string) :
  spec (readErr (Some x) fileName)
    (fun evs e =>
       evs = [] /\
       exists p, e = Some (Wrapf p ("reading " +++ strconv_Quote fileName +++
                                    ": " +++ fmt_w x) x)).
Proof.
  unfold readErr. eapply spec_bind; [apply spec_Errorf|].
  intros a evs1 (-> & p & ->). apply spec_ret. eauto.
Qed.

Lemma spec_writeErr (x : errval) :
  spec (writeErr (Some x))
    (fun evs e =>
       evs = [] /\
       exists p, e = Some (Wrapf p ("writing output: " +++ fmt_w x) x)).
Proof.
  unfold writeErr. eapply spec_bind; [apply spec_Errorf|].
  intros a evs1 (-> & p & ->). apply spec_ret. eauto.
Qed.

End Logic.

(* ================================================================== *)
(** ** Opaque I/O failures abort the scan *)

Section Aborts.

Context {lib : GoLib}.
Variable w : Writer.
Variable fsys : FS.
Variable dir : string.

Lemma opaque_Wrapf (p : addr) (msg : string) (x : errval) :
  opaque (Wrapf p msg x) = opaque x.
Proof.
  unfold opaque. rewrite IsValidationError_Wrapf.
  unfold ErrEmptyCorpus. rewrite errors_Is_Wrapf_New. reflexivity.
Qed.

Lemma Capture_opaque (errs : CorpusErrors) (p : addr) (msg : string)
    (x : errval) :
  opaque x = true ->
  Capture errs (Some (Wrapf p msg x)) = (errs, Some (Wrapf p msg x)).
Proof.
  intros H. rewrite <- (opaque_Wrapf p msg) in H. unfold opaque in H.
  apply andb_true_iff in H. destruct H as [H1 H2].
  apply negb_true_iff in H1, H2.
  rewrite Capture_plain by reflexivity. rewrite H1, H2. reflexivity.
Qed.

Lemma aborts_with_Capture (files : list DirEntry) (ev : Event) (err : error)
    (errs : CorpusErrors) :
  io_failure ev -> aborts_with dir files ev err ->
  Capture errs err = (errs, err) /\ err <> None.
Proof.
  intros Hf Ha. destruct Ha; simpl in Hf;
    (split; [apply Capture_opaque, Hf | discriminate]).
Qed.

Lemma aborts_with_incl (files files' : list DirEntry) (ev : Event)
    (err : error) :
  incl files files' -> aborts_with dir files ev err ->
  aborts_with dir files' ev err.
Proof. intros Hi Ha. destruct Ha; constructor. auto. Qed.

Lemma discipline_incl (files files' : list DirEntry) (evs : list Event)
    (err : error) :
  incl files files' -> abort_discipline dir files evs err ->
  abort_discipline dir files' evs err.
Proof.
  intros Hi H pre ev post E Hf. destruct (H pre ev post E Hf).
  eauto using aborts_with_incl.
Qed.

Lemma discipline_clean (files : list DirEntry) (evs : list Event)
    (err : error) :
  clean evs -> abort_discipline dir files evs err.
Proof.
  intros Hc pre ev post -> Hf. exfalso.
  unfold clean in Hc. rewrite Forall_forall in Hc.
  apply (Hc ev); [apply in_elt | exact Hf].
Qed.

Lemma discipline_app (files : list DirEntry) (evs1 evs2 : list Event)
    (err : error) :
  clean evs1 -> abort_discipline dir files evs2 err ->
  abort_discipline dir files (evs1 ++ evs2) err.
Proof.
  intros Hc H pre ev post E Hf.
  unfold clean in Hc. rewrite Forall_forall in Hc.
  apply app_eq_app in E. destruct E as (l & [[E1 E2]|[E1 E2]]).
  - destruct l as [|ev' l].
    + simpl in E2. apply (H [] ev post); auto.
    + injection E2 as <- E2. exfalso. apply (Hc ev); [|exact Hf].
      rewrite E1. apply in_elt.
  - apply (H l ev post); auto.
Qed.

Lemma discipline_last (files : list DirEntry) (ev : Event) (err : error) :
  (io_failure ev -> aborts_with dir files ev err) ->
  abort_discipline dir files [ev] err.
Proof.
  intros H pre ev' post E Hf.
  destruct pre as [|a pre]; [|destruct pre; discriminate].
  injection E as <- <-. auto.
Qed.

Lemma discipline_continue (files : list DirEntry) (evs : list Event)
    (err : error) (errs errs' : CorpusErrors) :
  abort_discipline dir files evs err ->
  Capture errs err = (errs', None) -> clean evs.
Proof.
  intros H Hcap. apply Forall_forall. intros ev Hin Hf.
  destruct (in_split _ _ Hin) as (pre & post & E).
  destruct (H pre ev post E Hf) as [_ Ha].
  destruct (aborts_with_Capture files ev err errs Hf Ha) as [Hc Hn].
  rewrite Hc in Hcap. injection Hcap as _ Hcap. contradiction.
Qed.

Lemma discipline_nil_result (files : list DirEntry) (evs : list Event) :
  abort_discipline dir files evs None -> clean evs.
Proof.
  intros H. apply (discipline_continue files evs None [] []); auto.
Qed.

Lemma clean_app (evs1 evs2 : list Event) :
  clean evs1 -> clean evs2 -> clean (evs1 ++ evs2).
Proof. intros. apply Forall_app. auto. Qed.

End Aborts.

(* ================================================================== *)
(** ** Reading one entry *)

Section Reading.

Context {lib : GoLib}.
Variable w : Writer.
Variable fsys : FS.

Lemma IsValidationError_Malformed :
  IsValidationError (Some ErrMalformedEntry) = true.
Proof. vm_compute. reflexivity. Qed.

Lemma IsValidationError_Unsupported (p : addr) (msg : string) :
  IsValidationError (Some (Wrapf p msg ErrUnsupportedVersion)) = true.
Proof. rewrite IsValidationError_Wrapf. vm_compute. reflexivity. Qed.

(** [parseLines] touches nothing, and fails only with validation errors. *)
Lemma parseLines_spec (b : string) :
  spec (parseLines b)
    (fun evs r =>
       evs = [] /\
       match entry b with
       | Some lines => r = (lines, None) /\ lines <> []
       | None =>
           exists x, r = ([], Some x) /\ IsValidationError (Some x) = true
       end).
Proof.
  intros st. exists []. rewrite app_nil_r. unfold entry, parseLines.
  destruct (List.length (bytes_Split b "010") <? 2).
  { simpl. repeat split. exists ErrMalformedEntry.
    split; [reflexivity | apply IsValidationError_Malformed]. }
  destruct (negb (String.eqb _ encVersion1)).
  { simpl. repeat split. eexists.
    split; [reflexivity | apply IsValidationError_Unsupported]. }
  destruct (readLines_range (skipn 1 (bytes_Split b "010")) []) as [|l ls].
  { simpl. repeat split. exists ErrMalformedEntry.
    split; [reflexivity | apply IsValidationError_Malformed]. }
  simpl. repeat split. discriminate.
Qed.

Lemma readLines_spec (name : string) :
  spec (readLines fsys name)
    (fun evs r =>
       evs = [EvReadFile name (snd (fs_ReadFile fsys name))] /\
       match fs_ReadFile fsys name with
       | (_, Some x) => r = ([], Some x)
       | (b, None) =>
           match entry b with
           | Some lines => r = (lines, None) /\ lines <> []
           | None =>
               exists x, r = ([], Some x) /\ IsValidationError (Some x) = true
           end
       end).
Proof.
  unfold readLines. eapply spec_bind; [apply spec_ReadFile|].
  intros [b err] evs1 [E ->]. rewrite <- E. simpl snd.
  destruct err as [x|].
  - apply spec_ret. rewrite app_nil_r. auto.
  - eapply spec_weaken; [apply parseLines_spec|].
    intros evs a [-> H]. auto.
Qed.

End Reading.

Section AbortsOfTheScan.

Context {lib : GoLib}.
Variable w : Writer.
Variable fsys : FS.
Variable dir : string.

Lemma dumpLines_discipline (files : list DirEntry) (lines : list string) :
  spec (dumpLines w lines) (fun evs err => abort_discipline dir files evs err).
Proof.
  induction lines as [|v lines IH]; cbn [dumpLines].
  - apply spec_ret. apply discipline_clean. constructor.
  - eapply spec_bind; [apply spec_Write|]. intros err evs1 ->.
    destruct err as [x|].
    + eapply spec_weaken; [apply spec_writeErr|].
      intros evs e (-> & p & ->). apply discipline_last. constructor.
    + eapply spec_weaken; [apply IH|]. intros evs e H.
      apply discipline_app; [|exact H]. repeat constructor. simpl. tauto.
Qed.

(** A failed read, wrapped by [readErr] and captured: either the scan goes
    on, and then the failure was not opaque, or it stops with what
    [Capture] returned. *)
Lemma read_failure_captured (files : list DirEntry) (f : DirEntry)
    (x : errval) (p : addr) (errs errs' : CorpusErrors) (rerr e : error) :
  In f files ->
  (rerr = Some x \/ (rerr = None /\ IsValidationError (Some x) = true)) ->
  Capture errs
    (Some (Wrapf p ("reading " +++ strconv_Quote (Name f) +++ ": " +++
                    fmt_w x) x)) = (errs', e) ->
  match e with
  | Some _ =>
      abort_discipline dir files
        [EvReadFile (path_Join dir (Name f)) rerr] e
  | None => clean [EvReadFile (path_Join dir (Name f)) rerr]
  end.
Proof.
  intros Hin Hr Hcap. destruct Hr as [->|[-> Hv]].
  - destruct (opaque x) eqn:Ho.
    + rewrite Capture_opaque in Hcap by exact Ho.
      injection Hcap as <- <-. apply discipline_last.
      intros _. constructor. exact Hin.
    + assert (Hc : clean [EvReadFile (path_Join dir (Name f)) (Some x)]).
      { repeat constructor. simpl. congruence. }
      destruct e; [apply discipline_clean|]; exact Hc.
  - assert (Hc : clean [EvReadFile (path_Join dir (Name f)) None]).
    { repeat constructor. simpl. tauto. }
    destruct e; [apply discipline_clean|]; exact Hc.
Qed.

Lemma dumpFiles_range_discipline (argCount : nat) (files : list DirEntry) :
  forall errs,
    spec (dumpFiles_range w fsys dir argCount errs files)
      (fun evs err => abort_discipline dir files evs err).
Proof.
  induction files as [|f files IH]; intros errs; cbn [dumpFiles_range].
  { apply spec_ret. apply discipline_clean. constructor. }
  assert (Hnext : forall errs' ev,
             clean [ev] ->
             spec (dumpFiles_range w fsys dir argCount errs' files)
               (fun evs err =>
                  abort_discipline dir (f :: files) ([ev] ++ evs) err)).
  { intros errs' ev Hc. eapply spec_weaken; [apply IH|]. intros evs a H.
    apply discipline_app; [exact Hc|].
    eapply discipline_incl; [|exact H]. apply incl_tl, incl_refl. }
  assert (Hfailed : forall x rerr,
             (rerr = Some x \/
              (rerr = None /\ IsValidationError (Some x) = true)) ->
             spec (err <- readErr (Some x) (Name f) ;;
                   let (errs', e) := Capture errs err in
                   match e with
                   | Some _ => ret e
                   | None => dumpFiles_range w fsys dir argCount errs' files
                   end)
               (fun evs err =>
                  abort_discipline dir (f :: files)
                    ([EvReadFile (path_Join dir (Name f)) rerr] ++ evs) err)).
  { intros x rerr Hr. eapply spec_bind; [apply spec_readErr|].
    intros e evs1 (-> & p & ->).
    destruct (Capture errs _) as [errs' [e'|]] eqn:Hcap;
      pose proof (read_failure_captured (f :: files) f x p errs errs' rerr _
                    (in_eq _ _) Hr Hcap) as H; cbn match in H.
    - apply spec_ret. rewrite !app_nil_r. exact H.
    - cbn [app]. apply (Hnext errs' _ H). }
  eapply spec_bind; [apply readLines_spec|].
  intros [lines err] evs1 [-> H].
  destruct (fs_ReadFile fsys (path_Join dir (Name f))) as [b [x|]] eqn:Hrf;
    cbn [snd].
  { injection H as -> ->. apply Hfailed. auto. }
  destruct (entry b) as [l|].
  2:{ destruct H as (x & [= -> ->] & Hv). apply Hfailed. auto. }
  destruct H as [[= -> ->] _].
  assert (Hread : clean [EvReadFile (path_Join dir (Name f)) None]).
  { repeat constructor. simpl. tauto. }
  destruct (negb (List.length l =? argCount)).
  { eapply spec_bind; [apply spec_Errorf|]. intros e1 evs2 (-> & p1 & ->).
    eapply spec_bind; [apply spec_readErr|]. intros e2 evs3 (-> & p2 & ->).
    cbn [app]. apply (Hnext _ _ Hread). }
  eapply spec_bind with
    (Q1 := fun evs err => clean evs /\ err = None \/
                          exists b' x, evs = [EvWrite b' (Some x)] /\ err = Some x).
  { destruct (1 <? argCount).
    - eapply spec_weaken; [apply spec_Write|]. intros evs [x|] ->.
      + right. eauto.
      + left. split; [repeat constructor; simpl; tauto | reflexivity].
    - apply spec_ret. left. split; [constructor | reflexivity]. }
  intros err evs2 [[Hc ->]|(b' & x & -> & ->)].
  2:{ eapply spec_weaken; [apply spec_writeErr|].
      intros evs e (-> & p & ->). rewrite app_nil_r.
      apply discipline_app; [exact Hread|]. apply discipline_last.
      constructor. }
  eapply spec_bind; [apply (dumpLines_discipline (f :: files))|].
  intros [e|] evs3 Hd.
  - apply spec_ret. rewrite app_nil_r.
    apply discipline_app; [exact Hread|].
    apply discipline_app; [exact Hc | exact Hd].
  - eapply spec_weaken; [apply IH|]. intros evs a Ha.
    apply discipline_app; [exact Hread|].
    apply discipline_app; [exact Hc|].
    apply discipline_app; [eapply discipline_nil_result; exact Hd|].
    eapply discipline_incl; [|exact Ha]. apply incl_tl, incl_refl.
Qed.

Lemma firstValidFileLines_from_discipline (files : list DirEntry) :
  forall errs,
    spec (firstValidFileLines_from fsys dir errs files)
      (fun evs r =>
         abort_discipline dir files evs (snd r) /\ incl (snd (fst r)) files).
Proof.
  induction files as [|f files IH]; intros errs;
    cbn [firstValidFileLines_from].
  { destruct (Capture errs (Some ErrEmptyCorpus)) as [errs' err].
    apply spec_ret. split; [|apply incl_refl].
    apply discipline_clean. constructor. }
  assert (Hfailed : forall x rerr,
             (rerr = Some x \/
              (rerr = None /\ IsValidationError (Some x) = true)) ->
             spec (err <- readErr (Some x) (Name f) ;;
                   let (errs', err) := Capture errs err in
                   match err with
                   | Some _ => ret ([], [], err)
                   | None => firstValidFileLines_from fsys dir errs' files
                   end)
               (fun evs r =>
                  abort_discipline dir (f :: files)
                    ([EvReadFile (path_Join dir (Name f)) rerr] ++ evs)
                    (snd r) /\
                  incl (snd (fst r)) (f :: files))).
  { intros x rerr Hr. eapply spec_bind; [apply spec_readErr|].
    intros e evs1 (-> & p & ->).
    destruct (Capture errs _) as [errs' [e'|]] eqn:Hcap;
      pose proof (read_failure_captured (f :: files) f x p errs errs' rerr _
                    (in_eq _ _) Hr Hcap) as H; cbn match in H.
    - apply spec_ret. rewrite !app_nil_r. split; [exact H|].
      apply incl_nil_l.
    - cbn [app]. eapply spec_weaken; [apply IH|]. intros evs a [Ha Hi].
      split; [|apply incl_tl, Hi].
      apply (discipline_app dir (f :: files) [_]); [exact H|].
      eapply discipline_incl; [|exact Ha]. apply incl_tl, incl_refl. }
  eapply spec_bind; [apply readLines_spec|].
  intros [lines err] evs1 [-> H].
  destruct (fs_ReadFile fsys (path_Join dir (Name f))) as [b [x|]] eqn:Hrf;
    cbn [snd].
  { injection H as -> ->. apply Hfailed. auto. }
  destruct (entry b) as [l|].
  2:{ destruct H as (x & [= -> ->] & Hv). apply Hfailed. auto. }
  destruct H as [[= -> ->] _].
  apply spec_ret. rewrite app_nil_r. split; [|apply incl_refl].
  apply discipline_clean. repeat constructor. simpl. tauto.
Qed.

Lemma discipline_Capture (files : list DirEntry) (evs : list Event)
    (err e : error) (errs errs' : CorpusErrors) :
  abort_discipline dir files evs err ->
  Capture errs err = (errs', e) ->
  abort_discipline dir files evs e.
Proof.
  intros H Hcap pre ev post E Hf. destruct (H pre ev post E Hf) as [-> Ha].
  split; [reflexivity|].
  destruct (aborts_with_Capture dir files ev err errs Hf Ha) as [Hc _].
  rewrite Hc in Hcap. injection Hcap as _ <-. exact Ha.
Qed.

Lemma corpusFiles_spec :
  spec (corpusFiles fsys dir)
    (fun evs r =>
       evs = [EvReadDir dir (snd (fs_ReadDir fsys dir))] /\
       match snd (fs_ReadDir fsys dir) with
       | Some x => r = ([], Some x)
       | None =>
           match filter IsRegular (fst (fs_ReadDir fsys dir)) with
           | [] => r = ([], Some ErrEmptyCorpus)
           | files => r = (files, None)
           end
       end).
Proof.
  unfold corpusFiles, getFiles.
  eapply spec_bind with
    (Q1 := fun evs r =>
       evs = [EvReadDir dir (snd (fs_ReadDir fsys dir))] /\
       match snd (fs_ReadDir fsys dir) with
       | Some x => r = ([], Some x)
       | None => r = (filter IsRegular (fst (fs_ReadDir fsys dir)), None)
       end).
  - eapply spec_bind; [apply spec_ReadDir|].
    intros [s err] evs1 [<- ->]. cbn [fst snd]. destruct err as [x|];
      apply spec_ret; rewrite app_nil_r; auto.
  - intros [files err] evs1 [-> H].
    destruct (snd (fs_ReadDir fsys dir)) as [x|].
    + injection H as -> ->. apply spec_ret. rewrite app_nil_r. auto.
    + injection H as -> ->.
      destruct (filter IsRegular (fst (fs_ReadDir fsys dir)));
        apply spec_ret; rewrite app_nil_r; auto.
Qed.

Lemma Fprintln_discipline (files : list DirEntry) (s : string)
    (k : M error) (Q : list Event -> error -> Prop) :
  (forall evs err,
      abort_discipline dir files evs err -> Q evs err) ->
  (forall ev, clean [ev] -> spec k (fun evs err => Q ([ev] ++ evs) err)) ->
  spec (err <- Fprintln w s ;;
        match err with
        | Some _ => writeErr err
        | None => k
        end) Q.
Proof.
  intros HQ Hk. eapply spec_bind; [apply spec_Write|].
  intros [x|] evs1 ->.
  - eapply spec_weaken; [apply spec_writeErr|].
    intros evs e (-> & p & ->). rewrite app_nil_r. apply HQ.
    apply discipline_last. constructor.
  - apply Hk. repeat constructor. simpl. tauto.
Qed.

Lemma Capture_range_signal_end (c : error) (l : list error) :
  (forall e, exists e' s, Capture e c = (e', Some s)) ->
  forall e, exists e' s, Capture_range e (l ++ [c]) = (e', Some s).
Proof.
  intros Hc. induction l as [|a l IH]; intros e; simpl.
  - destruct (Hc e) as (e' & s & H). rewrite H. eauto.
  - destruct (Capture e a) as [e1 [s|]]; eauto.
Qed.

(** What [Capture] returns for a plain candidate, if not nil, is returned
    again by any later [Capture] of it. *)
Lemma Capture_signal_again (c s : errval) (e e' : CorpusErrors) :
  is_Corpus c = false ->
  Capture e (Some c) = (e', Some s) ->
  forall e0, exists e1 s1, Capture e0 (Some s) = (e1, Some s1).
Proof.
  intros Hc H e0. rewrite Capture_plain in H by exact Hc.
  destruct (IsValidationError (Some c)) eqn:Hv; [discriminate|].
  destruct (errors_Is (Some c) (Some ErrEmptyCorpus)) eqn:He.
  - rewrite AsError_snoc in H. injection H as _ <-.
    rewrite Capture_Corpus. apply Capture_range_signal_end.
    intros e1. rewrite Capture_plain by exact Hc.
    rewrite Hv, He, AsError_snoc. eauto.
  - injection H as _ <-. rewrite Capture_plain by exact Hc.
    rewrite Hv, He. eauto.
Qed.

(** When [firstValidFileLines] returns no files, the [Capture] of its error
    in [DumpDir] returns a signal: [DumpDir] returns before it slices
    [files[1:]], which is therefore always in range. *)
Lemma firstValidFileLines_files (files : list DirEntry) :
  forall errs,
    spec (firstValidFileLines_from fsys dir errs files)
      (fun _ r =>
         snd (fst r) = [] ->
         forall e0, exists e1 s, Capture e0 (snd r) = (e1, Some s)).
Proof.
  induction files as [|f files IH]; intros errs;
    cbn [firstValidFileLines_from].
  { rewrite Capture_ErrEmptyCorpus. apply spec_ret. intros _ e0.
    cbn [snd]. rewrite Capture_Corpus. apply Capture_range_signal_end.
    intros e. rewrite Capture_ErrEmptyCorpus. eauto. }
  eapply spec_bind; [apply readLines_spec|].
  intros [lines err] evs1 _. destruct err as [x|].
  - eapply spec_bind; [apply spec_readErr|]. intros e evs2 (-> & p & ->).
    destruct (Capture errs _) as [errs' [s|]] eqn:Hcap.
    + apply spec_ret. intros _. cbn [snd].
      eapply Capture_signal_again; [|exact Hcap]. reflexivity.
    + eapply spec_weaken; [apply IH|]. auto.
  - apply spec_ret. discriminate.
Qed.

(** Every run of [DumpDir] keeps the abort discipline. *)
Lemma DumpDir_discipline :
  spec (DumpDir w fsys dir)
    (fun evs err =>
       abort_discipline dir (filter IsRegular (fst (fs_ReadDir fsys dir)))
         evs err).
Proof.
  set (all := filter IsRegular (fst (fs_ReadDir fsys dir))).
  assert (Hdir : forall e, clean [EvReadDir dir e]).
  { intros e. repeat constructor. simpl. tauto. }
  unfold DumpDir. eapply spec_bind; [apply corpusFiles_spec|].
  intros [files err] evs0 [-> H].
  destruct (snd (fs_ReadDir fsys dir)) as [x|].
  { injection H as -> ->. apply spec_ret. rewrite app_nil_r.
    apply discipline_clean, Hdir. }
  fold all in H. destruct all as [|f0 all'] eqn:Hall.
  { injection H as -> ->. apply spec_ret. rewrite app_nil_r.
    apply discipline_clean, Hdir. }
  injection H as -> ->. rewrite <- Hall. clear Hall f0 all'.
  eapply spec_bind; [apply firstValidFileLines_from_discipline|].
  intros [[lines files] err] evs1 [Hfirst Hincl]. cbn [fst snd] in *.
  destruct (Capture [] err) as [errs [e|]] eqn:Hcap.
  { apply spec_ret. rewrite app_nil_r. apply discipline_app; [apply Hdir|].
    exact (discipline_Capture all evs1 err _ [] errs Hfirst Hcap). }
  pose proof (discipline_continue dir all evs1 err [] errs Hfirst Hcap) as Hc1.
  apply (Fprintln_discipline all).
  { intros evs e H. apply discipline_app; [apply Hdir|].
    apply discipline_app; [exact Hc1 | exact H]. }
  intros ev1 Hev1.
  eapply spec_bind; [apply (dumpLines_discipline all)|].
  intros [e|] evs2 Hd.
  { apply spec_ret. rewrite app_nil_r.
    apply discipline_app; [apply Hdir|].
    apply discipline_app; [exact Hc1|].
    apply discipline_app; [exact Hev1 | exact Hd]. }
  pose proof (discipline_nil_result dir all evs2 Hd) as Hc2.
  eapply spec_bind; [apply dumpFiles_range_discipline|].
  intros err3 evs3 Hfiles.
  assert (Hfiles' : abort_discipline dir all evs3 err3).
  { eapply discipline_incl; [|exact Hfiles].
    intros f Hf. apply Hincl. destruct files; [exact Hf | right; exact Hf]. }
  assert (Hpre : forall evs e,
             abort_discipline dir all evs e ->
             abort_discipline dir all
               ([EvReadDir dir None] ++ evs1 ++ [ev1] ++ evs2 ++ evs) e).
  { intros evs e H. apply discipline_app; [apply Hdir|].
    apply discipline_app; [exact Hc1|].
    apply discipline_app; [exact Hev1|].
    apply discipline_app; [exact Hc2 | exact H]. }
  destruct (Capture errs err3) as [errs' [e|]] eqn:Hcap3.
  { apply spec_ret. rewrite app_nil_r. apply Hpre.
    exact (discipline_Capture all evs3 err3 _ errs errs' Hfiles' Hcap3). }
  pose proof (discipline_continue dir all evs3 err3 errs errs' Hfiles' Hcap3)
    as Hc3.
  apply (Fprintln_discipline all).
  { intros evs e H. apply Hpre. apply discipline_app; [exact Hc3 | exact H]. }
  intros ev4 Hev4. apply spec_ret. rewrite app_nil_r. apply Hpre.
  apply discipline_clean. apply clean_app; assumption.
Qed.

End AbortsOfTheScan.

(* ================================================================== *)
(** ** Write failures by their place in the rendering *)

Section WritesOfTheScan.

Context {lib : GoLib}.
Variable w : Writer.
Variable fsys : FS.
Variable dir : string.

Lemma app_eq_cases {A : Type} (l1 l2 pre post : list A) (a : A) :
  l1 ++ l2 = pre ++ a :: post ->
  (exists post1, l1 = pre ++ a :: post1 /\ post = post1 ++ l2) \/
  (exists pre2, pre = l1 ++ pre2 /\ l2 = pre2 ++ a :: post).
Proof.
  intros E. apply app_eq_app in E. destruct E as (l & [[E1 E2]|[E1 E2]]).
  - destruct l as [|a' l].
    + right. exists []. rewrite app_nil_r in *. simpl in E2. auto.
    + left. injection E2 as <- ->. eauto.
  - right. eauto.
Qed.

Lemma entry_line_not_closing (b : string) : entry_line b -> ~ closing b.
Proof.
  intros [->|[v ->]] [H|H]; vm_compute in H; discriminate.
Qed.

Lemma later_entries_entry_events (evs : list Event) :
  later_entries evs -> Forall entry_event evs.
Proof.
  destruct evs as [|ev evs]; [constructor|].
  intros [(n & e & ->) H]. constructor; [exact I | exact H].
Qed.

Lemma in_place_no_failure (files : list DirEntry) (evs : list Event)
    (err : error) :
  Forall (fun ev => ~ failed_write ev) evs -> aborts_in_place dir files evs err.
Proof.
  intros H pre b x post -> _. exfalso. rewrite Forall_forall in H.
  apply (H (EvWrite b (Some x))); [apply in_elt | exact I].
Qed.

Lemma in_place_last (files : list DirEntry) (evs : list Event) (b : string)
    (x : errval) (err : error) :
  Forall (fun ev => ~ failed_write ev) evs ->
  aborts_with dir files (EvWrite b (Some x)) err ->
  aborts_in_place dir files (evs ++ [EvWrite b (Some x)]) err.
Proof.
  intros H Ha pre b' x' post E _. rewrite Forall_forall in H.
  apply app_eq_cases in E. destruct E as [(post1 & E & _)|(pre2 & _ & E)].
  - exfalso. apply (H (EvWrite b' (Some x'))); [|exact I].
    rewrite E. apply in_elt.
  - destruct pre2 as [|a pre2]; [|destruct pre2; discriminate].
    injection E as <- <- <-. auto.
Qed.

(** Once the opening delimiter is written and a later file has been read,
    a failed write of a line of a later entry is neither on the closing
    delimiter nor before all later entries. *)
Lemma in_place_later (files : list DirEntry) (h t evs3 tail : list Event)
    (c : string) (e : error) (err : error) :
  Forall (fun ev => ~ failed_write ev) (h ++ EvWrite c e :: t) ->
  later_entries evs3 ->
  aborts_in_place dir files tail err ->
  (tail = [] \/ exists bp r, tail = [EvWrite bp r]) ->
  aborts_in_place dir files ((h ++ EvWrite c e :: t) ++ evs3 ++ tail) err.
Proof.
  intros Hok Hlater Htail Hshape pre b x post E Hcase.
  rewrite Forall_forall in Hok.
  apply app_eq_cases in E. destruct E as [(post1 & E & _)|(pre2 & -> & E)].
  { exfalso. apply (Hok (EvWrite b (Some x))); [|exact I].
    rewrite E. apply in_elt. }
  apply app_eq_cases in E. destruct E as [(post1 & E & ->)|(pre3 & -> & E)].
  - exfalso. destruct evs3 as [|r evs3]; [destruct pre2; discriminate|].
    destruct Hlater as [(n & re & ->) Hev].
    destruct pre2 as [|r' pre2]; [discriminate|].
    injection E as <- E. rewrite E in Hev.
    apply Forall_elt in Hev. simpl in Hev.
    destruct Hcase as [Hc|Hf].
    + exact (entry_line_not_closing b Hev Hc).
    + apply (Hf h c e (t ++ EvReadFile n re :: pre2)
               ltac:(rewrite <- app_assoc; reflexivity) n re).
      apply in_elt.
  - destruct Hshape as [->|(bp & r & ->)]; [destruct pre3; discriminate|].
    destruct pre3 as [|a pre3]; [|destruct pre3; discriminate].
    injection E as -> -> <-.
    apply (Htail [] b x []); [reflexivity|].
    destruct Hcase as [Hc|Hf]; [left; exact Hc | right].
    intros p1 c' e' p2 E'. destruct p1; discriminate.
Qed.

Lemma dumpLines_first_failure (files : list DirEntry) (lines : list string) :
  spec (dumpLines w lines)
    (fun evs err =>
       Forall entry_event evs /\
       ((err = None /\ Forall (fun ev => ~ failed_write ev) evs) \/
        (exists pre b x,
            evs = pre ++ [EvWrite b (Some x)] /\
            Forall (fun ev => ~ failed_write ev) pre /\
            aborts_with dir files (EvWrite b (Some x)) err))).
Proof.
  induction lines as [|v lines IH]; cbn [dumpLines].
  - apply spec_ret. split; [constructor|]. left. split; [reflexivity|constructor].
  - eapply spec_bind; [apply spec_Write|]. intros err evs1 ->.
    assert (Hline : entry_event (EvWrite (TAB +++ v +++ "," +++ LF) err)).
    { right. eauto. }
    destruct err as [x|].
    + eapply spec_weaken; [apply spec_writeErr|].
      intros evs e (-> & p & ->). simpl app.
      split; [constructor; [exact Hline | constructor]|].
      right. exists [], (TAB +++ v +++ "," +++ LF), x.
      repeat split; constructor.
    + eapply spec_weaken; [apply IH|].
      intros evs e [Hev [[-> Hok]|(pre & b & x & -> & Hok & Ha)]].
      * split; [constructor; assumption|]. left.
        split; [reflexivity|]. constructor; [simpl; tauto | exact Hok].
      * split; [constructor; assumption|]. right.
        exists (EvWrite (TAB +++ v +++ "," +++ LF) None :: pre), b, x.
        repeat split; [|exact Ha]. constructor; [simpl; tauto | exact Hok].
Qed.

Lemma dumpFiles_range_later (argCount : nat) (files : list DirEntry) :
  forall errs,
    spec (dumpFiles_range w fsys dir argCount errs files)
      (fun evs _ => later_entries evs).
Proof.
  induction files as [|f files IH]; intros errs; cbn [dumpFiles_range].
  { apply spec_ret. exact I. }
  assert (Hnext : forall errs',
             spec (dumpFiles_range w fsys dir argCount errs' files)
               (fun evs _ => Forall entry_event evs)).
  { intros errs'. eapply spec_weaken; [apply IH|].
    intros evs a. apply later_entries_entry_events. }
  eapply spec_bind; [apply readLines_spec|].
  intros [lines err] evs1 [-> _]. cbn [app later_entries].
  eapply spec_weaken with (Q := fun evs _ => Forall entry_event evs);
    [|intros evs a H; split; [eauto | exact H]].
  destruct err as [x|].
  { eapply spec_bind; [apply spec_readErr|]. intros e evs2 (-> & p & ->).
    destruct (Capture errs _) as [errs' [e'|]].
    - apply spec_ret. constructor.
    - apply Hnext. }
  destruct (negb (List.length lines =? argCount)).
  { eapply spec_bind; [apply spec_Errorf|]. intros e1 evs2 (-> & p1 & ->).
    eapply spec_bind; [apply spec_readErr|]. intros e2 evs3 (-> & p2 & ->).
    apply Hnext. }
  eapply spec_bind with
    (Q1 := fun evs err => Forall entry_event evs).
  { destruct (1 <? argCount).
    - eapply spec_weaken; [apply spec_Write|]. intros evs e ->.
      constructor; [left; reflexivity | constructor].
    - apply spec_ret. constructor. }
  intros [x|] evs2 Hev2.
  { eapply spec_weaken; [apply spec_writeErr|].
    intros evs e (-> & _). rewrite app_nil_r. exact Hev2. }
  eapply spec_bind; [apply (dumpLines_first_failure (f :: files))|].
  intros [e|] evs3 [Hev3 _].
  - apply spec_ret. rewrite app_nil_r. apply Forall_app. auto.
  - eapply spec_weaken; [apply Hnext|]. intros evs a H.
    rewrite !Forall_app. auto.
Qed.

Lemma firstValidFileLines_from_reads (files : list DirEntry) :
  forall errs,
    spec (firstValidFileLines_from fsys dir errs files)
      (fun evs _ => Forall (fun ev => ~ failed_write ev) evs).
Proof.
  induction files as [|f files IH]; intros errs;
    cbn [firstValidFileLines_from].
  { destruct (Capture errs (Some ErrEmptyCorpus)) as [errs' err].
    apply spec_ret. constructor. }
  eapply spec_bind; [apply readLines_spec|].
  intros [lines err] evs1 [-> _].
  assert (Hread : forall e,
             ~ failed_write (EvReadFile (path_Join dir (Name f)) e)).
  { intros e. simpl. tauto. }
  destruct err as [x|].
  - eapply spec_bind; [apply spec_readErr|]. intros e evs2 (-> & p & ->).
    destruct (Capture errs _) as [errs' [e'|]].
    + apply spec_ret. repeat constructor. apply Hread.
    + eapply spec_weaken; [apply IH|]. intros evs a H.
      constructor; [apply Hread | exact H].
  - apply spec_ret. repeat constructor. apply Hread.
Qed.

(** Every run of [DumpDir] aborts in place. *)
Lemma DumpDir_in_place :
  spec (DumpDir w fsys dir)
    (fun evs err =>
       aborts_in_place dir (filter IsRegular (fst (fs_ReadDir fsys dir)))
         evs err).
Proof.
  set (all := filter IsRegular (fst (fs_ReadDir fsys dir))).
  unfold DumpDir. eapply spec_bind; [apply corpusFiles_spec|].
  intros [files err] evs0 [-> _].
  assert (Hdir : forall e, ~ failed_write (EvReadDir dir e)).
  { intros e. simpl. tauto. }
  destruct err as [x|].
  { apply spec_ret. apply in_place_no_failure. repeat constructor. apply Hdir. }
  eapply spec_bind; [apply firstValidFileLines_from_reads|].
  intros [[lines files'] err] evs1 Hreads.
  assert (Hhead : Forall (fun ev => ~ failed_write ev)
                    ([EvReadDir dir (snd (fs_ReadDir fsys dir))] ++ evs1)).
  { constructor; [apply Hdir | exact Hreads]. }
  destruct (Capture [] err) as [errs [e|]].
  { apply spec_ret. rewrite app_nil_r. apply in_place_no_failure, Hhead. }
  set (seps := if 1 <? List.length lines then multiArgSep else sigleArgSep).
  eapply spec_bind; [apply spec_Write|]. intros [x|] evs2 ->.
  { eapply spec_weaken; [apply spec_writeErr|].
    intros evs e (-> & p & ->). rewrite app_nil_r, app_assoc.
    apply in_place_last; [exact Hhead | constructor]. }
  eapply spec_bind; [apply (dumpLines_first_failure all)|].
  intros err2 evs3 [_ [[-> Hok3]|(pre & b & x & -> & Hok3 & Ha)]].
  2:{ destruct err2 as [e|]; [|inversion Ha].
      apply spec_ret. rewrite app_nil_r.
      replace ([EvReadDir dir (snd (fs_ReadDir fsys dir))] ++
               evs1 ++ [EvWrite (Pre seps +++ LF) None] ++
               pre ++ [EvWrite b (Some x)])
        with ((([EvReadDir dir (snd (fs_ReadDir fsys dir))] ++ evs1) ++
               EvWrite (Pre seps +++ LF) None :: pre) ++
              [EvWrite b (Some x)])
        by (rewrite <- !app_assoc; reflexivity).
      apply in_place_last; [|exact Ha].
      apply Forall_app. split; [exact Hhead|].
      constructor; [simpl; tauto | exact Hok3]. }
  assert (Hopen : Forall (fun ev => ~ failed_write ev)
                    (([EvReadDir dir (snd (fs_ReadDir fsys dir))] ++ evs1) ++
                     EvWrite (Pre seps +++ LF) None :: evs3)).
  { apply Forall_app. split; [exact Hhead|].
    constructor; [simpl; tauto | exact Hok3]. }
  eapply spec_bind; [apply dumpFiles_range_later|].
  intros err3 evs4 Hlater.
  destruct (Capture errs err3) as [errs' [e|]].
  { apply spec_ret.
    replace ([EvReadDir dir (snd (fs_ReadDir fsys dir))] ++
             evs1 ++ [EvWrite (Pre seps +++ LF) None] ++ evs3 ++ evs4 ++ [])
      with ((([EvReadDir dir (snd (fs_ReadDir fsys dir))] ++ evs1) ++
             EvWrite (Pre seps +++ LF) None :: evs3) ++ evs4 ++ [])
      by (rewrite <- !app_assoc; reflexivity).
    apply (in_place_later all
             ([EvReadDir dir (snd (fs_ReadDir fsys dir))] ++ evs1) evs3 evs4
             [] (Pre seps +++ LF) None); auto.
    apply in_place_no_failure. constructor. }
  eapply spec_bind; [apply spec_Write|]. intros err5 evs5 ->.
  assert (Hre : forall t,
             [EvReadDir dir (snd (fs_ReadDir fsys dir))] ++
             evs1 ++ [EvWrite (Pre seps +++ LF) None] ++ evs3 ++ evs4 ++
             [EvWrite (Post seps +++ LF) err5] ++ t =
             (([EvReadDir dir (snd (fs_ReadDir fsys dir))] ++ evs1) ++
              EvWrite (Pre seps +++ LF) None :: evs3) ++ evs4 ++
             [EvWrite (Post seps +++ LF) err5] ++ t).
  { intros t. rewrite <- !app_assoc. reflexivity. }
  destruct err5 as [x|].
  - eapply spec_weaken; [apply spec_writeErr|].
    intros evs e (-> & p & ->). rewrite Hre.
    apply (in_place_later all
             ([EvReadDir dir (snd (fs_ReadDir fsys dir))] ++ evs1) evs3 evs4
             [EvWrite (Post seps +++ LF) (Some x)] (Pre seps +++ LF) None);
      eauto.
    apply (in_place_last all []); constructor.
  - apply spec_ret. rewrite Hre.
    apply (in_place_later all
             ([EvReadDir dir (snd (fs_ReadDir fsys dir))] ++ evs1) evs3 evs4
             [EvWrite (Post seps +++ LF) None] (Pre seps +++ LF) None);
      eauto.
    apply in_place_no_failure. repeat constructor. simpl. tauto.
Qed.

End WritesOfTheScan.

(** Where a write failure aborts the scan, as [return writeErr(err)]
    intends: a write that fails on the opening delimiter, on a value line
    of the first entry or on the closing delimiter, or that fails anywhere
    with an error outside the four kinds of the package, is the last thing
    the scan does, and the scan returns just that failure under the
    "writing output: " tag: what had been captured until then is not in the
    result. *)
Theorem write_failure_aborts {lib : GoLib} (w : Writer) (fsys : FS)
    (dir : string) (st : State) (pre post : list Event) (b : string)
    (x : errval) :
  trace (snd (DumpDir w fsys dir st)) =
    trace st ++ pre ++ EvWrite b (Some x) :: post ->
  opaque x = true \/ closing b \/ first_entry_only pre ->
  post = [] /\
  exists p,
    fst (DumpDir w fsys dir st) =
    Some (Wrapf p ("writing output: " +++ fmt_w x) x).
Proof.
  intros Ht [Hx|Hplace].
  - destruct (DumpDir_discipline w fsys dir st) as (evs & E & H).
    rewrite E in Ht. apply app_inv_head in Ht.
    destruct (H pre _ post Ht Hx) as [-> Ha]. split; [reflexivity|].
    inversion Ha; subst. eauto.
  - destruct (DumpDir_in_place w fsys dir st) as (evs & E & H).
    rewrite E in Ht. apply app_inv_head in Ht.
    destruct (H pre b x post Ht Hplace) as [-> Ha]. split; [reflexivity|].
    inversion Ha; subst. eauto.
Qed.

Lemma write_failure_aborts_witness :
  exists p,
    fst (Fixture.scan (Fixture.failOnSeparator Fixture.errSnap)
           Fixture.fsys "badMulti") =
    Some (Wrapf p "writing output: snap" Fixture.errSnap).
Proof.
  refine (proj2 (write_failure_aborts
                   (Fixture.failOnSeparator Fixture.errSnap) Fixture.fsys
                   "badMulti" Fixture.start
                   (removelast
                      (trace (snd (Fixture.scan
                                     (Fixture.failOnSeparator Fixture.errSnap)
                                     Fixture.fsys "badMulti"))))
                   [] ("}, {" +++ LF) Fixture.errSnap _ _)).
  - vm_compute. reflexivity.
  - left. vm_compute. reflexivity.
Defined.

(** C8.  The code misses the claim where the write primitive fails, on the
    separator before a later entry, with an error of a validation kind.
    [dumpFiles] returns the failure under the "writing output: " tag, but
    [DumpDir] passes whatever [dumpFiles] returns through [Capture], which
    keeps an error of a validation kind as one more recoverable error.  On
    [badMulti], with a writer that fails on the separator with
    [ErrMalformedEntry], the scan goes on to write the closing delimiter,
    never reads the fourth file, and returns the aggregate, the error
    captured from the first file still in it, instead of the tagged
    failure.  The same failure on the opening delimiter, and a failure of
    another kind on the same separator, do abort the scan with the tagged
    failure alone. *)
Theorem write_failure_of_validation_kind_absorbed :
  Fixture.scan (Fixture.failOnSeparator ErrMalformedEntry)
    Fixture.fsys "badMulti" =
  (Some (Corpus
     [Some (Wrapf 100
              ("reading " +++ DQ +++ "1" +++ DQ +++
               ": must include version and at least one value")
              ErrMalformedEntry);
      Some (Wrapf 101
              "writing output: must include version and at least one value"
              ErrMalformedEntry)]),
   {| trace :=
        [EvReadDir "badMulti" None;
         EvReadFile "badMulti/1" None;
         EvReadFile "badMulti/2" None;
         EvWrite ("{{" +++ LF) None;
         EvWrite (TAB +++ "string(" +++ DQ +++ "foo" +++ DQ +++ ")," +++ LF)
           None;
         EvWrite (TAB +++ "uint(8)," +++ LF) None;
         EvReadFile "badMulti/3" None;
         EvWrite ("}, {" +++ LF) (Some ErrMalformedEntry);
         EvWrite ("}}" +++ LF) None];
      heap := 102 |}) /\
  (forall p msg,
      fst (Fixture.scan (Fixture.failOnSeparator ErrMalformedEntry)
             Fixture.fsys "badMulti") <>
      Some (Wrapf p msg ErrMalformedEntry)) /\
  Fixture.run (Fixture.PredicateErrWriter ErrMalformedEntry
                 (String.eqb ("{{" +++ LF)))
    Fixture.fsys "badMulti" =
  (Some (Wrapf 101
           "writing output: must include version and at least one value"
           ErrMalformedEntry), EmptyString) /\
  Fixture.run (Fixture.failOnSeparator Fixture.errSnap)
    Fixture.fsys "badMulti" =
  (Some (Wrapf 101 "writing output: snap" Fixture.errSnap),
   "{{" +++ LF +++
   TAB +++ "string(" +++ DQ +++ "foo" +++ DQ +++ ")," +++ LF +++
   TAB +++ "uint(8)," +++ LF).
Proof.
  split; [|split; [|split]].
  - vm_compute. reflexivity.
  - intros p msg. vm_compute. discriminate.
  - vm_compute. reflexivity.
  - vm_compute. reflexivity.
Qed.

(** C10.  A read that fails with an error outside the four kinds of the
    package, on whichever file and in whichever phase, is the last thing
    the scan does, and the scan returns just that failure under the
    "reading" tag with the name of the file: the validation errors captured
    from earlier files are not in the result. *)
Theorem read_failure_aborts {lib : GoLib} (w : Writer) (fsys : FS)
    (dir : string) (st : State) (pre post : list Event) (name : string)
    (x : errval) :
  trace (snd (DumpDir w fsys dir st)) =
    trace st ++ pre ++ EvReadFile name (Some x) :: post ->
  opaque x = true ->
  post = [] /\
  exists f p,
    In f (filter IsRegular (fst (fs_ReadDir fsys dir))) /\
    name = path_Join dir (Name f) /\
    fst (DumpDir w fsys dir st) =
    Some (Wrapf p ("reading " +++ strconv_Quote (Name f) +++ ": " +++
                   fmt_w x) x).
Proof.
  intros Ht Hx. destruct (DumpDir_discipline w fsys dir st) as (evs & E & H).
  rewrite E in Ht. apply app_inv_head in Ht.
  destruct (H pre _ post Ht Hx) as [-> Ha]. split; [reflexivity|].
  inversion Ha; subst. eauto.
Qed.

Lemma read_failure_aborts_witness :
  exists f p,
    In f (filter IsRegular (fst (fs_ReadDir Fixture.fsys_missing "badMulti")))
    /\ "badMulti/3"%string = @path_Join Fixture.ascii_lib "badMulti" (Name f)
    /\ fst (Fixture.scan Fixture.Builder Fixture.fsys_missing "badMulti") =
       Some (Wrapf p
               ("reading " +++ @strconv_Quote Fixture.ascii_lib (Name f) +++
                ": " +++
                @fmt_w Fixture.ascii_lib
                  (Fixture.PathError 14 "open" "badMulti/3"
                     Fixture.ErrNotExist))
               (Fixture.PathError 14 "open" "badMulti/3"
                  Fixture.ErrNotExist)).
Proof.
  refine (proj2 (@read_failure_aborts Fixture.ascii_lib
                   Fixture.Builder Fixture.fsys_missing
                   "badMulti" Fixture.start
                   (removelast
                      (trace (snd (Fixture.scan Fixture.Builder
                                     Fixture.fsys_missing "badMulti"))))
                   [] "badMulti/3"
                   (Fixture.PathError 14 "open" "badMulti/3"
                      Fixture.ErrNotExist) _ _)).
  - vm_compute. reflexivity.
  - vm_compute. reflexivity.
Defined.

(* ================================================================== *)
(** ** The entry reader *)

Lemma length_append (a b : string) :
  String.length (a +++ b) = String.length a + String.length b.
Proof. induction a as [|c a IH]; simpl; [reflexivity | now rewrite IH]. Qed.

Lemma append_nil_r (a : string) : a +++ EmptyString = a.
Proof. induction a as [|c a IH]; simpl; [reflexivity | now rewrite IH]. Qed.

Lemma append_assoc (a b c : string) : (a +++ b) +++ c = a +++ b +++ c.
Proof. induction a as [|x a IH]; simpl; [reflexivity | now rewrite IH]. Qed.

Lemma substring_all (s : string) : substring 0 (String.length s) s = s.
Proof. induction s as [|c s IH]; simpl; [reflexivity | now rewrite IH]. Qed.

Lemma substring_suffix (p q : string) :
  substring (String.length p) (String.length q) (p +++ q) = q.
Proof. induction p as [|c p IH]; simpl; [apply substring_all | exact IH]. Qed.

Lemma substring_split (n : nat) (s : string) :
  n <= String.length s ->
  substring 0 n s +++ substring n (String.length s - n) s = s.
Proof.
  revert n. induction s as [|c s IH]; intros [|n] H; simpl in *;
    try reflexivity; try lia.
  - now rewrite substring_all.
  - rewrite IH by lia. reflexivity.
Qed.

Lemma HasSuffix_append (p suffix : string) :
  strings_HasSuffix (p +++ suffix) suffix = true.
Proof.
  unfold strings_HasSuffix. rewrite length_append.
  replace (String.length p + String.length suffix - String.length suffix)
    with (String.length p) by lia.
  rewrite substring_suffix, String.eqb_refl, andb_true_r.
  apply Nat.leb_le. lia.
Qed.

Lemma HasSuffix_inv (s suffix : string) :
  strings_HasSuffix s suffix = true ->
  s = substring 0 (String.length s - String.length suffix) s +++ suffix.
Proof.
  unfold strings_HasSuffix. intros H. apply andb_true_iff in H.
  destruct H as [Hl He]. apply Nat.leb_le in Hl. apply String.eqb_eq in He.
  pose proof (substring_split (String.length s - String.length suffix) s
                ltac:(lia)) as Hs.
  replace (String.length s - (String.length s - String.length suffix))
    with (String.length suffix) in Hs by lia.
  rewrite He in Hs. symmetry. exact Hs.
Qed.

(** [strings.TrimSuffix] removes the suffix when it is there, and nothing
    otherwise. *)
Lemma TrimSuffix_cases (s suffix : string) :
  s = strings_TrimSuffix s suffix +++ suffix \/
  (s = strings_TrimSuffix s suffix /\ forall p, s <> p +++ suffix).
Proof.
  unfold strings_TrimSuffix.
  destruct (strings_HasSuffix s suffix) eqn:H.
  - left. apply HasSuffix_inv, H.
  - right. split; [reflexivity|]. intros p ->.
    rewrite HasSuffix_append in H. discriminate.
Qed.

Lemma bytes_Split_cons (b : string) (sep : ascii) :
  exists x s, bytes_Split b sep = x :: s.
Proof.
  induction b as [|c b (x & s & IH)]; simpl; [eauto|].
  destruct (Ascii.eqb c sep); [eauto|]. rewrite IH. eauto.
Qed.

Lemma strings_Join_cons (a x : string) (s : list string) (sep : string) :
  strings_Join (a :: x :: s) sep = a +++ sep +++ strings_Join (x :: s) sep.
Proof. reflexivity. Qed.

(** [bytes.Split] cuts at the separators and nowhere else. *)
Lemma bytes_Split_Join (b : string) (sep : ascii) :
  strings_Join (bytes_Split b sep) (String sep EmptyString) = b /\
  Forall (fun l => has_byte sep l = false) (bytes_Split b sep).
Proof.
  induction b as [|c b [IHj IHf]]; simpl.
  - split; [reflexivity | repeat constructor].
  - destruct (bytes_Split_cons b sep) as (x & s & E). rewrite E in *.
    pose proof (proj1 (Forall_cons_iff _ _ _) IHf) as [Hx Hs].
    destruct (Ascii.eqb c sep) eqn:Hc.
    + apply Ascii.eqb_eq in Hc. subst c. split.
      * rewrite strings_Join_cons, IHj. reflexivity.
      * constructor; [reflexivity | exact IHf].
    + split.
      * destruct s as [|y s]; [simpl in *; now rewrite IHj|].
        rewrite strings_Join_cons in *. rewrite <- IHj. reflexivity.
      * constructor; [simpl; now rewrite Hc, Hx | exact Hs].
Qed.

Section ReadLines.

Context {lib : GoLib}.

Lemma readLines_range_filter (s lines : list string) :
  readLines_range s lines =
  lines ++ filter (fun l => negb (String.length l =? 0))
             (map bytes_TrimSpace s).
Proof.
  revert lines. induction s as [|v s IH]; intros lines; simpl.
  - now rewrite app_nil_r.
  - destruct (String.length (bytes_TrimSpace v) =? 0); simpl; rewrite IH.
    + reflexivity.
    + now rewrite <- app_assoc.
Qed.

(** C6.  The bytes of an entry are split at line feeds; one carriage
    return at the end of line 1 is dropped before the comparison; less than
    two lines is [ErrMalformedEntry]; a first line other than the version
    marker is [ErrUnsupportedVersion] with the quoted line in the message;
    otherwise the other lines are trimmed, those left empty are dropped and
    the rest are the arguments, in order; none left is
    [ErrMalformedEntry]. *)
Theorem readLines_validates (fsys : FS) (name b : string) (st : State)
    (Hread : fs_ReadFile fsys name = (b, None)) :
  let s := bytes_Split b "010" in
  let line1 := hd EmptyString s in
  let v := strings_TrimSuffix line1 CR in
  let args := filter (fun l => negb (String.length l =? 0))
                (map bytes_TrimSpace (tl s)) in
  encVersion1 = "go test fuzz v1"%string /\
  strings_Join s LF = b /\
  Forall (fun l => has_byte "010" l = false) s /\
  (line1 = v +++ CR \/ (line1 = v /\ forall p, line1 <> p +++ CR)) /\
  fst (readLines fsys name st) =
    if List.length s <? 2 then ([], Some ErrMalformedEntry)
    else if negb (String.eqb v encVersion1) then
      ([], Some (Wrapf (heap st)
                   ("unsupported encoding version: " +++ strconv_Quote v)
                   ErrUnsupportedVersion))
    else
      match args with
      | [] => ([], Some ErrMalformedEntry)
      | _ :: _ => (args, None)
      end.
Proof.
  intros s line1 v args. split; [reflexivity|].
  destruct (bytes_Split_Join b "010") as [Hj Hf].
  split; [exact Hj|]. split; [exact Hf|].
  split; [apply TrimSuffix_cases|].
  unfold readLines, bind, ReadFile. rewrite Hread. cbn [snd fst].
  unfold parseLines. fold s. fold line1. fold v.
  destruct (List.length s <? 2); [reflexivity|].
  destruct (negb (String.eqb v encVersion1)); [reflexivity|].
  rewrite readLines_range_filter. cbn [app].
  replace (skipn 1 s) with (tl s) by (destruct s; reflexivity). fold args.
  destruct args; reflexivity.
Qed.

End ReadLines.

Lemma readLines_validates_witness :
  fst (@readLines Fixture.ascii_lib Fixture.fsys "single/1" Fixture.start) =
  (["uint(3)"%string], None).
Proof.
  destruct (@readLines_validates Fixture.ascii_lib Fixture.fsys "single/1"
              (Fixture.corpusFile Fixture.sigleData1) Fixture.start eq_refl)
    as (_ & _ & _ & _ & H).
  rewrite H. vm_compute. reflexivity.
Defined.

(* ================================================================== *)
(** ** Scans without I/O failures *)

Lemma written_app (t1 t2 : list Event) :
  written (t1 ++ t2) = written t1 +++ written t2.
Proof.
  induction t1 as [|ev t1 IH]; [reflexivity|].
  destruct ev as [d e|n e|b [x|]]; simpl; rewrite IH; try reflexivity.
  now rewrite append_assoc.
Qed.

Lemma Capture_range_app (e : CorpusErrors) (errs1 errs2 : list error) :
  Capture_range e (errs1 ++ errs2) =
  match Capture_range e errs1 with
  | (e', Some s) => (e', Some s)
  | (e', None) => Capture_range e' errs2
  end.
Proof.
  revert e. induction errs1 as [|x errs1 IH]; intros e; [reflexivity|].
  simpl. destruct (Capture e x) as [e' [s|]]; [reflexivity | apply IH].
Qed.

Lemma Capture_absorbed (e : CorpusErrors) (o : error) :
  absorbed o -> Capture e o = (e ++ [o], None).
Proof.
  intros (x & -> & Hp & Hv). rewrite Capture_plain by exact Hp.
  rewrite Hv. reflexivity.
Qed.

Lemma Capture_range_absorbed (e : CorpusErrors) (errs : list error) :
  Forall absorbed errs -> Capture_range e errs = (e ++ errs, None).
Proof.
  intros H. revert e. induction H as [|o errs Ho _ IH]; intros e; simpl.
  - now rewrite app_nil_r.
  - rewrite (Capture_absorbed e o Ho), IH, <- app_assoc. reflexivity.
Qed.

Lemma Capture_AsError_absorbed (e errs : CorpusErrors) :
  Forall absorbed errs -> Capture e (AsError errs) = (e ++ errs, None).
Proof.
  intros H. unfold AsError. destruct (empty errs) eqn:He.
  - apply empty_true_iff in He. subst. now rewrite app_nil_r.
  - rewrite Capture_Corpus. apply Capture_range_absorbed, H.
Qed.

Lemma absorbed_Wrapf (p : addr) (msg : string) (x : errval) :
  IsValidationError (Some x) = true -> absorbed (Some (Wrapf p msg x)).
Proof.
  intros H. exists (Wrapf p msg x). repeat split.
  now rewrite IsValidationError_Wrapf.
Qed.

Section Quiet.

Context {lib : GoLib}.
Variable w : Writer.
Variable fsys : FS.
Variable dir : string.
Hypothesis Hw : never_fails w.

Lemma spec_Write_ok (b : string) :
  spec (Write w b) (fun evs err => err = None /\ evs = [EvWrite b None]).
Proof.
  intros st. exists [EvWrite b None]. unfold Write. rewrite Hw. auto.
Qed.

Lemma dumpLines_ok (lines : list string) :
  spec (dumpLines w lines)
    (fun evs err => err = None /\ written evs = render_values lines).
Proof.
  induction lines as [|v lines IH]; cbn [dumpLines].
  - apply spec_ret. auto.
  - eapply spec_bind; [apply spec_Write_ok|]. intros err evs1 [-> ->].
    eapply spec_weaken; [apply IH|]. intros evs e [-> H].
    split; [reflexivity|]. simpl. rewrite H.
    now rewrite !append_assoc.
Qed.

Lemma readLines_ok (f : DirEntry) :
  can_read fsys dir f ->
  spec (readLines fsys (path_Join dir (Name f)))
    (fun evs r =>
       written evs = EmptyString /\
       match file_entry fsys dir f with
       | Some l => r = (l, None) /\ l <> []
       | None =>
           exists x,
             r = ([], Some x) /\ IsValidationError (Some x) = true /\
             exists st,
               fst (readLines fsys (path_Join dir (Name f)) st) = ([], Some x)
       end).
Proof.
  intros Hr st.
  destruct (readLines_spec fsys (path_Join dir (Name f)) st)
    as (evs & E & -> & H).
  exists [EvReadFile (path_Join dir (Name f))
            (snd (fs_ReadFile fsys (path_Join dir (Name f))))].
  split; [exact E|]. split; [reflexivity|].
  unfold file_entry. unfold can_read in Hr.
  destruct (fs_ReadFile fsys (path_Join dir (Name f))) as [b [x|]];
    [discriminate|].
  destruct (entry b) as [l|]; [exact H|].
  destruct H as (x & Hx & Hv). exists x. repeat split; eauto.
Qed.

Lemma recorded_absorbed (argCount : nat) (files : list DirEntry)
    (es : list error) :
  recorded fsys dir argCount files es -> Forall absorbed es.
Proof.
  induction 1; auto; constructor; auto; apply absorbed_Wrapf; auto.
Qed.

Lemma dumpFiles_range_ok (argCount : nat) (files : list DirEntry) :
  (forall f, In f files -> can_read fsys dir f) ->
  forall errs,
    spec (dumpFiles_range w fsys dir argCount errs files)
      (fun evs err =>
         exists es,
           recorded fsys dir argCount files es /\
           err = AsError (errs ++ es) /\
           written evs = render_more argCount (emitted fsys dir argCount files)).
Proof.
  induction files as [|f files IH]; intros Hr errs; cbn [dumpFiles_range].
  { apply spec_ret. exists []. rewrite app_nil_r.
    repeat split. constructor. }
  specialize (IH (fun g Hg => Hr g (or_intror Hg))).
  eapply spec_bind; [apply (readLines_ok f), Hr, in_eq|].
  intros [lines err] evs1 [Hw1 H]. unfold emitted. cbn [flat_map].
  fold (emitted fsys dir argCount files).
  destruct (file_entry fsys dir f) as [l|] eqn:Hf.
  - destruct H as [[= -> ->] Hl].
    destruct (List.length l =? argCount) eqn:Hlen; cbn [negb].
    + apply Nat.eqb_eq in Hlen.
      eapply spec_bind with
        (Q1 := fun evs err =>
                 err = None /\
                 written evs =
                 if 1 <? argCount then "}, {" +++ LF else EmptyString).
      { destruct (1 <? argCount).
        - eapply spec_weaken; [apply spec_Write_ok|].
          intros evs e [-> ->]. split; reflexivity.
        - apply spec_ret. auto. }
      intros e evs2 [-> Hw2].
      eapply spec_bind; [apply dumpLines_ok|]. intros e evs3 [-> Hw3].
      eapply spec_weaken; [apply IH|]. intros evs e (es & Hrec & -> & Hw4).
      exists es. split; [econstructor; eauto|]. split; [reflexivity|].
      rewrite !written_app, Hw1, Hw2, Hw3, Hw4. reflexivity.
    + apply Nat.eqb_neq in Hlen.
      eapply spec_bind; [apply spec_Errorf|]. intros e1 evs2 (-> & p1 & ->).
      eapply spec_bind; [apply spec_readErr|]. intros e2 evs3 (-> & p2 & ->).
      eapply spec_weaken; [apply IH|]. intros evs e (es & Hrec & -> & Hw4).
      eexists. split; [eapply (recorded_mismatch _ _ _ f l p2 p1); eauto|].
      split.
      * unfold append. rewrite <- app_assoc. reflexivity.
      * rewrite !written_app, Hw1, Hw4. reflexivity.
  - destruct H as (x & [= -> ->] & Hv & Hst).
    eapply spec_bind; [apply spec_readErr|]. intros e2 evs3 (-> & p2 & ->).
    rewrite Capture_absorbed by (apply absorbed_Wrapf, Hv).
    eapply spec_weaken; [apply IH|]. intros evs e (es & Hrec & -> & Hw4).
    eexists. split; [eapply (recorded_invalid _ _ _ f x p2); eauto|].
    split.
    + rewrite <- app_assoc. reflexivity.
    + rewrite !written_app, Hw1, Hw4. reflexivity.
Qed.

Lemma firstValid_found (argCount : nat) (bad rest : list DirEntry)
    (f0 : DirEntry) (lines0 : list string) :
  (forall f, In f bad -> can_read fsys dir f /\ file_entry fsys dir f = None) ->
  can_read fsys dir f0 -> file_entry fsys dir f0 = Some lines0 ->
  forall errs,
    spec (firstValidFileLines_from fsys dir errs (bad ++ f0 :: rest))
      (fun evs r =>
         exists es,
           recorded fsys dir argCount bad es /\
           r = (lines0, f0 :: rest, AsError (errs ++ es)) /\
           written evs = EmptyString).
Proof.
  intros Hbad Hr0 Hf0.
  induction bad as [|f bad IH]; intros errs;
    cbn [app firstValidFileLines_from].
  - eapply spec_bind; [apply (readLines_ok f0 Hr0)|].
    intros [lines err] evs1 [Hw1 H]. rewrite Hf0 in H.
    destruct H as [[= -> ->] _]. apply spec_ret. exists [].
    rewrite !app_nil_r. repeat split; [constructor | exact Hw1].
  - specialize (IH (fun g Hg => Hbad g (or_intror Hg))).
    destruct (Hbad f (in_eq _ _)) as [Hr Hf].
    eapply spec_bind; [apply (readLines_ok f Hr)|].
    intros [lines err] evs1 [Hw1 H]. rewrite Hf in H.
    destruct H as (x & [= -> ->] & Hv & Hst).
    eapply spec_bind; [apply spec_readErr|]. intros e2 evs3 (-> & p2 & ->).
    rewrite Capture_absorbed by (apply absorbed_Wrapf, Hv).
    eapply spec_weaken; [apply IH|]. intros evs e (es & Hrec & -> & Hw4).
    eexists. split; [eapply (recorded_invalid _ _ _ f x p2); eauto|].
    split.
    + rewrite <- app_assoc. reflexivity.
    + rewrite !written_app, Hw1, Hw4. reflexivity.
Qed.

Lemma firstValid_none (argCount : nat) (files : list DirEntry) :
  (forall f, In f files -> can_read fsys dir f /\ file_entry fsys dir f = None) ->
  forall errs,
    spec (firstValidFileLines_from fsys dir errs files)
      (fun evs r =>
         exists es,
           recorded fsys dir argCount files es /\
           r = ([], [], Some (Corpus (errs ++ es ++ [Some ErrEmptyCorpus]))) /\
           written evs = EmptyString).
Proof.
  intros Hbad.
  induction files as [|f files IH]; intros errs;
    cbn [firstValidFileLines_from].
  - rewrite Capture_ErrEmptyCorpus. apply spec_ret. exists [].
    repeat split. constructor.
  - specialize (IH (fun g Hg => Hbad g (or_intror Hg))).
    destruct (Hbad f (in_eq _ _)) as [Hr Hf].
    eapply spec_bind; [apply (readLines_ok f Hr)|].
    intros [lines err] evs1 [Hw1 H]. rewrite Hf in H.
    destruct H as (x & [= -> ->] & Hv & Hst).
    eapply spec_bind; [apply spec_readErr|]. intros e2 evs3 (-> & p2 & ->).
    rewrite Capture_absorbed by (apply absorbed_Wrapf, Hv).
    eapply spec_weaken; [apply IH|]. intros evs e (es & Hrec & -> & Hw4).
    eexists. split; [eapply (recorded_invalid _ _ _ f x p2); eauto|].
    split.
    + rewrite <- !app_assoc. reflexivity.
    + rewrite !written_app, Hw1, Hw4. reflexivity.
Qed.

Lemma corpusFiles_listed (s : list DirEntry) (f : DirEntry)
    (files : list DirEntry) :
  fs_ReadDir fsys dir = (s, None) -> filter IsRegular s = f :: files ->
  spec (corpusFiles fsys dir)
    (fun evs r => r = (f :: files, None) /\ written evs = EmptyString).
Proof.
  intros Hdir Hfiles. eapply spec_weaken; [apply corpusFiles_spec|].
  intros evs r [-> H]. rewrite Hdir in H. cbn [fst snd] in H.
  rewrite Hfiles in H. rewrite Hdir. auto.
Qed.

(** The scan of a directory with a valid file, when no read or write
    fails. *)
Lemma DumpDir_ok (s bad rest : list DirEntry) (f0 : DirEntry)
    (lines0 : list string) :
  fs_ReadDir fsys dir = (s, None) ->
  filter IsRegular s = bad ++ f0 :: rest ->
  (forall f, In f (bad ++ f0 :: rest) -> can_read fsys dir f) ->
  (forall f, In f bad -> file_entry fsys dir f = None) ->
  file_entry fsys dir f0 = Some lines0 ->
  spec (DumpDir w fsys dir)
    (fun evs err =>
       exists es_bad es_rest,
         recorded fsys dir (List.length lines0) bad es_bad /\
         recorded fsys dir (List.length lines0) rest es_rest /\
         err = AsError (es_bad ++ es_rest) /\
         written evs =
         render (List.length lines0) lines0
           (emitted fsys dir (List.length lines0) rest)).
Proof.
  intros Hdir Hfiles Hreads Hbad Hf0. unfold DumpDir.
  assert (Hne : exists f files, bad ++ f0 :: rest = f :: files).
  { destruct bad; simpl; eauto. }
  destruct Hne as (f & files & Hne). rewrite Hne in Hfiles.
  eapply spec_bind; [apply (corpusFiles_listed s f files Hdir Hfiles)|].
  intros [files' err] evs0 [[= -> ->] Hw0]. rewrite <- Hne.
  eapply spec_bind.
  { apply (firstValid_found (List.length lines0) bad rest f0 lines0).
    - intros g Hg. split; [apply Hreads, in_or_app; auto | apply Hbad, Hg].
    - apply Hreads, in_elt.
    - exact Hf0. }
  intros [[lines files'] err] evs1 (es_bad & Hrec1 & [= -> -> ->] & Hw1).
  cbn [app]. rewrite Capture_AsError_absorbed
    by (eapply recorded_absorbed; eauto). cbn [app].
  set (X := List.length lines0).
  eapply spec_bind; [apply spec_Write_ok|]. intros e evs2 [-> ->].
  eapply spec_bind; [apply dumpLines_ok|]. intros e evs3 [-> Hw3].
  eapply spec_bind.
  { apply (dumpFiles_range_ok X rest).
    intros g Hg. apply Hreads, in_or_app. right. right. exact Hg. }
  intros e evs4 (es_rest & Hrec2 & -> & Hw4). cbn [app skipn] in *.
  rewrite Capture_AsError_absorbed by (eapply recorded_absorbed; eauto).
  eapply spec_bind; [apply spec_Write_ok|]. intros e evs5 [-> ->].
  apply spec_ret. exists es_bad, es_rest. repeat split; auto.
  rewrite !written_app, Hw0, Hw1. cbn [written].
  rewrite !written_app, Hw3, Hw4. unfold render.
  destruct (1 <? X); simpl; rewrite ?append_assoc, ?append_nil_r;
    reflexivity.
Qed.

(** The scan of a directory none of whose files validates. *)
Lemma DumpDir_none (s files : list DirEntry) (f : DirEntry) :
  fs_ReadDir fsys dir = (s, None) ->
  filter IsRegular s = f :: files ->
  (forall g, In g (f :: files) -> can_read fsys dir g /\ file_entry fsys dir g = None) ->
  spec (DumpDir w fsys dir)
    (fun evs err =>
       exists es,
         recorded fsys dir 0 (f :: files) es /\
         err = Some (Corpus (es ++ [Some ErrEmptyCorpus])) /\
         written evs = EmptyString).
Proof.
  intros Hdir Hfiles Hbad. unfold DumpDir.
  eapply spec_bind; [apply (corpusFiles_listed s f files Hdir Hfiles)|].
  intros [files' err] evs0 [[= -> ->] Hw0].
  eapply spec_bind; [apply (firstValid_none 0 (f :: files) Hbad)|].
  intros [[lines files'] err] evs1 (es & Hrec & [= -> -> ->] & Hw1).
  cbn [app]. rewrite Capture_Corpus, Capture_range_app.
  rewrite Capture_range_absorbed by (eapply recorded_absorbed; eauto).
  cbn [app Capture_range]. rewrite Capture_ErrEmptyCorpus.
  apply spec_ret. exists es. repeat split; auto.
  rewrite !written_app, Hw0, Hw1. reflexivity.
Qed.

End Quiet.

(* ================================================================== *)
(** ** What the scan reports and renders *)

Section Results.

Context {lib : GoLib}.
Variable w : Writer.
Variable fsys : FS.
Variable dir : string.

Lemma fails_validation_inv (f : DirEntry) :
  fails_validation fsys dir f ->
  can_read fsys dir f /\ file_entry fsys dir f = None.
Proof.
  intros (b & Hb & He). unfold can_read, file_entry. rewrite Hb. auto.
Qed.

Lemma file_entry_can_read (f : DirEntry) (l : list string) :
  file_entry fsys dir f = Some l -> can_read fsys dir f.
Proof.
  unfold can_read, file_entry.
  destruct (fs_ReadFile fsys (path_Join dir (Name f))) as [b [x|]];
    [discriminate | reflexivity].
Qed.

Lemma recorded_invalid_In (argCount : nat) (files : list DirEntry)
    (es : list error) (g : DirEntry) :
  recorded fsys dir argCount files es ->
  In g files -> file_entry fsys dir g = None ->
  exists x p,
    In (Some (Wrapf p (reading g (fmt_w x)) x)) es /\
    IsValidationError (Some x) = true /\
    exists st, fst (readLines fsys (path_Join dir (Name g)) st) = ([], Some x).
Proof.
  induction 1 as [|f l files es Hf Hl Hrec IH|f l p p' files es Hf Hl Hrec IH
                  |f x p files es Hf Hv Hst Hrec IH];
    intros Hin Hg; [contradiction| | |].
  - destruct Hin as [->|Hin]; [congruence|]. auto.
  - destruct Hin as [->|Hin]; [congruence|].
    destruct (IH Hin Hg) as (y & q & H1 & H2). exists y, q.
    split; [right; exact H1 | exact H2].
  - destruct Hin as [->|Hin].
    + exists x, p. split; [left; reflexivity | auto].
    + destruct (IH Hin Hg) as (y & q & H1 & H2). exists y, q.
      split; [right; exact H1 | exact H2].
Qed.

Lemma recorded_mismatch_In (argCount : nat) (files : list DirEntry)
    (es : list error) (g : DirEntry) (l : list string) :
  recorded fsys dir argCount files es ->
  In g files -> file_entry fsys dir g = Some l ->
  List.length l <> argCount ->
  exists p p',
    In (Some (Wrapf p (reading g (inconsistent argCount (List.length l)))
                (Wrapf p' (inconsistent argCount (List.length l))
                   ErrInconsistentArgCount))) es.
Proof.
  induction 1 as [|f l0 files es Hf Hl Hrec IH
                  |f l0 p p' files es Hf Hl Hrec IH
                  |f x p files es Hf Hv Hst Hrec IH];
    intros Hin Hg Hlen; [contradiction| | |].
  - destruct Hin as [->|Hin]; [congruence|]. auto.
  - destruct Hin as [->|Hin].
    + rewrite Hf in Hg. injection Hg as ->. exists p, p'. left. reflexivity.
    + destruct (IH Hin Hg Hlen) as (q & q' & H1). exists q, q'. right. exact H1.
  - destruct Hin as [->|Hin]; [congruence|].
    destruct (IH Hin Hg Hlen) as (q & q' & H1). exists q, q'. right. exact H1.
Qed.

Lemma emitted_app (argCount : nat) (files1 files2 : list DirEntry) :
  emitted fsys dir argCount (files1 ++ files2) =
  emitted fsys dir argCount files1 ++ emitted fsys dir argCount files2.
Proof. apply flat_map_app. Qed.

Lemma errors_Is_ends_with_ErrEmptyCorpus (es : CorpusErrors) :
  errors_Is (Some (Corpus (es ++ [Some ErrEmptyCorpus])))
    (Some ErrEmptyCorpus) = true.
Proof.
  rewrite errors_Is_Corpus_plain by reflexivity.
  rewrite existsb_app. apply orb_true_iff. right. reflexivity.
Qed.

Lemma DumpDir_recorded (s bad rest : list DirEntry) (f0 : DirEntry)
    (lines0 : list string) (st : State) :
  never_fails w ->
  fs_ReadDir fsys dir = (s, None) ->
  filter IsRegular s = bad ++ f0 :: rest ->
  (forall f, In f bad -> fails_validation fsys dir f) ->
  file_entry fsys dir f0 = Some lines0 ->
  (forall f, In f rest -> can_read fsys dir f) ->
  exists es_bad es_rest,
    recorded fsys dir (List.length lines0) bad es_bad /\
    recorded fsys dir (List.length lines0) rest es_rest /\
    fst (DumpDir w fsys dir st) = AsError (es_bad ++ es_rest) /\
    written (trace (snd (DumpDir w fsys dir st))) =
    written (trace st) +++
    render (List.length lines0) lines0
      (emitted fsys dir (List.length lines0) rest).
Proof.
  intros Hw Hdir Hfiles Hbad Hf0 Hrest.
  assert (Hreads : forall f, In f (bad ++ f0 :: rest) -> can_read fsys dir f).
  { intros f Hf. apply in_app_or in Hf. destruct Hf as [Hf|[<-|Hf]].
    - apply fails_validation_inv, Hbad, Hf.
    - eapply file_entry_can_read, Hf0.
    - apply Hrest, Hf. }
  destruct (DumpDir_ok w fsys dir Hw s bad rest f0 lines0 Hdir Hfiles Hreads
              (fun f Hf => proj2 (fails_validation_inv f (Hbad f Hf))) Hf0 st)
    as (evs & Ht & es_bad & es_rest & Hrec1 & Hrec2 & He & Hout).
  exists es_bad, es_rest. repeat split; auto.
  rewrite Ht, written_app, Hout. reflexivity.
Qed.

Lemma DumpDir_output (s bad rest : list DirEntry) (f0 : DirEntry)
    (lines0 : list string) (st : State) :
  never_fails w ->
  fs_ReadDir fsys dir = (s, None) ->
  filter IsRegular s = bad ++ f0 :: rest ->
  (forall f, In f bad -> fails_validation fsys dir f) ->
  file_entry fsys dir f0 = Some lines0 ->
  (forall f, In f rest -> can_read fsys dir f) ->
  written (trace (snd (DumpDir w fsys dir st))) =
  written (trace st) +++
  render (List.length lines0) lines0
    (emitted fsys dir (List.length lines0) rest).
Proof.
  intros Hw Hdir Hfiles Hbad Hf0 Hrest.
  destruct (DumpDir_recorded s bad rest f0 lines0 st Hw Hdir Hfiles Hbad Hf0
              Hrest) as (es_bad & es_rest & _ & _ & _ & H).
  exact H.
Qed.

(** C4.  A directory without regular files: the scan returns
    [ErrEmptyCorpus] itself after the listing, having read and written
    nothing.  A directory with regular files that all fail validation: the
    scan writes nothing and returns a non-empty aggregate that matches
    [ErrEmptyCorpus] and holds, for every file, the validation error
    [readLines] returned for it, in the wrapper of [readErr]. *)
Theorem empty_corpus_reported (s : list DirEntry) (st : State)
    (Hdir : fs_ReadDir fsys dir = (s, None))
    (Hbad : forall f, In f (filter IsRegular s) -> fails_validation fsys dir f) :
  match filter IsRegular s with
  | [] =>
      DumpDir w fsys dir st =
      (Some ErrEmptyCorpus,
       {| trace := trace st ++ [EvReadDir dir None]; heap := heap st |})
  | files =>
      exists es,
        fst (DumpDir w fsys dir st) = Some (Corpus es) /\
        es <> [] /\
        errors_Is (Some (Corpus es)) (Some ErrEmptyCorpus) = true /\
        written (trace (snd (DumpDir w fsys dir st))) = written (trace st) /\
        forall f, In f files ->
          exists x p,
            In (Some (Wrapf p (reading f (fmt_w x)) x)) es /\
            IsValidationError (Some x) = true /\
            exists st',
              fst (readLines fsys (path_Join dir (Name f)) st') = ([], Some x)
  end.
Proof.
  destruct (filter IsRegular s) as [|f files] eqn:Hfiles.
  - unfold DumpDir, bind, corpusFiles, getFiles, bind, ReadDir.
    rewrite Hdir. cbn [snd fst]. rewrite Hfiles. reflexivity.
  - destruct (DumpDir_none w fsys dir s files f Hdir Hfiles
                (fun g Hg => fails_validation_inv g (Hbad g Hg)) st)
      as (evs & Ht & es & Hrec & He & Hw).
    exists (es ++ [Some ErrEmptyCorpus]). split; [exact He|].
    split; [destruct es; discriminate|].
    split; [apply errors_Is_ends_with_ErrEmptyCorpus|].
    split; [rewrite Ht, written_app, Hw; apply append_nil_r|].
    intros g Hg.
    destruct (recorded_invalid_In 0 (f :: files) es g Hrec Hg
                (proj2 (fails_validation_inv g (Hbad g Hg))))
      as (x & p & Hin & H).
    exists x, p. split; [apply in_or_app; left; exact Hin | exact H].
Qed.

(** C5.  With no read or write failing: the first file that validates
    fixes the arity; the output is the listing of its entry and of the
    later entries of that arity; a later entry of that arity is in the
    listing at its place; a later entry of another arity adds nothing to the
    listing and is recorded in the returned aggregate as a validation error
    of kind [ErrInconsistentArgCount] whose message ends in "want X, got Y"
    with [X] the arity and [Y] its own number of arguments. *)
Theorem arity_of_first_valid (s bad rest : list DirEntry) (f0 : DirEntry)
    (lines0 : list string) (st : State)
    (Hw : never_fails w)
    (Hdir : fs_ReadDir fsys dir = (s, None))
    (Hfiles : filter IsRegular s = bad ++ f0 :: rest)
    (Hbad : forall f, In f bad -> fails_validation fsys dir f)
    (Hf0 : file_entry fsys dir f0 = Some lines0)
    (Hrest : forall f, In f rest -> can_read fsys dir f) :
  let X := List.length lines0 in
  written (trace (snd (DumpDir w fsys dir st))) =
    written (trace st) +++ render X lines0 (emitted fsys dir X rest) /\
  forall pre g post l,
    rest = pre ++ g :: post -> file_entry fsys dir g = Some l ->
    (List.length l = X ->
     emitted fsys dir X rest =
     emitted fsys dir X pre ++ l :: emitted fsys dir X post) /\
    (List.length l <> X ->
     emitted fsys dir X rest =
     emitted fsys dir X pre ++ emitted fsys dir X post /\
     exists es p p' e,
       fst (DumpDir w fsys dir st) = Some (Corpus es) /\
       e = Wrapf p (reading g (inconsistent X (List.length l)))
             (Wrapf p' (inconsistent X (List.length l))
                ErrInconsistentArgCount) /\
       In (Some e) es /\
       errors_Is (Some e) (Some ErrInconsistentArgCount) = true /\
       IsValidationError (Some e) = true /\
       Error e = Some ("reading " +++ strconv_Quote (Name g) +++
                       ": inconsistent arg count in corpus entry: " +++
                       "want " +++ fmt_d X +++ ", got " +++
                       fmt_d (List.length l))).
Proof.
  intros X.
  destruct (DumpDir_recorded s bad rest f0 lines0 st Hw Hdir Hfiles Hbad Hf0
              Hrest) as (es_bad & es_rest & Hrec1 & Hrec2 & He & Hout).
  fold X in Hrec1, Hrec2, Hout.
  split; [exact Hout|].
  intros pre g post l -> Hg.
  assert (Hem : emitted fsys dir X (pre ++ g :: post) =
                emitted fsys dir X pre ++
                (if List.length l =? X then [l] else []) ++
                emitted fsys dir X post).
  { rewrite emitted_app. unfold emitted at 2. cbn [flat_map].
    rewrite Hg. reflexivity. }
  split; intros Hl.
  - rewrite Hem. apply Nat.eqb_eq in Hl. rewrite Hl. reflexivity.
  - split.
    { rewrite Hem. apply Nat.eqb_neq in Hl. rewrite Hl. reflexivity. }
    destruct (recorded_mismatch_In X _ es_rest g l Hrec2 (in_elt _ _ _) Hg Hl)
      as (p & p' & Hin).
    assert (Hne : empty (es_bad ++ es_rest) = false).
    { destruct es_bad; [destruct es_rest; [contradiction|]|]; reflexivity. }
    unfold AsError in He. rewrite Hne in He.
    eexists (es_bad ++ es_rest), p, p', _.
    split; [exact He|]. split; [reflexivity|].
    split; [apply in_or_app; right; exact Hin|].
    split; [|split].
    + unfold ErrInconsistentArgCount. rewrite !errors_Is_Wrapf_New.
      vm_compute. reflexivity.
    + rewrite !IsValidationError_Wrapf. vm_compute. reflexivity.
    + reflexivity.
Qed.

End Results.

Lemma render_more_Join (argCount : nat) (first : list string)
    (more : list (list string)) :
  render_values first +++ render_more argCount more =
  strings_Join (map render_values (first :: more))
    (if 1 <? argCount then "}, {" +++ LF else EmptyString).
Proof.
  revert first. induction more as [|l more IH]; intros first.
  - simpl. apply append_nil_r.
  - pose proof (IH l) as H. cbn [map] in *.
    rewrite strings_Join_cons, <- H. cbn [render_more].
    destruct (1 <? argCount); rewrite ?append_assoc; reflexivity.
Qed.

Section Rendering.

Context {lib : GoLib}.
Variable w : Writer.
Variable fsys : FS.
Variable dir : string.

(** C7.  With no read or write failing, a directory whose valid entries
    are [uint(3)] and [uint(5)] is rendered as the flat listing, and one
    whose valid entries are [(string("foo"), uint(8))] and
    [(string("bar"), uint(13))] as the grouped listing, byte for byte.  In
    general arity 1 is rendered between braces with the entries one after
    the other, a larger arity between double braces with the separator line
    between entries, and every value as a tab, the value, a comma and a
    line feed. *)
Theorem listing_format (s bad rest : list DirEntry) (f0 : DirEntry)
    (lines0 : list string) (st : State)
    (Hw : never_fails w)
    (Hdir : fs_ReadDir fsys dir = (s, None))
    (Hfiles : filter IsRegular s = bad ++ f0 :: rest)
    (Hbad : forall f, In f bad -> fails_validation fsys dir f)
    (Hf0 : file_entry fsys dir f0 = Some lines0)
    (Hrest : forall f, In f rest -> can_read fsys dir f) :
  let X := List.length lines0 in
  let more := emitted fsys dir X rest in
  let output := written (trace (snd (DumpDir w fsys dir st))) in
  (lines0 = ["uint(3)"%string] -> more = [["uint(5)"%string]] ->
   output = written (trace st) +++ single_listing) /\
  (lines0 = ["string(" +++ DQ +++ "foo" +++ DQ +++ ")"; "uint(8)"%string] ->
   more = [["string(" +++ DQ +++ "bar" +++ DQ +++ ")"; "uint(13)"%string]] ->
   output = written (trace st) +++ multi_listing) /\
  (X = 1 ->
   output = written (trace st) +++ "{" +++ LF +++
            strings_Join (map render_values (lines0 :: more)) EmptyString +++
            "}" +++ LF) /\
  (1 < X ->
   output = written (trace st) +++ "{{" +++ LF +++
            strings_Join (map render_values (lines0 :: more))
              ("}, {" +++ LF) +++
            "}}" +++ LF) /\
  (forall v vs,
      render_values (v :: vs) = TAB +++ v +++ "," +++ LF +++ render_values vs).
Proof.
  intros X more output.
  assert (Hout : output = written (trace st) +++ render X lines0 more).
  { apply (DumpDir_output w fsys dir s bad rest f0 lines0 st); auto. }
  split; [|split; [|split; [|split]]].
  - intros E1 E2. rewrite Hout, E2. unfold X. rewrite E1. reflexivity.
  - intros E1 E2. rewrite Hout, E2. unfold X. rewrite E1. reflexivity.
  - intros E. rewrite Hout. unfold render.
    pose proof (render_more_Join X lines0 more) as H. rewrite E in *.
    cbn [Nat.ltb Nat.leb] in *. rewrite <- H, !append_assoc. reflexivity.
  - intros E. rewrite Hout. unfold render.
    pose proof (render_more_Join X lines0 more) as H.
    rewrite (proj2 (Nat.ltb_lt 1 X) E) in *.
    rewrite <- H, !append_assoc. reflexivity.
  - reflexivity.
Qed.

End Rendering.

(* ================================================================== *)
(** ** The theorems on the fixtures of the tests *)

Lemma Builder_never_fails : never_fails Fixture.Builder.
Proof. intros t b. reflexivity. Qed.

Lemma empty_corpus_reported_witness :
  exists es,
    fst (Fixture.scan Fixture.Builder Fixture.fsys "bad") = Some (Corpus es) /\
    List.length es = 5 /\
    errors_Is (Some (Corpus es)) (Some ErrEmptyCorpus) = true.
Proof.
  assert (Hbad : forall f,
             In f (filter IsRegular (fst (fs_ReadDir Fixture.fsys "bad"))) ->
             @fails_validation Fixture.ascii_lib Fixture.fsys "bad" f).
  { intros f [<-|[<-|[<-|[<-|[]]]]]; eexists;
      (split; [reflexivity | vm_compute; reflexivity]). }
  pose proof (@empty_corpus_reported Fixture.ascii_lib Fixture.Builder
                Fixture.fsys "bad" (fst (fs_ReadDir Fixture.fsys "bad"))
                Fixture.start eq_refl Hbad) as H.
  remember (filter IsRegular (fst (fs_ReadDir Fixture.fsys "bad"))) as l
    eqn:El in H.
  vm_compute in El. subst l. cbv beta iota in H.
  destruct H as (es & He & _ & Hm & _). exists es.
  split; [exact He|]. split; [|exact Hm].
  vm_compute in He. injection He as <-. reflexivity.
Defined.

Lemma arity_of_first_valid_witness :
  written (trace (snd (Fixture.scan Fixture.Builder Fixture.fsys
                         "multi-in-single"))) = single_listing.
Proof.
  assert (Hrest : forall f,
             In f (Fixture.regular ["2"; "3"]%string) ->
             @can_read Fixture.ascii_lib Fixture.fsys "multi-in-single" f).
  { intros f [<-|[<-|[]]]; vm_compute; reflexivity. }
  assert (Hbad : forall f,
             In f [] ->
             @fails_validation Fixture.ascii_lib Fixture.fsys
               "multi-in-single" f).
  { intros f []. }
  destruct (@arity_of_first_valid Fixture.ascii_lib Fixture.Builder
              Fixture.fsys "multi-in-single"
              (fst (fs_ReadDir Fixture.fsys "multi-in-single")) []
              (Fixture.regular ["2"; "3"]%string)
              {| Name := "1"; IsRegular := true |} ["uint(3)"%string]
              Fixture.start Builder_never_fails eq_refl eq_refl Hbad
              eq_refl Hrest) as [H _].
  unfold Fixture.scan. rewrite H. vm_compute. reflexivity.
Defined.

Lemma listing_format_witness :
  written (trace (snd (Fixture.scan Fixture.Builder Fixture.fsys "multi"))) =
  multi_listing.
Proof.
  assert (Hrest : forall f,
             In f (Fixture.regular ["2"%string]) ->
             @can_read Fixture.ascii_lib Fixture.fsys "multi" f).
  { intros f [<-|[]]; vm_compute; reflexivity. }
  assert (Hbad : forall f,
             In f [] ->
             @fails_validation Fixture.ascii_lib Fixture.fsys "multi" f).
  { intros f []. }
  destruct (@listing_format Fixture.ascii_lib Fixture.Builder
              Fixture.fsys "multi"
              (fst (fs_ReadDir Fixture.fsys "multi")) []
              (Fixture.regular ["2"%string])
              {| Name := "1"; IsRegular := true |}
              ["string(" +++ DQ +++ "foo" +++ DQ +++ ")"; "uint(8)"%string]
              Fixture.start Builder_never_fails eq_refl eq_refl Hbad
              eq_refl Hrest) as (_ & H & _).
  apply H; vm_compute; reflexivity.
Defined.

(** The runs of the tests, evaluated. *)
Example run_single :
  Fixture.run Fixture.Builder Fixture.fsys "single" = (None, single_listing).
Proof. vm_compute. reflexivity. Qed.

Example run_multi :
  Fixture.run Fixture.Builder Fixture.fsys "multi" = (None, multi_listing).
Proof. vm_compute. reflexivity. Qed.

Example run_empty :
  Fixture.run Fixture.Builder Fixture.fsys "empty" =
  (Some ErrEmptyCorpus, EmptyString).
Proof. vm_compute. reflexivity. Qed.

Example run_not_a_corpus_dir :
  snd (Fixture.run Fixture.Builder Fixture.fsys ".") = EmptyString /\
  errors_Is (fst (Fixture.run Fixture.Builder Fixture.fsys "."))
    (Some ErrEmptyCorpus) = true.
Proof. split; vm_compute; reflexivity. Qed.

Example run_absent :
  errors_Is (fst (Fixture.run Fixture.Builder Fixture.fsys "foo"))
    (Some Fixture.ErrNotExist) = true.
Proof. vm_compute. reflexivity. Qed.

Example run_badMulti :
  snd (Fixture.run Fixture.Builder Fixture.fsys "badMulti") = multi_listing /\
  errors_Is (fst (Fixture.run Fixture.Builder Fixture.fsys "badMulti"))
    (Some ErrMalformedEntry) = true.
Proof. split; vm_compute; reflexivity. Qed.

Example run_multi_in_single :
  snd (Fixture.run Fixture.Builder Fixture.fsys "multi-in-single") =
    single_listing /\
  errors_Is (fst (Fixture.run Fixture.Builder Fixture.fsys "multi-in-single"))
    (Some ErrInconsistentArgCount) = true.
Proof. split; vm_compute; reflexivity. Qed.

Example run_opening_delimiter_fails :
  Fixture.run (Fixture.PredicateErrWriter ErrMalformedEntry
                 (String.eqb ("{{" +++ LF)))
    Fixture.fsys "badMulti" =
  (Some (Wrapf 101
           "writing output: must include version and at least one value"
           ErrMalformedEntry), EmptyString).
Proof. vm_compute. reflexivity. Qed.

Example run_failing_writer :
  forall failOn,
    In failOn ["{{"; "}, {"; "}}";
               TAB +++ "string(" +++ DQ +++ "foo" +++ DQ +++ "),";
               TAB +++ "string(" +++ DQ +++ "bar" +++ DQ +++ "),"]%string ->
    option_map Error
      (fst (Fixture.run
              (Fixture.PredicateErrWriter Fixture.errSnap
                 (String.eqb (failOn +++ LF)))
              Fixture.fsys "multi")) =
    Some (Some "writing output: snap"%string).
Proof.
  intros failOn [<-|[<-|[<-|[<-|[<-|[]]]]]]; vm_compute; reflexivity.
Qed.

Example run_vanished :
  Fixture.run Fixture.Builder Fixture.fsys_vanished "bad" =
  (Some (Wrapf 100
           ("reading " +++ DQ +++ "badVer" +++ DQ +++
            ": open bad/badVer: file does not exist")
           (Fixture.PathError 14 "open" "bad/badVer" Fixture.ErrNotExist)),
   EmptyString) /\
  errors_Is (fst (Fixture.run Fixture.Builder Fixture.fsys_vanished "bad"))
    (Some Fixture.ErrNotExist) = true.
Proof. split; vm_compute; reflexivity. Qed.

(** [TestCorpusErrors_Is]: rows are the errors, columns the targets
    nil, snap, whoops, {}, {snap}, {snap,whoops}, {whoops}, {wrap(snap)},
    wrap(snap), wrap({snap}), wrap({snap,whoops}), each [wrap] a fresh
    allocation. *)
Example errors_Is_table :
  let snap := Fixture.errSnap in
  let whoops := Fixture.errWhoops in
  let targets : list error :=
    [None; Some snap; Some whoops;
     Some (Corpus []); Some (Corpus [Some snap]);
     Some (Corpus [Some snap; Some whoops]); Some (Corpus [Some whoops]);
     Some (Corpus [Some (wrap 20 snap)]);
     Some (wrap 21 snap); Some (wrap 22 (Corpus [Some snap]));
     Some (wrap 23 (Corpus [Some snap; Some whoops]))] in
  map (fun err => map (errors_Is err) targets)
    [Some (Corpus []); Some (Corpus [Some snap]);
     Some (Corpus [Some (wrap 20 snap)]);
     Some (Corpus [Some snap; Some whoops]);
     Some (wrap 22 (Corpus [Some snap]));
     Some (wrap 23 (Corpus [Some snap; Some whoops]))] =
  [[false; false; false; true; false; false; false; false; false; false; false];
   [false; true; false; false; true; false; false; false; false; false; false];
   [false; true; false; false; true; false; false; true; false; false; false];
   [false; true; true; false; true; true; true; false; false; false; false];
   [false; true; false; false; true; false; false; false; false; true; false];
   [false; true; true; false; true; true; true; false; false; false; true]].
Proof. vm_compute. reflexivity. Qed.

(** [TestCorpusErrors_Capture] and [TestCorpusErrors_Unwrap]. *)
Example Capture_table :
  Capture [] None = ([], None) /\
  Capture [] (Some (Corpus [Some Fixture.errSnap])) =
    ([], Some Fixture.errSnap) /\
  Capture [] (Some (Corpus [Some ErrMalformedEntry])) =
    ([Some ErrMalformedEntry], None) /\
  Capture [] (Some (Corpus [Some ErrUnsupportedVersion; Some ErrEmptyCorpus])) =
    ([Some ErrUnsupportedVersion; Some ErrEmptyCorpus],
     Some (Corpus [Some ErrUnsupportedVersion; Some ErrEmptyCorpus])) /\
  Capture [] (Some ErrInconsistentArgCount) =
    ([Some ErrInconsistentArgCount], None) /\
  Capture [] (Some Fixture.errSnap) = ([], Some Fixture.errSnap) /\
  Unwrap [Some Fixture.errSnap] = None /\
  Unwrap [Some Fixture.errSnap; Some Fixture.errWhoops] =
    Some (Corpus [Some Fixture.errSnap]).
Proof. repeat split; vm_compute; reflexivity. Qed.

Example fmt_d_13 : fmt_d 13 = "13"%string /\ fmt_d 0 = "0"%string.
Proof. split; reflexivity. Qed.

(* ================================================================== *)
(** ** Matching against aggregates, through errors.Is *)

(** Induction on error values, through the elements of aggregates. *)
Lemma errval_nested_ind (P : errval -> Prop) :
  (forall p text, P (New p text)) ->
  (forall p msg x, P x -> P (Wrapf p msg x)) ->
  (forall e,
      Forall (fun o => match o with Some x => P x | None => True end) e ->
      P (Corpus e)) ->
  forall x, P x.
Proof.
  intros HN HW HC. fix IH 1. intros [p t|p m x|e].
  - apply HN.
  - apply HW, IH.
  - apply HC. induction e as [|[y|] e IHe]; constructor; auto.
Qed.

(** X1.  Through [errors.Is], an aggregate matches a target that is not
    itself an aggregate exactly when some element of the aggregate matches
    it, wherever in the aggregate that element is: [errors.Is] tries the
    last element, through the aggregate's [Is], and walks back through
    [Unwrap].  The [Is] method alone looks at the last element only. *)
Theorem errors_Is_any_element (e : CorpusErrors) (v : errval)
    (Hv : is_Corpus v = false) :
  (errors_Is (Some (Corpus e)) (Some v) = true <->
   exists u, In u e /\ errors_Is u (Some v) = true) /\
  CorpusErrors_Is e (Some v) = errors_Is (last e) (Some v).
Proof.
  split.
  - rewrite errors_Is_Corpus_plain by exact Hv. rewrite existsb_exists. reflexivity.
  - apply CorpusErrors_Is_plain, Hv.
Qed.

Lemma errors_Is_plain_refl (v : errval) :
  is_Corpus v = false -> errors_Is (Some v) (Some v) = true.
Proof.
  intros H. rewrite errors_Is_step.
  destruct v; simpl in *; try discriminate; rewrite Nat.eqb_refl; reflexivity.
Qed.

Lemma forallb_nonempty_false {A : Type} (t : list A) :
  t <> [] -> forallb (fun _ => false) t = false.
Proof. destruct t; [congruence | reflexivity]. Qed.

Lemma empty_false_iff (e : CorpusErrors) : empty e = false <-> e <> [].
Proof.
  rewrite <- empty_true_iff. destruct (empty e); split; congruence.
Qed.

Lemma forallb_ext_In {A : Type} (f g : A -> bool) (t : list A) :
  (forall x, In x t -> f x = g x) -> forallb f t = forallb g t.
Proof.
  induction t as [|a t IH]; intros H; [reflexivity|].
  simpl. rewrite (H a), IH; auto using in_eq, in_cons.
Qed.

(** Through [errors.Is], a non-empty target of plain errors is matched by
    the receivers that hold a match for each of its elements. *)
Lemma errors_Is_Corpus_flat (e t : CorpusErrors) :
  t <> [] -> forallb plain t = true ->
  errors_Is (Some (Corpus e)) (Some (Corpus t)) =
  forallb (fun z => existsb (fun u => errors_Is u z) e) t.
Proof.
  intros Ht Hflat. induction e as [|y e IH] using rev_ind.
  - rewrite errors_Is_Corpus, CorpusErrors_Is_aggregate.
    apply empty_false_iff in Ht. simpl. rewrite Ht. simpl.
    apply empty_false_iff in Ht. symmetry. now apply forallb_nonempty_false.
  - rewrite errors_Is_Corpus, CorpusErrors_Is_aggregate.
    rewrite empty_snoc. apply empty_false_iff in Ht. rewrite Ht. simpl orb at 1.
    cbv iota.
    assert (Hfst : forallb (fun err => errors_Is (Some (Corpus (e ++ [y]))) err) t =
                   forallb (fun z => existsb (fun u => errors_Is u z) (e ++ [y])) t).
    { apply forallb_ext_In. intros z Hz.
      rewrite forallb_forall in Hflat. specialize (Hflat z Hz).
      apply plain_inv in Hflat. destruct Hflat as (v & -> & Hv).
      now apply errors_Is_Corpus_plain. }
    rewrite Hfst, Unwrap_snoc.
    destruct (forallb (fun z => existsb (fun u => errors_Is u z) (e ++ [y])) t)
      eqn:Hall; [reflexivity|].
    simpl. unfold AsError. destruct (empty e) eqn:He; [reflexivity|].
    rewrite IH. apply not_true_is_false. intros Hcov.
    rewrite <- not_true_iff_false in Hall. apply Hall.
    rewrite forallb_forall in *. intros z Hz. specialize (Hcov z Hz).
    rewrite existsb_app, Hcov. reflexivity.
Qed.

(** X2.  Matching between aggregates is set-like on plain errors: if the
    receiver [e] matches a target [t] of plain errors, then so does every
    receiver that holds the elements of [e], against every non-empty
    target made of elements of [t]; order and repetition play no part. *)
Theorem errors_Is_set_like (e e' t t' : CorpusErrors)
    (Hflat : forallb plain t = true) (Ht' : t' <> [])
    (He : incl e e') (Ht : incl t' t) :
  errors_Is (Some (Corpus e)) (Some (Corpus t)) = true ->
  errors_Is (Some (Corpus e')) (Some (Corpus t')) = true.
Proof.
  assert (Hne : t <> []).
  { destruct t' as [|z t']; [congruence|]. intros ->. apply (Ht z), in_eq. }
  assert (Hflat' : forallb plain t' = true).
  { rewrite forallb_forall in *. auto. }
  rewrite !errors_Is_Corpus_flat by assumption.
  rewrite !forallb_forall. intros H z Hz.
  specialize (H z (Ht z Hz)). rewrite existsb_exists in *.
  destruct H as (u & Hu & Hm). exists u. auto.
Qed.

Lemma errors_Is_set_like_witness :
  errors_Is
    (Some (Corpus [Some ErrUnsupportedVersion; Some ErrEmptyCorpus;
                   Some ErrMalformedEntry]))
    (Some (Corpus [Some ErrMalformedEntry; Some ErrMalformedEntry])) = true.
Proof.
  apply (errors_Is_set_like
           [Some ErrMalformedEntry; Some ErrUnsupportedVersion]
           [Some ErrUnsupportedVersion; Some ErrEmptyCorpus;
            Some ErrMalformedEntry]
           [Some ErrUnsupportedVersion; Some ErrMalformedEntry]
           [Some ErrMalformedEntry; Some ErrMalformedEntry]).
  - reflexivity.
  - discriminate.
  - intros x [<-|[<-|[]]]; simpl; auto.
  - intros x [<-|[<-|[]]]; simpl; auto.
  - vm_compute. reflexivity.
Defined.

(** A target that holds a nil element is matched by no aggregate. *)
Lemma errors_Is_Corpus_nil_element (e t : CorpusErrors) :
  In None t -> errors_Is (Some (Corpus e)) (Some (Corpus t)) = false.
Proof.
  intros Hin.
  assert (Ht : empty t = false) by (destruct t; [destruct Hin | reflexivity]).
  induction e as [|y e IH] using rev_ind.
  - rewrite errors_Is_Corpus, CorpusErrors_Is_aggregate. simpl. rewrite Ht.
    reflexivity.
  - rewrite errors_Is_Corpus, CorpusErrors_Is_aggregate, empty_snoc, Ht.
    simpl orb at 1. cbv iota. rewrite Unwrap_snoc.
    replace (forallb _ t) with false.
    + simpl. unfold AsError. destruct (empty e); [reflexivity | exact IH].
    + symmetry. apply not_true_is_false. rewrite forallb_forall. intros H.
      specialize (H None Hin). rewrite errors_Is_nil_r in H. discriminate.
Qed.

(** X3.  An aggregate of plain errors matches itself; one that holds a nil
    element or an empty aggregate does not. *)
Theorem errors_Is_flat_refl (e : CorpusErrors) :
  (forallb plain e = true ->
   errors_Is (Some (Corpus e)) (Some (Corpus e)) = true) /\
  (In None e -> errors_Is (Some (Corpus e)) (Some (Corpus e)) = false) /\
  errors_Is (Some (Corpus [Some (Corpus [])]))
    (Some (Corpus [Some (Corpus [])])) = false.
Proof.
  split; [|split].
  - intros Hflat. destruct e as [|x e]; [vm_compute; reflexivity|].
    rewrite errors_Is_Corpus_flat by (auto; discriminate).
    rewrite forallb_forall. intros z Hz. rewrite existsb_exists. exists z.
    split; [exact Hz|]. rewrite forallb_forall in Hflat.
    destruct (plain_inv z (Hflat z Hz)) as (v & -> & Hv).
    now apply errors_Is_plain_refl.
  - apply errors_Is_Corpus_nil_element.
  - vm_compute. reflexivity.
Qed.

Lemma errors_Is_flat_refl_witness :
  errors_Is
    (Some (Corpus [Some ErrMalformedEntry;
                   Some (Wrapf 7 "reading: unsupported" ErrUnsupportedVersion)]))
    (Some (Corpus [Some ErrMalformedEntry;
                   Some (Wrapf 7 "reading: unsupported" ErrUnsupportedVersion)]))
  = true.
Proof.
  apply (proj1 (errors_Is_flat_refl
    [Some ErrMalformedEntry;
     Some (Wrapf 7 "reading: unsupported" ErrUnsupportedVersion)])).
  reflexivity.
Defined.

(* ================================================================== *)
(** ** Capture on any candidate, nested aggregates included *)

(** The loop over the elements of a candidate does what [captured_run]
    says, if the capture of each element does. *)
Lemma Capture_range_run (errs : list error) :
  Forall (fun o => match o with
                   | Some x => forall e, captured_run e (Capture e (Some x))
                   | None => True
                   end) errs ->
  forall e, captured_run e (Capture_range e errs).
Proof.
  induction 1 as [|o errs Ho _ IH]; intros e.
  - exists []. simpl. rewrite app_nil_r. split; [reflexivity | constructor].
  - cbn [Capture_range].
    assert (Hx : captured_run e (Capture e o)).
    { destruct o as [x|]; [apply Ho|].
      exists []. simpl. rewrite app_nil_r. split; [reflexivity | constructor]. }
    destruct (Capture e o) as [e1 [s|]] eqn:Hc; [exact Hx|].
    destruct Hx as (l1 & He1 & Hl1). simpl in He1, Hl1. subst e1.
    destruct (IH (e ++ l1)) as (l2 & He2 & Hl2).
    exists (l1 ++ l2). rewrite app_assoc. split; [exact He2|].
    destruct (snd (Capture_range (e ++ l1) errs)) as [s|].
    + destruct Hl2 as [(l0 & x & -> & Hl0 & Hx1 & Hx2 & Hx3 & ->)|(Hl2 & Hs)].
      * left. exists (l1 ++ l0), x. rewrite !app_assoc.
        repeat split; auto. apply Forall_app; auto.
      * right. split; [apply Forall_app; auto | exact Hs].
    + apply Forall_app; auto.
Qed.

Lemma Capture_run (e : CorpusErrors) (err : error) :
  captured_run e (Capture e err).
Proof.
  destruct err as [x|].
  2:{ exists []. simpl. rewrite app_nil_r. split; [reflexivity | constructor]. }
  revert e. induction x as [p text|p msg x _|errs IH] using errval_nested_ind;
    intros e.
  - rewrite Capture_plain by reflexivity.
    destruct (IsValidationError (Some (New p text))) eqn:Hv;
      [|destruct (errors_Is (Some (New p text)) (Some ErrEmptyCorpus)) eqn:Hk].
    + exists [Some (New p text)]. split; [reflexivity|].
      repeat constructor. now exists (New p text).
    + exists [Some (New p text)]. split; [reflexivity|].
      cbn [snd]. rewrite AsError_snoc. left.
      exists [], (New p text). repeat split; auto.
    + exists []. simpl. rewrite app_nil_r. split; [reflexivity|].
      right. repeat split; auto. unfold opaque. now rewrite Hv, Hk.
  - rewrite Capture_plain by reflexivity.
    destruct (IsValidationError (Some (Wrapf p msg x))) eqn:Hv;
      [|destruct (errors_Is (Some (Wrapf p msg x)) (Some ErrEmptyCorpus)) eqn:Hk].
    + exists [Some (Wrapf p msg x)]. split; [reflexivity|].
      repeat constructor. now exists (Wrapf p msg x).
    + exists [Some (Wrapf p msg x)]. split; [reflexivity|].
      cbn [snd]. rewrite AsError_snoc. left.
      exists [], (Wrapf p msg x). repeat split; auto.
    + exists []. simpl. rewrite app_nil_r. split; [reflexivity|].
      right. repeat split; auto. unfold opaque. now rewrite Hv, Hk.
  - rewrite Capture_Corpus. now apply Capture_range_run.
Qed.

(** X4.  Whatever the candidate, nested aggregates included, [Capture]
    only appends to the aggregate, and does one of three things: it appends
    a run of plain validation errors and returns nil; or it appends such a
    run and then one plain error of the EmptyCorpus kind, and returns the
    aggregate as it then is; or it appends such a run and returns an opaque
    error, which is not an aggregate and is not appended. *)
Theorem Capture_signal_cases (e : CorpusErrors) (err : error) :
  exists l : list error,
    fst (Capture e err) = e ++ l /\
    match snd (Capture e err) with
    | None => Forall absorbed l
    | Some s =>
        (exists l0 x,
            l = l0 ++ [Some x] /\ Forall absorbed l0 /\
            is_Corpus x = false /\ IsValidationError (Some x) = false /\
            errors_Is (Some x) (Some ErrEmptyCorpus) = true /\
            s = Corpus (e ++ l)) \/
        (Forall absorbed l /\ is_Corpus s = false /\ opaque s = true)
    end.
Proof. exact (Capture_run e err). Qed.

Lemma absorbed_plain (o : error) : absorbed o -> plain o = true.
Proof. intros (x & -> & Hx & _). simpl. now rewrite Hx. Qed.

Lemma Forall_absorbed_plain (l : list error) :
  Forall absorbed l -> forallb plain l = true.
Proof.
  intros H. apply forallb_forall. intros o Ho.
  rewrite Forall_forall in H. auto using absorbed_plain.
Qed.

Lemma Capture_flat (e : CorpusErrors) (err : error) :
  forallb plain (fst (Capture e err)) = forallb plain e.
Proof.
  destruct (Capture_run e err) as (l & -> & Hl).
  rewrite forallb_app. replace (forallb plain l) with true;
    [apply andb_true_r|].
  symmetry. destruct (snd (Capture e err)) as [s|].
  - destruct Hl as [(l0 & x & -> & Hl0 & Hx & _)|(Hl & _)].
    + rewrite forallb_app, Forall_absorbed_plain by exact Hl0.
      simpl. now rewrite Hx.
    + now apply Forall_absorbed_plain.
  - now apply Forall_absorbed_plain.
Qed.

(** X5.  [Capture] never stores a nil error or an aggregate: the aggregate
    holds only plain errors after a capture exactly if it did before,
    whatever the candidate was; and a capture never removes or reorders
    what the aggregate held. *)
Theorem Capture_keeps_flat (e : CorpusErrors) (err : error) :
  forallb plain (fst (Capture e err)) = forallb plain e /\
  firstn (List.length e) (fst (Capture e err)) = e.
Proof.
  split; [apply Capture_flat|].
  destruct (Capture_run e err) as (l & -> & _).
  rewrite firstn_app, Nat.sub_diag, firstn_all. simpl. apply app_nil_r.
Qed.

Lemma IsValidationError_Corpus (e : CorpusErrors) :
  IsValidationError (Some (Corpus e)) = existsb IsValidationError e.
Proof.
  unfold IsValidationError.
  rewrite !errors_Is_Corpus_plain by reflexivity.
  induction e as [|y e IH]; [reflexivity|].
  simpl. rewrite <- IH.
  destruct (errors_Is y (Some ErrMalformedEntry)),
           (errors_Is y (Some ErrUnsupportedVersion)),
           (errors_Is y (Some ErrInconsistentArgCount)),
           (existsb (fun y => errors_Is y (Some ErrMalformedEntry)) e),
           (existsb (fun y => errors_Is y (Some ErrUnsupportedVersion)) e),
           (existsb (fun y => errors_Is y (Some ErrInconsistentArgCount)) e);
    reflexivity.
Qed.

(** X6.  An aggregate is a validation error exactly when one of its
    elements is one, wherever in the aggregate it is; a [%w] wrapper is one
    exactly when the error it wraps is one; nil is none. *)
Theorem IsValidationError_aggregate (e : CorpusErrors) (p : addr)
    (msg : string) (x : errval) :
  IsValidationError (Some (Corpus e)) = existsb IsValidationError e /\
  IsValidationError (Some (Wrapf p msg x)) = IsValidationError (Some x) /\
  IsValidationError None = false.
Proof.
  split; [apply IsValidationError_Corpus|].
  split; [apply IsValidationError_Wrapf | reflexivity].
Qed.

(* ================================================================== *)
(** ** The message of an aggregate *)

Lemma Error_Corpus (e : CorpusErrors) :
  Error (Corpus e) =
  if empty e then Some "no fuzz corpus errors"%string
  else
    match Error_range e with
    | Some mss =>
        Some (strings_Join ("fuzz corpus has errors:"%string :: mss) (LF +++ TAB))
    | None => None
    end.
Proof.
  cbn [Error]. destruct (empty e); [reflexivity|].
  match goal with |- match ?a with _ => _ end = match ?b with _ => _ end =>
    replace a with b; [reflexivity|] end.
  induction e as [|[x|] e IH]; [reflexivity| |reflexivity].
  cbn [Error_range]. rewrite IH. reflexivity.
Qed.

Lemma Error_range_app (e1 e2 : list error) :
  Error_range (e1 ++ e2) =
  match Error_range e1, Error_range e2 with
  | Some m1, Some m2 => Some (m1 ++ m2)
  | _, _ => None
  end.
Proof.
  induction e1 as [|[x|] e1 IH]; simpl.
  - destruct (Error_range e2); reflexivity.
  - rewrite IH. destruct (Error x), (Error_range e1), (Error_range e2);
      reflexivity.
  - reflexivity.
Qed.

Lemma strings_Join_snoc (l : list string) (m sep : string) :
  l <> [] -> strings_Join (l ++ [m]) sep = strings_Join l sep +++ sep +++ m.
Proof.
  induction l as [|a l IH]; [congruence|]. intros _.
  destruct l as [|b l].
  - reflexivity.
  - change ((a :: b :: l) ++ [m]) with (a :: b :: (l ++ [m])).
    rewrite !strings_Join_cons.
    change (b :: l ++ [m]) with ((b :: l) ++ [m]).
    rewrite IH by discriminate. now rewrite !append_assoc.
Qed.

Lemma Error_range_None (e : list error) :
  Error_range e = None <->
  exists o, In o e /\ match o with Some x => Error x = None | None => True end.
Proof.
  induction e as [|[x|] e IH]; simpl.
  - split; [discriminate | intros (o & [] & _)].
  - destruct (Error x) as [m|] eqn:Hx.
    + destruct (Error_range e) as [mss|].
      * split; [discriminate|]. intros (o & [<-|Ho] & H).
        -- congruence.
        -- destruct IH as [_ IH]. discriminate IH. eauto.
      * split; [|reflexivity]. intros _.
        destruct IH as [IH _]. destruct (IH eq_refl) as (o & Ho & H). eauto.
    + split; [|reflexivity]. intros _. exists (Some x). auto.
  - split; [|reflexivity]. intros _. exists None. auto.
Qed.

Lemma Error_range_plain (e : list error) :
  forallb plain e = true -> Error_range e <> None.
Proof.
  intros Hflat Hr. apply Error_range_None in Hr. destruct Hr as (o & Ho & H).
  rewrite forallb_forall in Hflat.
  destruct (plain_inv o (Hflat o Ho)) as (v & -> & Hv).
  destruct v; simpl in *; discriminate.
Qed.

(** X7.  The message of an aggregate: a fixed sentence for the empty one;
    for one error, the header line followed by the error's message on a
    line of its own, indented by a tab; and appending an error to a
    non-empty aggregate appends such a line to its message. *)
Theorem Error_lines (e : CorpusErrors) (x : errval) (s m : string) :
  Error (Corpus []) = Some "no fuzz corpus errors"%string /\
  (Error x = Some m ->
   Error (Corpus [Some x]) =
   Some ("fuzz corpus has errors:" +++ LF +++ TAB +++ m)) /\
  (e <> [] -> Error (Corpus e) = Some s -> Error x = Some m ->
   Error (Corpus (e ++ [Some x])) = Some (s +++ LF +++ TAB +++ m)).
Proof.
  split; [reflexivity|]. split.
  - intros Hx. rewrite Error_Corpus. simpl. rewrite Hx. reflexivity.
  - intros He Hs Hx. rewrite Error_Corpus in Hs. rewrite Error_Corpus, empty_snoc.
    apply empty_false_iff in He. rewrite He in Hs.
    rewrite Error_range_app. cbn [Error_range]. rewrite Hx.
    destruct (Error_range e) as [mss|]; [|discriminate].
    injection Hs as Hs. subst s.
    change ("fuzz corpus has errors:"%string :: mss ++ [m])
      with (("fuzz corpus has errors:"%string :: mss) ++ [m]).
    rewrite strings_Join_snoc by discriminate.
    now rewrite ?append_assoc.
Qed.

Lemma Error_lines_witness :
  Error (Corpus [Some ErrMalformedEntry; Some ErrUnsupportedVersion]) =
  Some ("fuzz corpus has errors:" +++ LF +++ TAB +++
        "must include version and at least one value" +++ LF +++ TAB +++
        "unsupported encoding version").
Proof.
  refine (proj2 (proj2 (Error_lines [Some ErrMalformedEntry]
            ErrUnsupportedVersion
            ("fuzz corpus has errors:" +++ LF +++ TAB +++
             "must include version and at least one value")
            "unsupported encoding version")) _ _ _).
  - discriminate.
  - reflexivity.
  - reflexivity.
Defined.

(** X8.  [Error] on an aggregate panics exactly when the aggregate holds a
    nil error or an error whose own [Error] panics; it returns on every
    aggregate of plain errors, hence on every aggregate [Capture] built. *)
Theorem Error_panics (e : CorpusErrors) (err : error) :
  (Error (Corpus e) = None <->
   exists o, In o e /\
             match o with Some x => Error x = None | None => True end) /\
  (forallb plain e = true -> Error (Corpus e) <> None) /\
  Error (Corpus (fst (Capture [] err))) <> None.
Proof.
  assert (H1 : Error (Corpus e) = None <->
               exists o, In o e /\
                 match o with Some x => Error x = None | None => True end).
  { rewrite Error_Corpus. destruct (empty e) eqn:He.
    - apply empty_true_iff in He. subst e.
      split; [discriminate | intros (o & [] & _)].
    - rewrite <- Error_range_None.
      destruct (Error_range e); split; congruence. }
  assert (H2 : forall e0, forallb plain e0 = true -> Error (Corpus e0) <> None).
  { intros e0 Hflat Hn. rewrite Error_Corpus in Hn.
    destruct (empty e0); [discriminate|].
    destruct (Error_range e0) eqn:Hr; [discriminate|].
    now apply Error_range_plain in Hr. }
  split; [exact H1|]. split; [apply H2|].
  apply H2. rewrite Capture_flat. reflexivity.
Qed.

(* ================================================================== *)
(** ** Every run of a scan: what it reads, and what a nil result means *)

Lemma Capture_plain_appended (c : errval) (e e' : CorpusErrors) :
  is_Corpus c = false -> Capture e (Some c) = (e', None) ->
  e' = e ++ [Some c].
Proof.
  intros Hc H. rewrite Capture_plain in H by exact Hc.
  destruct (IsValidationError (Some c)).
  - now injection H as <-.
  - destruct (errors_Is (Some c) (Some ErrEmptyCorpus)).
    + rewrite AsError_snoc in H. discriminate.
    + discriminate.
Qed.

Lemma Capture_range_plain (l : list error) :
  forallb plain l = true ->
  forall e e', Capture_range e l = (e', None) -> e' = e ++ l.
Proof.
  induction l as [|o l IH]; intros Hl e e' H;
    cbn [Capture_range forallb] in *.
  - injection H as <-. now rewrite app_nil_r.
  - apply andb_true_iff in Hl. destruct Hl as [Ho Hl].
    destruct (plain_inv o Ho) as (c & -> & Hc).
    destruct (Capture e (Some c)) as [e1 [s|]] eqn:H1; [discriminate|].
    apply (Capture_plain_appended c e e1 Hc) in H1. subst e1.
    rewrite (IH Hl _ _ H), <- app_assoc. reflexivity.
Qed.

Lemma Capture_AsError_plain (l e e' : CorpusErrors) :
  forallb plain l = true -> Capture e (AsError l) = (e', None) ->
  e' = e ++ l.
Proof.
  intros Hl H. unfold AsError in H. destruct (empty l) eqn:He.
  - apply empty_true_iff in He. subst l. simpl in H. injection H as <-.
    now rewrite app_nil_r.
  - rewrite Capture_Corpus in H. now apply Capture_range_plain.
Qed.

Lemma Capture_plain_not_quiet (c : errval) (e0 : CorpusErrors) :
  is_Corpus c = false -> Capture e0 (Some c) <> ([], None).
Proof.
  intros Hc H. apply Capture_plain_appended in H; [|exact Hc].
  destruct e0; discriminate.
Qed.

Lemma Capture_signal_not_quiet (c s : errval) (e e' e0 e1 : CorpusErrors) :
  is_Corpus c = false -> Capture e (Some c) = (e', Some s) ->
  Capture e0 (Some s) <> (e1, None).
Proof.
  intros Hc H H0.
  destruct (Capture_signal_again c s e e' Hc H e0) as (e2 & s2 & H2).
  congruence.
Qed.

Lemma inputs_app (t1 t2 : list Event) : inputs (t1 ++ t2) = inputs t1 ++ inputs t2.
Proof. apply filter_app. Qed.

Section Runs.

Context {lib : GoLib}.
Variable w : Writer.
Variable fsys : FS.
Variable dir : string.

Lemma dumpLines_run (lines : list string) :
  spec (dumpLines w lines)
    (fun evs err =>
       inputs evs = [] /\
       match err with
       | None => Forall succeeded evs /\ written evs = render_values lines
       | Some y => is_Corpus y = false
       end).
Proof.
  induction lines as [|v lines IH]; cbn [dumpLines].
  - apply spec_ret. repeat split. constructor.
  - eapply spec_bind; [apply spec_Write|]. intros err evs1 ->.
    destruct err as [x|].
    + eapply spec_weaken; [apply spec_writeErr|].
      intros evs e (-> & p & ->). split; reflexivity.
    + eapply spec_weaken; [apply IH|]. intros evs [y|] [Hi H].
      * split; [|exact H]. rewrite inputs_app, Hi. reflexivity.
      * destruct H as [Hs Hw]. split; [rewrite inputs_app, Hi; reflexivity|].
        split; [constructor; [exact I | exact Hs]|].
        rewrite written_app. cbn [written render_values]. rewrite Hw.
        now rewrite append_nil_r, !append_assoc.
Qed.

Lemma dumpFiles_range_run (argCount : nat) (files : list DirEntry) :
  forall errs,
    forallb plain errs = true ->
    spec (dumpFiles_range w fsys dir argCount errs files)
      (fun evs err =>
         exists k,
           inputs evs = map (read_of fsys dir) (firstn k files) /\
           forall e0,
             Capture e0 err = ([], None) ->
             errs = [] /\ firstn k files = files /\ Forall succeeded evs /\
             exists entries,
               entries_of fsys dir argCount files entries /\
               written evs = render_more argCount entries).
Proof.
  induction files as [|f files IH]; intros errs Hplain;
    cbn [dumpFiles_range].
  { apply spec_ret. exists 0. split; [reflexivity|]. intros e0 H.
    apply Capture_AsError_plain in H; [|exact Hplain].
    destruct e0; [|discriminate]. simpl in H. subst errs.
    repeat split; [constructor|]. exists []. split; [constructor | reflexivity]. }
  assert (Hgrown : forall c,
             is_Corpus c = false ->
             spec (dumpFiles_range w fsys dir argCount (append errs [Some c]) files)
               (fun evs err =>
                  exists k,
                    inputs ([read_of fsys dir f] ++ evs) =
                    map (read_of fsys dir) (firstn k (f :: files)) /\
                    forall e0,
                      Capture e0 err = ([], None) ->
                      errs = [] /\ firstn k (f :: files) = f :: files /\
                      Forall succeeded ([read_of fsys dir f] ++ evs) /\
                      exists entries,
                        entries_of fsys dir argCount (f :: files) entries /\
                        written ([read_of fsys dir f] ++ evs) =
                        render_more argCount entries)).
  { intros c Hc. eapply spec_weaken; [apply IH|].
    - unfold append. rewrite forallb_app, Hplain. simpl. now rewrite Hc.
    - intros evs err (k & Hi & H). exists (S k).
      split; [rewrite inputs_app, Hi; reflexivity|].
      intros e0 H0. destruct (H e0 H0) as [Habs _].
      unfold append in Habs. destruct errs; discriminate. }
  assert (Hfailed : forall x,
             spec (err <- readErr (Some x) (Name f) ;;
                   let (errs', e) := Capture errs err in
                   match e with
                   | Some _ => ret e
                   | None => dumpFiles_range w fsys dir argCount errs' files
                   end)
               (fun evs err =>
                  exists k,
                    inputs ([read_of fsys dir f] ++ evs) =
                    map (read_of fsys dir) (firstn k (f :: files)) /\
                    forall e0,
                      Capture e0 err = ([], None) ->
                      errs = [] /\ firstn k (f :: files) = f :: files /\
                      Forall succeeded ([read_of fsys dir f] ++ evs) /\
                      exists entries,
                        entries_of fsys dir argCount (f :: files) entries /\
                        written ([read_of fsys dir f] ++ evs) =
                        render_more argCount entries)).
  { intros x. eapply spec_bind; [apply spec_readErr|].
    intros e evs1 (-> & p & ->).
    destruct (Capture errs _) as [errs' [s|]] eqn:Hcap.
    - apply spec_ret. exists 1. split; [reflexivity|]. intros e0 H0.
      exfalso. revert H0. eapply Capture_signal_not_quiet; [|exact Hcap].
      reflexivity.
    - apply Capture_plain_appended in Hcap; [|reflexivity]. subst errs'.
      cbn [app]. apply Hgrown. reflexivity. }
  eapply spec_bind; [apply readLines_spec|].
  intros [lines err] evs1 [Hev H].
  change (evs1 = [read_of fsys dir f]) in Hev. subst evs1.
  destruct (fs_ReadFile fsys (path_Join dir (Name f))) as [b [x|]] eqn:Hrf.
  { injection H as -> ->. apply Hfailed. }
  destruct (entry b) as [l|] eqn:Hentry.
  2:{ destruct H as (x & [= -> ->] & Hv). apply Hfailed. }
  destruct H as [[= -> ->] _].
  assert (Hfe : file_entry fsys dir f = Some l).
  { unfold file_entry. rewrite Hrf. exact Hentry. }
  destruct (List.length l =? argCount) eqn:Hlen; cbn [negb].
  2:{ eapply spec_bind; [apply spec_Errorf|]. intros e1 evs2 (-> & p1 & ->).
      eapply spec_bind; [apply spec_readErr|]. intros e2 evs3 (-> & p2 & ->).
      cbn [app]. apply Hgrown. reflexivity. }
  apply Nat.eqb_eq in Hlen.
  eapply spec_bind with
    (Q1 := fun evs err =>
             inputs evs = [] /\
             match err with
             | None =>
                 Forall succeeded evs /\
                 written evs =
                 (if 1 <? argCount then "}, {" +++ LF else EmptyString)
             | Some _ => True
             end).
  { destruct (1 <? argCount).
    - eapply spec_weaken; [apply spec_Write|]. intros evs [x|] ->.
      + split; [reflexivity | exact I].
      + split; [reflexivity|]. split; [repeat constructor|].
        cbn [written]. now rewrite append_nil_r.
    - apply spec_ret. repeat split. constructor. }
  intros [x|] evs2 [Hi2 H2].
  { eapply spec_weaken; [apply spec_writeErr|].
    intros evs e (-> & p & ->). exists 1.
    split; [rewrite app_nil_r, inputs_app, Hi2; reflexivity|].
    intros e0 H0. exfalso. revert H0. now apply Capture_plain_not_quiet. }
  destruct H2 as [Hs2 Hw2].
  eapply spec_bind; [apply dumpLines_run|].
  intros [y|] evs3 [Hi3 H3].
  { apply spec_ret. exists 1.
    split; [rewrite app_nil_r, !inputs_app, Hi2, Hi3; reflexivity|].
    intros e0 H0. exfalso. revert H0. now apply Capture_plain_not_quiet. }
  destruct H3 as [Hs3 Hw3].
  eapply spec_weaken; [apply (IH errs Hplain)|].
  intros evs err (k & Hi & H). exists (S k).
  split; [rewrite !inputs_app, Hi2, Hi3, Hi; reflexivity|].
  intros e0 H0. destruct (H e0 H0) as (He & Hk & Hs & entries & Hent & Hw).
  split; [exact He|]. split; [cbn [firstn]; now rewrite Hk|].
  split.
  { constructor; [unfold read_of; rewrite Hrf; exact I|].
    apply Forall_app. split; [exact Hs2|].
    apply Forall_app. split; [exact Hs3 | exact Hs]. }
  exists (l :: entries). split; [constructor; auto|].
  rewrite !written_app, Hw2, Hw3, Hw. cbn [written render_more app].
  unfold read_of. cbn [written]. reflexivity.
Qed.

Lemma inputs_reads (l : list DirEntry) :
  inputs (map (read_of fsys dir) l) = map (read_of fsys dir) l.
Proof. induction l as [|f l IH]; [reflexivity|]. simpl. now rewrite IH. Qed.

Lemma reads_no_write (l : list DirEntry) :
  Forall (fun ev => is_input ev = true) (map (read_of fsys dir) l).
Proof. induction l; constructor; auto. Qed.

Lemma firstn_past (bad rest : list DirEntry) (f0 : DirEntry) (k : nat) :
  firstn (S (List.length bad) + k) (bad ++ f0 :: rest) =
  bad ++ f0 :: firstn k rest.
Proof. induction bad as [|f bad IH]; [reflexivity|]. simpl in *. now rewrite IH. Qed.

Lemma firstValidFileLines_from_run (files : list DirEntry) :
  forall errs,
    forallb plain errs = true ->
    spec (firstValidFileLines_from fsys dir errs files)
      (fun evs r =>
         exists k,
           evs = map (read_of fsys dir) (firstn k files) /\
           ((snd (fst r) = [] /\
             forall e0, exists e1 s, Capture e0 (snd r) = (e1, Some s)) \/
            (exists bad f0 rest lines es,
                files = bad ++ f0 :: rest /\ k = S (List.length bad) /\
                r = (lines, f0 :: rest, AsError (errs ++ es)) /\
                file_entry fsys dir f0 = Some lines /\
                Forall (fun f => file_entry fsys dir f = None) bad /\
                forallb plain es = true /\
                List.length es = List.length bad))).
Proof.
  induction files as [|f files IH]; intros errs Hplain;
    cbn [firstValidFileLines_from].
  { rewrite Capture_ErrEmptyCorpus. apply spec_ret. exists 0.
    split; [reflexivity|]. left. split; [reflexivity|]. intros e0.
    cbn [snd]. rewrite Capture_Corpus. apply Capture_range_signal_end.
    intros e. rewrite Capture_ErrEmptyCorpus. eauto. }
  assert (Hfailed : forall x,
             file_entry fsys dir f = None ->
             spec (err <- readErr (Some x) (Name f) ;;
                   let (errs', err) := Capture errs err in
                   match err with
                   | Some _ => ret ([], [], err)
                   | None => firstValidFileLines_from fsys dir errs' files
                   end)
               (fun evs r =>
                  exists k,
                    [read_of fsys dir f] ++ evs =
                    map (read_of fsys dir) (firstn k (f :: files)) /\
                    ((snd (fst r) = [] /\
                      forall e0, exists e1 s,
                          Capture e0 (snd r) = (e1, Some s)) \/
                     (exists bad f0 rest lines es,
                         f :: files = bad ++ f0 :: rest /\
                         k = S (List.length bad) /\
                         r = (lines, f0 :: rest, AsError (errs ++ es)) /\
                         file_entry fsys dir f0 = Some lines /\
                         Forall (fun f => file_entry fsys dir f = None) bad /\
                         forallb plain es = true /\
                         List.length es = List.length bad)))).
  { intros x Hnone. eapply spec_bind; [apply spec_readErr|].
    intros e evs1 (-> & p & ->).
    destruct (Capture errs _) as [errs' [s|]] eqn:Hcap.
    - apply spec_ret. exists 1. split; [reflexivity|]. left.
      split; [reflexivity|]. cbn [snd].
      eapply Capture_signal_again; [|exact Hcap]. reflexivity.
    - apply Capture_plain_appended in Hcap; [|reflexivity]. subst errs'.
      cbn [app]. eapply spec_weaken; [apply IH|].
      + rewrite forallb_app, Hplain. reflexivity.
      + intros evs r (k & -> & H). exists (S k). split; [reflexivity|].
        destruct H as [H|(bad & f0 & rest & lines & es & -> & -> & -> & Hf0 & Hb & Hes & Hlen)];
          [left; exact H|].
        right. eexists (f :: bad), f0, rest, lines, (_ :: es).
        repeat split; auto.
        * rewrite <- app_assoc. reflexivity.
        * cbn [forallb]. rewrite Hes. reflexivity.
        * simpl. now rewrite Hlen. }
  eapply spec_bind; [apply readLines_spec|].
  intros [lines err] evs1 [Hev H].
  change (evs1 = [read_of fsys dir f]) in Hev. subst evs1.
  destruct (fs_ReadFile fsys (path_Join dir (Name f))) as [b [x|]] eqn:Hrf.
  { injection H as -> ->. apply Hfailed.
    unfold file_entry. now rewrite Hrf. }
  destruct (entry b) as [l|] eqn:Hentry.
  2:{ destruct H as (x & [= -> ->] & Hv). apply Hfailed.
      unfold file_entry. now rewrite Hrf. }
  destruct H as [[= -> ->] _].
  apply spec_ret. exists 1. split; [reflexivity|]. right.
  exists [], f, files, l, []. rewrite app_nil_r. repeat split; auto.
  unfold file_entry. rewrite Hrf. exact Hentry.
Qed.

(** Every run of [DumpDir]: it lists the directory once, then reads
    regular files of the listing in order, each once; without a valid
    file it writes nothing and returns an error; and when it returns nil,
    every file was read and valid, every call succeeded, and the output
    is the whole listing. *)
Lemma DumpDir_run :
  spec (DumpDir w fsys dir)
    (fun evs err =>
       exists k,
         inputs evs =
         EvReadDir dir (snd (fs_ReadDir fsys dir)) ::
         map (read_of fsys dir)
           (firstn k (filter IsRegular (fst (fs_ReadDir fsys dir)))) /\
         ((forall f, In f (filter IsRegular (fst (fs_ReadDir fsys dir))) ->
                     file_entry fsys dir f = None) ->
          err <> None /\ Forall (fun ev => is_input ev = true) evs) /\
         (err = None ->
          exists f0 rest lines0 entries,
            filter IsRegular (fst (fs_ReadDir fsys dir)) = f0 :: rest /\
            firstn k (f0 :: rest) = f0 :: rest /\
            file_entry fsys dir f0 = Some lines0 /\
            entries_of fsys dir (List.length lines0) rest entries /\
            Forall succeeded evs /\
            written evs = render (List.length lines0) lines0 entries)).
Proof.
  set (all := filter IsRegular (fst (fs_ReadDir fsys dir))).
  unfold DumpDir. eapply spec_bind; [apply corpusFiles_spec|].
  intros [files err] evs0 [-> H].
  destruct (snd (fs_ReadDir fsys dir)) as [x|] eqn:Hdir.
  { injection H as -> ->. apply spec_ret. exists 0.
    split; [reflexivity|]. split; [|discriminate].
    intros _. split; [discriminate | repeat constructor]. }
  fold all in H. destruct all as [|g0 all'] eqn:Hall.
  { injection H as -> ->. apply spec_ret. exists 0.
    split; [reflexivity|]. split; [|discriminate].
    intros _. split; [discriminate | repeat constructor]. }
  injection H as -> ->. rewrite <- Hall. clear Hall g0 all'.
  eapply spec_bind; [apply (firstValidFileLines_from_run all [] eq_refl)|].
  intros r evs1 (k1 & -> & H).
  destruct H as [[Hnil Hsig]|(bad & f0 & rest & lines & es & Hall & -> & -> & Hf0 & _ & Hes & Hlen)].
  { destruct r as [[lines files] err]. cbn [fst snd] in *.
    destruct (Hsig []) as (e1 & s & Hcap). rewrite Hcap.
    apply spec_ret. exists k1.
    split; [rewrite app_nil_r; cbn [app inputs filter is_input];
            fold (inputs (map (read_of fsys dir) (firstn k1 all)));
            now rewrite inputs_reads|].
    split; [|discriminate]. intros _. split; [discriminate|].
    rewrite app_nil_r. constructor; [reflexivity | apply reads_no_write]. }
  cbn [app] in *.
  assert (Hvalid : ~ (forall f, In f all -> file_entry fsys dir f = None)).
  { intros Hn. rewrite (Hn f0) in Hf0; [discriminate|].
    rewrite Hall. apply in_or_app. right. apply in_eq. }
  assert (Hpast : forall k, firstn (S (List.length bad) + k) all =
                            bad ++ f0 :: firstn k rest).
  { intros k. rewrite Hall. apply firstn_past. }
  assert (Hread : firstn (S (List.length bad)) all = bad ++ [f0]).
  { replace (S (List.length bad)) with (S (List.length bad) + 0) by lia.
    now rewrite Hpast. }
  match goal with |- spec _ ?Q => set (G := Q) end.
  assert (Hi1 : forall evs k,
             inputs evs = map (read_of fsys dir) (firstn k rest) ->
             inputs (EvReadDir dir None ::
                     map (read_of fsys dir) (firstn (S (List.length bad)) all) ++
                     evs) =
             EvReadDir dir None ::
             map (read_of fsys dir) (firstn (S (List.length bad) + k) all)).
  { intros evs k Hi.
    change (inputs ([EvReadDir dir None] ++
                    map (read_of fsys dir) (firstn (S (List.length bad)) all) ++
                    evs) =
            [EvReadDir dir None] ++
            map (read_of fsys dir) (firstn (S (List.length bad) + k) all)).
    rewrite !inputs_app, inputs_reads, Hi, Hread, Hpast.
    rewrite <- map_app, <- app_assoc. reflexivity. }
  assert (Hstop : forall evs (y : errval) k,
             inputs evs = map (read_of fsys dir) (firstn k rest) ->
             G evs (Some y)).
  { intros evs y k Hi. exists (S (List.length bad) + k).
    split; [now apply Hi1|]. split; [|discriminate].
    intros Hn. contradiction. }
  destruct (Capture [] (AsError es)) as [errs1 [s|]] eqn:Hcap.
  { apply spec_ret. apply (Hstop [] s 0). reflexivity. }
  apply Capture_AsError_plain in Hcap; [|exact Hes]. cbn [app] in Hcap.
  subst errs1.
  set (X := List.length lines) in *.
  eapply spec_bind; [apply spec_Write|]. intros [x|] evs2 ->.
  { eapply spec_weaken; [apply spec_writeErr|].
    intros evs e (-> & p & ->). rewrite app_nil_r.
    apply (Hstop [_] _ 0). reflexivity. }
  eapply spec_bind; [apply dumpLines_run|]. intros [y|] evs3 [Hi3 H3].
  { apply spec_ret. rewrite app_nil_r.
    apply (Hstop ([_] ++ evs3) y 0). rewrite inputs_app, Hi3. reflexivity. }
  destruct H3 as [Hs3 Hw3].
  eapply spec_bind; [apply (dumpFiles_range_run X rest [] eq_refl)|].
  intros err4 evs4 (k4 & Hi4 & H4).
  destruct (Capture es err4) as [errs2 [s|]] eqn:Hcap4.
  { apply spec_ret. rewrite app_nil_r. apply (Hstop _ s k4).
    rewrite !inputs_app, Hi3, Hi4. reflexivity. }
  eapply spec_bind; [apply spec_Write|]. intros [x|] evs5 ->.
  { eapply spec_weaken; [apply spec_writeErr|].
    intros evs e (-> & p & ->). rewrite app_nil_r. apply (Hstop _ _ k4).
    rewrite !inputs_app, Hi3, Hi4. cbn [inputs filter is_input app].
    now rewrite app_nil_r. }
  apply spec_ret. rewrite app_nil_r.
  exists (S (List.length bad) + k4). split.
  { apply Hi1. rewrite !inputs_app, Hi3, Hi4. cbn [inputs filter is_input app].
    now rewrite app_nil_r. }
  split; [intros Hn; contradiction|].
  intros Hnil. unfold AsError in Hnil.
  destruct (empty errs2) eqn:Hempty; [|discriminate].
  apply empty_true_iff in Hempty. subst errs2.
  destruct (Capture_run es err4) as (l & Hl & _). rewrite Hcap4 in Hl.
  cbn [fst] in Hl. destruct es; [|discriminate].
  destruct bad; [|discriminate]. cbn [app List.length] in *.
  destruct (H4 [] Hcap4) as (_ & Hk4 & Hs4 & entries & Hent & Hw4).
  exists f0, rest, lines, entries.
  split; [exact Hall|]. split; [cbn [plus firstn]; now rewrite Hk4|].
  split; [exact Hf0|]. split; [exact Hent|].
  rewrite Hread. cbn [map app].
  assert (Hr0 : succeeded (read_of fsys dir f0)).
  { unfold read_of. rewrite (file_entry_can_read fsys dir f0 lines Hf0).
    exact I. }
  split.
  { constructor; [exact I|]. constructor; [exact Hr0|].
    constructor; [exact I|]. apply Forall_app. split; [exact Hs3|].
    apply Forall_app. split; [exact Hs4 | repeat constructor]. }
  change (EvReadDir dir None :: read_of fsys dir f0 :: ?t)
    with ([EvReadDir dir None; read_of fsys dir f0] ++ t).
  rewrite written_app. unfold read_of at 1. cbn [written].
  rewrite !written_app, Hw3, Hw4. cbn [written]. unfold render. fold X.
  destruct (1 <? X); cbn [Pre Post multiArgSep sigleArgSep];
    now rewrite ?append_nil_r, ?append_assoc.
Qed.

End Runs.

(** X9.  When the listing of the directory fails, [DumpDir] returns the
    error of the listing itself, not wrapped, and does nothing else: no
    file is read and nothing is written. *)
Theorem listing_failure_unchanged {lib : GoLib} (w : Writer) (fsys : FS)
    (dir : string) (st : State) (s : list DirEntry) (x : errval)
    (Hdir : fs_ReadDir fsys dir = (s, Some x)) :
  DumpDir w fsys dir st =
  (Some x,
   {| trace := trace st ++ [EvReadDir dir (Some x)]; heap := heap st |}).
Proof.
  unfold DumpDir, corpusFiles, getFiles, ReadDir, bind, ret.
  rewrite Hdir. reflexivity.
Qed.

Lemma listing_failure_unchanged_witness :
  Fixture.scan Fixture.Builder Fixture.fsys "foo" =
  (Some (Fixture.PathError 13 "open" "foo" Fixture.ErrNotExist),
   {| trace := [EvReadDir "foo"
                  (Some (Fixture.PathError 13 "open" "foo" Fixture.ErrNotExist))];
      heap := 100 |}).
Proof.
  exact (@listing_failure_unchanged Fixture.ascii_lib Fixture.Builder
           Fixture.fsys "foo" Fixture.start [] _ eq_refl).
Defined.

(** X10.  What a run of [DumpDir] asks of the file system, whatever the
    file system and the writer do: the listing of the directory, once and
    first, and then the reads of the first [k] regular files of the
    listing, in the order of the listing, each once.  An entry that is not
    a regular file is never read, and no file is read twice or skipped. *)
Theorem DumpDir_reads_in_order {lib : GoLib} (w : Writer) (fsys : FS)
    (dir : string) (st : State) :
  exists evs k,
    trace (snd (DumpDir w fsys dir st)) = trace st ++ evs /\
    inputs evs =
    EvReadDir dir (snd (fs_ReadDir fsys dir)) ::
    map (read_of fsys dir)
      (firstn k (filter IsRegular (fst (fs_ReadDir fsys dir)))).
Proof.
  destruct (DumpDir_run w fsys dir st) as (evs & Ht & k & Hi & _).
  exists evs, k. auto.
Qed.

(** X11.  Without a valid entry there is no output: when no regular file
    of the listing can be read and validated, whatever the reason, a run of
    [DumpDir] returns an error and never calls the writer. *)
Theorem nothing_written_without_valid_file {lib : GoLib} (w : Writer)
    (fsys : FS) (dir : string) (st : State)
    (Hnone : forall f,
        In f (filter IsRegular (fst (fs_ReadDir fsys dir))) ->
        file_entry fsys dir f = None) :
  fst (DumpDir w fsys dir st) <> None /\
  exists evs,
    trace (snd (DumpDir w fsys dir st)) = trace st ++ evs /\
    forall b r, ~ In (EvWrite b r) evs.
Proof.
  destruct (DumpDir_run w fsys dir st) as (evs & Ht & k & _ & H & _).
  destruct (H Hnone) as [Herr Hin]. split; [exact Herr|].
  exists evs. split; [exact Ht|]. intros b r Hb.
  rewrite Forall_forall in Hin. specialize (Hin _ Hb). discriminate.
Qed.

Lemma nothing_written_without_valid_file_witness :
  fst (Fixture.scan Fixture.Builder Fixture.fsys_vanished "bad") <> None /\
  exists evs,
    trace (snd (Fixture.scan Fixture.Builder Fixture.fsys_vanished "bad")) =
    trace Fixture.start ++ evs /\
    forall b r, ~ In (EvWrite b r) evs.
Proof.
  apply (@nothing_written_without_valid_file Fixture.ascii_lib).
  intros f Hf. vm_compute in Hf.
  destruct Hf as [<-|[<-|[<-|[<-|[]]]]]; vm_compute; reflexivity.
Defined.

(** X12.  A nil result is a complete listing: when [DumpDir] returns nil,
    the listing succeeded and has a regular file, every regular file was
    read, validated and has as many arguments as the first, every call on
    the file system and on the writer succeeded, and what was written is
    the rendering of all the entries, in the order of the listing. *)
Theorem nil_result_is_complete {lib : GoLib} (w : Writer) (fsys : FS)
    (dir : string) (st : State)
    (Hnil : fst (DumpDir w fsys dir st) = None) :
  exists f0 rest lines0 entries evs,
    snd (fs_ReadDir fsys dir) = None /\
    filter IsRegular (fst (fs_ReadDir fsys dir)) = f0 :: rest /\
    file_entry fsys dir f0 = Some lines0 /\
    entries_of fsys dir (List.length lines0) rest entries /\
    trace (snd (DumpDir w fsys dir st)) = trace st ++ evs /\
    Forall succeeded evs /\
    inputs evs = EvReadDir dir None :: map (read_of fsys dir) (f0 :: rest) /\
    written evs = render (List.length lines0) lines0 entries.
Proof.
  destruct (DumpDir_run w fsys dir st) as (evs & Ht & k & Hi & _ & H).
  destruct (H Hnil) as (f0 & rest & lines0 & entries & Hall & Hk & Hf0 & Hent & Hs & Hw).
  assert (Hdir : snd (fs_ReadDir fsys dir) = None).
  { assert (Hin : In (EvReadDir dir (snd (fs_ReadDir fsys dir))) evs).
    { apply (proj1 (filter_In is_input _ evs)). fold (inputs evs).
      rewrite Hi. apply in_eq. }
    rewrite Forall_forall in Hs. specialize (Hs _ Hin). simpl in Hs.
    destruct (snd (fs_ReadDir fsys dir)); [destruct Hs | reflexivity]. }
  exists f0, rest, lines0, entries, evs.
  rewrite Hall, Hk, Hdir in Hi. repeat split; auto.
Qed.

Lemma nil_result_is_complete_witness :
  exists f0 rest lines0 entries evs,
    snd (fs_ReadDir Fixture.fsys "multi") = None /\
    filter IsRegular (fst (fs_ReadDir Fixture.fsys "multi")) = f0 :: rest /\
    @file_entry Fixture.ascii_lib Fixture.fsys "multi" f0 = Some lines0 /\
    @entries_of Fixture.ascii_lib Fixture.fsys "multi" (List.length lines0)
      rest entries /\
    trace (snd (Fixture.scan Fixture.Builder Fixture.fsys "multi")) =
    trace Fixture.start ++ evs /\
    Forall succeeded evs /\
    inputs evs =
    EvReadDir "multi" None ::
    map (@read_of Fixture.ascii_lib Fixture.fsys "multi") (f0 :: rest) /\
    written evs = render (List.length lines0) lines0 entries.
Proof.
  apply (@nil_result_is_complete Fixture.ascii_lib). vm_compute. reflexivity.
Defined.

(* ================================================================== *)
(** ** The exit status of the command *)

Lemma parseLines_error {lib : GoLib} (b : string) (st : State)
    (l : list string) (x : errval) :
  fst (parseLines b st) = (l, Some x) ->
  x = ErrMalformedEntry \/ exists p msg, x = Wrapf p msg ErrUnsupportedVersion.
Proof.
  unfold parseLines.
  destruct (List.length (bytes_Split b "010") <? 2).
  { intros [= _ <-]. auto. }
  destruct (negb (String.eqb _ encVersion1)).
  { unfold bind, Errorf, ret. cbn [fst]. intros [= _ <-]. eauto. }
  destruct (List.length (readLines_range _ _) <? 1).
  - intros [= _ <-]. auto.
  - discriminate.
Qed.

Lemma not_EmptyCorpus_kinds (p : addr) (msg : string) (x : errval) :
  x = ErrMalformedEntry \/
  (exists p' msg', x = Wrapf p' msg' ErrUnsupportedVersion) \/
  (exists p' msg', x = Wrapf p' msg' ErrInconsistentArgCount) ->
  errors_Is (Some (Wrapf p msg x)) (Some ErrEmptyCorpus) = false.
Proof.
  unfold ErrEmptyCorpus. rewrite errors_Is_Wrapf_New.
  intros [->|[(p' & msg' & ->)|(p' & msg' & ->)]];
    rewrite ?errors_Is_Wrapf_New; vm_compute; reflexivity.
Qed.

Section Recorded.

Context {lib : GoLib}.
Variable fsys : FS.
Variable dir : string.

(** With the files readable, no recorded error is of the EmptyCorpus
    kind. *)
Lemma recorded_kinds (argCount : nat) (files : list DirEntry)
    (es : list error) :
  recorded fsys dir argCount files es ->
  (forall f, In f files -> can_read fsys dir f) ->
  Forall (fun o => errors_Is o (Some ErrEmptyCorpus) = false) es.
Proof.
  induction 1 as [|f l files es Hf Hl _ IH|f l p p' files es Hf Hl _ IH
                  |f x p files es Hf Hx Hst _ IH]; intros Hread.
  - constructor.
  - apply IH. intros g Hg. apply Hread. now right.
  - constructor; [|apply IH; intros g Hg; apply Hread; now right].
    apply not_EmptyCorpus_kinds. right. right. eauto.
  - constructor; [|apply IH; intros g Hg; apply Hread; now right].
    apply not_EmptyCorpus_kinds.
    destruct Hst as (st & Hst). specialize (Hread f (in_eq _ _)).
    unfold can_read in Hread. unfold readLines, bind, ReadFile in Hst.
    destruct (fs_ReadFile fsys (path_Join dir (Name f))) as [b e].
    cbn [snd] in Hread. subst e.
    destruct (parseLines_error _ _ _ _ Hst) as [->|H]; auto.
Qed.

(** Nothing is recorded exactly when every file is valid and of the
    expected arity. *)
Lemma recorded_nothing (argCount : nat) (files : list DirEntry)
    (es : list error) :
  recorded fsys dir argCount files es ->
  (es = [] <->
   Forall (fun f => exists l, file_entry fsys dir f = Some l /\
                              List.length l = argCount) files).
Proof.
  induction 1 as [|f l files es Hf Hl _ IH|f l p p' files es Hf Hl _ IH
                  |f x p files es Hf Hx Hst _ IH].
  - split; auto.
  - rewrite IH. split; intros H.
    + constructor; eauto.
    + now inversion H.
  - split; [discriminate|]. intros H. inversion H as [ | g0 gs (l' & Hl' & Hn) Hgs ].
    congruence.
  - split; [discriminate|]. intros H. inversion H as [ | g0 gs (l' & Hl' & Hn) Hgs ].
    congruence.
Qed.

End Recorded.

Section ExitStatus.

Context {lib : GoLib}.
Variable os_DirFS : string -> FS.
Variable path_Base : string -> string.
Variable stdOut : Writer.

Lemma shellIface_run (fn : mainFn) (arg0 : string) (args : list string)
    (st : State) :
  shellIface path_Base fn stdOut (arg0 :: args) st =
  (match fst (fn stdOut args st) with
   | Some e =>
       Some (if errors_Is (Some e) (Some ErrEmptyCorpus) then ExitEmptyCorpus
             else if IsValidationError (Some e) then ExitSoft
             else ExitHard,
             [(path_Base arg0 +++ ":") +++ " " +++ fmt_w e +++ LF])
   | None => Some (ExitSuccess, [])
   end,
   snd (fn stdOut args st)).
Proof.
  unfold shellIface, bind, ret.
  destruct (fn stdOut args st) as [[e|] st']; reflexivity.
Qed.

Lemma realMain_dir (a : string) (args : list string) (w : Writer)
    (st : State) :
  a <> EmptyString ->
  realMain os_DirFS w (a :: args) st = DumpDir w (os_DirFS a) "." st.
Proof. unfold realMain. destruct a; [congruence | reflexivity]. Qed.

Lemma realMain_no_dir (args : list string) (w : Writer) (st : State) :
  (forall a rest, args = a :: rest -> a = EmptyString) ->
  realMain os_DirFS w args st = (Some errNoDirArg, st).
Proof.
  intros H. unfold realMain. destruct args as [|a rest]; [reflexivity|].
  rewrite (H a rest eq_refl). reflexivity.
Qed.

(** X13.  Without a directory argument, or with an empty one, the command
    touches neither the file system nor its output: it prints one line to
    [stdErr], the program's name and "directory path argument required",
    and the exit status is 3. *)
Theorem shellIface_without_dir (arg0 : string) (args : list string)
    (st : State)
    (Hargs : args = [] \/ exists rest, args = EmptyString :: rest) :
  shellIface path_Base (realMain os_DirFS) stdOut (arg0 :: args) st =
  (Some (ExitHard,
         [path_Base arg0 +++ ": directory path argument required" +++ LF]),
   st).
Proof.
  destruct Hargs as [->|[rest ->]]; unfold shellIface, realMain, bind, ret;
    cbn [String.length Nat.eqb]; rewrite append_assoc; reflexivity.
Qed.


(** X14.  Exit status 0 means the whole corpus was dumped: when the command
    exits with status 0, it printed nothing to [stdErr], it was given a
    directory, every regular file of the directory was read and is a valid
    entry with as many arguments as the first, every call on the file
    system and on the output succeeded, and the output is the rendering of
    all the entries. *)
Theorem exit_success_is_complete (arg0 : string) (args printed : list string)
    (st : State)
    (Hexit : fst (shellIface path_Base (realMain os_DirFS) stdOut
                    (arg0 :: args) st) = Some (ExitSuccess, printed)) :
  printed = [] /\
  exists a args' f0 rest lines0 entries evs,
    args = a :: args' /\ a <> EmptyString /\
    filter IsRegular (fst (fs_ReadDir (os_DirFS a) ".")) = f0 :: rest /\
    file_entry (os_DirFS a) "." f0 = Some lines0 /\
    entries_of (os_DirFS a) "." (List.length lines0) rest entries /\
    trace (snd (shellIface path_Base (realMain os_DirFS) stdOut
                  (arg0 :: args) st)) = trace st ++ evs /\
    Forall succeeded evs /\
    written evs = render (List.length lines0) lines0 entries.
Proof.
  rewrite shellIface_run in *. cbn [fst snd] in *.
  destruct (fst (realMain os_DirFS stdOut args st)) as [e|] eqn:Hres.
  { exfalso. injection Hexit as Hcode _. revert Hcode.
    destruct (errors_Is _ _); [discriminate|].
    destruct (IsValidationError _); discriminate. }
  injection Hexit as <-. split; [reflexivity|].
  destruct args as [|a args'].
  { rewrite realMain_no_dir in Hres by discriminate. discriminate. }
  destruct a as [|c a].
  { rewrite realMain_no_dir in Hres; [discriminate|].
    now intros a rest [= <- _]. }
  rewrite realMain_dir in * by discriminate.
  destruct (DumpDir_run stdOut (os_DirFS (String c a)) "." st)
    as (evs & Ht & k & Hi & _ & H).
  destruct (H Hres) as (f0 & rest & lines0 & entries & Hall & _ & Hf0 & Hent & Hs & Hw).
  exists (String c a), args', f0, rest, lines0, entries, evs.
  repeat split; auto. discriminate.
Qed.

(** X15.  The exit status of a scan in which no read or write fails and
    some file validates: 0, with nothing printed to [stdErr], when the
    first regular file is valid and every other one is valid with as many
    arguments; otherwise 1, with one line printed to [stdErr], the
    program's name followed by the message of the aggregate.  The status
    is never 2 or 3. *)
Theorem exit_status_of_scan (arg0 a : string) (args : list string)
    (s bad rest : list DirEntry) (f0 : DirEntry) (lines0 : list string)
    (st : State)
    (Ha : a <> EmptyString)
    (Hw : never_fails stdOut)
    (Hdir : fs_ReadDir (os_DirFS a) "." = (s, None))
    (Hfiles : filter IsRegular s = bad ++ f0 :: rest)
    (Hbad : forall f, In f bad -> fails_validation (os_DirFS a) "." f)
    (Hf0 : file_entry (os_DirFS a) "." f0 = Some lines0)
    (Hrest : forall f, In f rest -> can_read (os_DirFS a) "." f) :
  (bad = [] /\
   Forall (fun f => exists l, file_entry (os_DirFS a) "." f = Some l /\
                              List.length l = List.length lines0) rest ->
   fst (shellIface path_Base (realMain os_DirFS) stdOut
          (arg0 :: a :: args) st) = Some (ExitSuccess, [])) /\
  (~ (bad = [] /\
      Forall (fun f => exists l, file_entry (os_DirFS a) "." f = Some l /\
                                 List.length l = List.length lines0) rest) ->
   exists report,
     fst (shellIface path_Base (realMain os_DirFS) stdOut
            (arg0 :: a :: args) st) =
     Some (ExitSoft,
           [path_Base arg0 +++ ": fuzz corpus has errors:" +++ report +++ LF])).
Proof.
  rewrite shellIface_run, realMain_dir by exact Ha. cbn [fst].
  destruct (DumpDir_recorded stdOut (os_DirFS a) "." s bad rest f0 lines0 st
              Hw Hdir Hfiles Hbad Hf0 Hrest)
    as (es_bad & es_rest & Hrb & Hrr & -> & _).
  pose proof (recorded_nothing _ _ _ _ _ Hrb) as Hnb.
  pose proof (recorded_nothing _ _ _ _ _ Hrr) as Hnr.
  assert (Hbad_nil : es_bad = [] <-> bad = []).
  { rewrite Hnb. split; [|intros ->; constructor].
    intros H. destruct bad as [|g bad]; [reflexivity|].
    inversion H as [ | g0 gs (l & Hl & Hn) Hgs ]. subst.
    destruct (fails_validation_inv _ _ g (Hbad g (in_eq _ _))) as [_ Hnone].
    congruence. }
  split.
  - intros [Hb Hr]. apply Hbad_nil in Hb. apply Hnr in Hr. subst.
    reflexivity.
  - intros Hnot.
    assert (Hne : es_bad ++ es_rest <> []).
    { intros H. apply app_eq_nil in H. destruct H as [Hb Hr].
      apply Hnot. split; [now apply Hbad_nil | now apply Hnr]. }
    assert (Habs : Forall absorbed (es_bad ++ es_rest)).
    { apply Forall_app. split; eapply recorded_absorbed; eauto. }
    assert (Hkind : Forall (fun o => errors_Is o (Some ErrEmptyCorpus) = false)
                      (es_bad ++ es_rest)).
    { apply Forall_app. split; eapply recorded_kinds; eauto.
      intros f Hf. apply fails_validation_inv, Hbad, Hf. }
    set (es := es_bad ++ es_rest) in *.
    unfold AsError. apply empty_false_iff in Hne. rewrite Hne.
    assert (H1 : errors_Is (Some (Corpus es)) (Some ErrEmptyCorpus) = false).
    { rewrite errors_Is_Corpus_plain by reflexivity.
      apply not_true_is_false. rewrite existsb_exists. intros (o & Ho & Hm).
      rewrite Forall_forall in Hkind. rewrite (Hkind o Ho) in Hm.
      discriminate. }
    assert (H2 : IsValidationError (Some (Corpus es)) = true).
    { destruct es as [|o es']; [discriminate|].
      inversion Habs as [ | o0 os (x & Hx & _ & Hv) Hos ]. subst.
      rewrite IsValidationError_Corpus. cbn [existsb]. now rewrite Hv. }
    rewrite H1, H2.
    assert (H3 : exists tail, fmt_w (Corpus es) =
                              "fuzz corpus has errors:" +++ tail).
    { unfold fmt_w. rewrite Error_Corpus, Hne.
      destruct (Error_range es) as [mss|] eqn:Hmss.
      - destruct mss as [|m mss]; [exists EmptyString; reflexivity|].
        rewrite strings_Join_cons. eauto.
      - apply Error_range_plain in Hmss; [destruct Hmss|].
        now apply Forall_absorbed_plain. }
    destruct H3 as (tail & ->). exists tail.
    now rewrite !append_assoc.
Qed.

(** X16.  Exit status 2 for a corpus without a valid entry: when the
    listing succeeds and every regular file is read and fails validation
    (or there is no regular file), the exit status is 2, although the
    returned aggregate is a validation error as well; one line is printed
    to [stdErr] and nothing is written to the output. *)
Theorem exit_status_empty_corpus (arg0 a : string) (args : list string)
    (s : list DirEntry) (st : State)
    (Ha : a <> EmptyString)
    (Hdir : fs_ReadDir (os_DirFS a) "." = (s, None))
    (Hbad : forall f, In f (filter IsRegular s) ->
                      fails_validation (os_DirFS a) "." f) :
  (exists line,
      fst (shellIface path_Base (realMain os_DirFS) stdOut
             (arg0 :: a :: args) st) = Some (ExitEmptyCorpus, [line])) /\
  written (trace (snd (shellIface path_Base (realMain os_DirFS) stdOut
                         (arg0 :: a :: args) st))) = written (trace st) /\
  (filter IsRegular s <> [] ->
   IsValidationError (fst (DumpDir stdOut (os_DirFS a) "." st)) = true).
Proof.
  rewrite shellIface_run, realMain_dir by exact Ha. cbn [fst snd].
  destruct (filter IsRegular s) as [|f files] eqn:Hfiles.
  - assert (H : DumpDir stdOut (os_DirFS a) "." st =
                (Some ErrEmptyCorpus,
                 {| trace := trace st ++ [EvReadDir "." None];
                    heap := heap st |})).
    { unfold DumpDir, bind, corpusFiles, getFiles, bind, ReadDir.
      rewrite Hdir. cbn [snd fst]. rewrite Hfiles. reflexivity. }
    rewrite H. cbn [fst snd trace]. split; [eexists; reflexivity|].
    split; [|congruence]. rewrite written_app. apply append_nil_r.
  - destruct (DumpDir_none stdOut (os_DirFS a) "." s files f Hdir Hfiles
                (fun g Hg => fails_validation_inv _ _ g (Hbad g Hg)) st)
      as (evs & Ht & es & Hrec & He & Hw).
    rewrite He, Ht. rewrite errors_Is_ends_with_ErrEmptyCorpus.
    split; [eexists; reflexivity|].
    split; [rewrite written_app, Hw; apply append_nil_r|].
    intros _. inversion Hrec as [| | |g x p fs es' Hg Hx Hst Hr]; subst.
    + destruct (fails_validation_inv _ _ f (Hbad f (in_eq _ _))). congruence.
    + destruct (fails_validation_inv _ _ f (Hbad f (in_eq _ _))). congruence.
    + rewrite IsValidationError_Corpus. cbn [existsb app].
      now rewrite IsValidationError_Wrapf, Hx.
Qed.

(** X17.  Exit status 3 for an I/O failure: when the listing fails with an
    opaque error, or a read or a write of the scan does, the exit status
    is 3 and one line is printed to [stdErr]. *)
Theorem exit_status_io_failure (arg0 a : string) (args : list string)
    (st : State)
    (Ha : a <> EmptyString)
    (Hfail :
       (exists s x, fs_ReadDir (os_DirFS a) "." = (s, Some x) /\
                    opaque x = true) \/
       (exists pre ev post,
           trace (snd (DumpDir stdOut (os_DirFS a) "." st)) =
           trace st ++ pre ++ ev :: post /\ io_failure ev)) :
  exists line,
    fst (shellIface path_Base (realMain os_DirFS) stdOut
           (arg0 :: a :: args) st) = Some (ExitHard, [line]).
Proof.
  rewrite shellIface_run, realMain_dir by exact Ha. cbn [fst].
  assert (H : exists y, fst (DumpDir stdOut (os_DirFS a) "." st) = Some y /\
                        opaque y = true).
  { destruct Hfail as [(s & x & Hdir & Hx)|(pre & ev & post & Ht & Hev)].
    - exists x. split; [|exact Hx].
      unfold DumpDir, corpusFiles, getFiles, ReadDir, bind, ret.
      rewrite Hdir. reflexivity.
    - destruct (DumpDir_discipline stdOut (os_DirFS a) "." st)
        as (evs & Ht' & Hd).
      rewrite Ht' in Ht. apply app_inv_head in Ht.
      destruct (Hd pre ev post Ht Hev) as [_ Hab].
      inversion Hab as [b x p Hb Hres|f x p Hf Hb Hres]; subst ev;
        cbn [io_failure] in Hev; eexists; (split; [reflexivity|]);
        now rewrite opaque_Wrapf. }
  destruct H as (y & -> & Hy). unfold opaque in Hy.
  apply andb_true_iff in Hy. destruct Hy as [Hv He].
  apply negb_true_iff in Hv, He. rewrite Hv, He. eexists. reflexivity.
Qed.

End ExitStatus.

Lemma shellIface_without_dir_witness :
  CmdFixture.run ["fuzzdump"%string] =
  (Some (3, ["fuzzdump: directory path argument required" +++ LF]),
   Fixture.start).
Proof.
  apply (@shellIface_without_dir Fixture.ascii_lib CmdFixture.DirFS
           CmdFixture.Base Fixture.Builder "fuzzdump" [] Fixture.start).
  left. reflexivity.
Defined.

(* ================================================================== *)
(** ** Reading back an entry file *)

Lemma bytes_Split_line (a b : string) (sep : ascii) :
  has_byte sep a = false ->
  bytes_Split (a +++ String sep b) sep = a :: bytes_Split b sep.
Proof.
  induction a as [|c a IH]; intros Ha; simpl in *.
  - now rewrite Ascii.eqb_refl.
  - apply orb_false_iff in Ha. destruct Ha as [Hc Ha].
    rewrite Hc, (IH Ha). reflexivity.
Qed.

Lemma bytes_Split_lines (vs : list string) :
  vs <> [] -> Forall (fun v => has_byte "010" v = false) vs ->
  bytes_Split (strings_Join vs LF +++ LF) "010" = vs ++ [EmptyString].
Proof.
  induction vs as [|v vs IH]; [congruence|]. intros _ Hvs.
  inversion Hvs as [|? ? Hv Hvs']; subst. destruct vs as [|v' vs].
  - cbn [strings_Join app]. unfold LF. now rewrite bytes_Split_line.
  - rewrite strings_Join_cons, append_assoc. unfold LF at 1.
    cbn [String.append]. rewrite bytes_Split_line by exact Hv.
    rewrite IH by (auto; discriminate). reflexivity.
Qed.

(** X18.  Reading back what was encoded: a file that holds the version
    line, then the given values one per line, each followed by a line
    feed, decodes to exactly these values, in order, when each value is
    non-empty, free of line feeds and of surrounding white space; with no
    value at all it is malformed. *)
Theorem readLines_corpusFile {lib : GoLib} (fsys : FS) (name : string)
    (vs : list string) (st : State)
    (Hread : fs_ReadFile fsys name =
             (Fixture.corpusFile (strings_Join vs LF), None))
    (Htrim : bytes_TrimSpace EmptyString = EmptyString)
    (Hvs : Forall (fun v => v <> EmptyString /\ bytes_TrimSpace v = v /\
                            has_byte "010" v = false) vs) :
  fst (readLines fsys name st) =
  match vs with
  | [] => ([], Some ErrMalformedEntry)
  | _ :: _ => (vs, None)
  end.
Proof.
  unfold readLines, bind, ReadFile. rewrite Hread. cbn [snd fst].
  unfold parseLines, Fixture.corpusFile.
  assert (Hsplit : bytes_Split
                     (encVersion1 +++ LF +++ strings_Join vs LF +++ LF) "010" =
                   encVersion1 ::
                   match vs with [] => [EmptyString] | _ => vs end ++
                   [EmptyString]).
  { unfold LF at 1. cbn [String.append].
    change (String "g" _) with (encVersion1 +++ String "010" (strings_Join vs LF +++ LF)).
    rewrite bytes_Split_line by reflexivity. f_equal.
    destruct vs as [|v vs]; [reflexivity|].
    apply bytes_Split_lines; [discriminate|].
    eapply Forall_impl; [|exact Hvs]. cbv beta. tauto. }
  rewrite Hsplit. cbn [List.length hd skipn].
  replace (S (List.length _) <? 2) with false
    by (symmetry; apply Nat.ltb_ge; rewrite length_app; simpl; lia).
  change (negb (String.eqb (strings_TrimSuffix encVersion1 CR) encVersion1))
    with false. cbv iota.
  rewrite readLines_range_filter. cbn [app].
  destruct vs as [|v vs].
  - cbn [map filter app]. rewrite Htrim. reflexivity.
  - assert (Hf : filter (fun l => negb (String.length l =? 0))
                   (map bytes_TrimSpace ((v :: vs) ++ [EmptyString])) =
                 v :: vs).
    { rewrite map_app, filter_app.
      assert (Hlast : filter (fun l => negb (String.length l =? 0))
                        (map bytes_TrimSpace [EmptyString]) = []).
      { cbn [map filter]. rewrite Htrim. reflexivity. }
      rewrite Hlast, app_nil_r.
      clear Hsplit Hread. induction Hvs as [|u us (Hu & Ht & _) _ IH];
        [reflexivity|].
      cbn [map filter]. rewrite Ht.
      destruct u; [congruence|]. cbn [String.length Nat.eqb negb].
      now rewrite IH. }
    rewrite Hf. reflexivity.
Qed.

Lemma readLines_corpusFile_witness :
  fst (@readLines Fixture.ascii_lib Fixture.fsys "multi/2" Fixture.start) =
  (["string(" +++ DQ +++ "bar" +++ DQ +++ ")"; "uint(13)"%string], None).
Proof.
  apply (@readLines_corpusFile Fixture.ascii_lib Fixture.fsys "multi/2"
           ["string(" +++ DQ +++ "bar" +++ DQ +++ ")"; "uint(13)"%string]
           Fixture.start).
  - reflexivity.
  - reflexivity.
  - repeat constructor; try discriminate.
Defined.

(** X20.  [firstValidFileLines] on any file system: either some file of
    [allFiles] can be read and validates, every file before the first such
    one having failed, and it returns the lines of that file, the files
    from that file on, and the aggregate of one error for each file before
    it (nil when there is none), having read the files up to that one, in
    order; or it returns no file and a non-nil error, having read some
    first files in order. *)
Theorem firstValidFileLines_first_valid {lib : GoLib} (fsys : FS)
    (dir : string) (allFiles : list DirEntry) (st : State) :
  (exists bad f0 rest lines es,
      allFiles = bad ++ f0 :: rest /\
      Forall (fun f => file_entry fsys dir f = None) bad /\
      file_entry fsys dir f0 = Some lines /\
      fst (firstValidFileLines fsys dir allFiles st) =
      (lines, f0 :: rest, AsError es) /\
      List.length es = List.length bad /\
      trace (snd (firstValidFileLines fsys dir allFiles st)) =
      trace st ++ map (read_of fsys dir) (bad ++ [f0])) \/
  (exists lines err k,
      fst (firstValidFileLines fsys dir allFiles st) = (lines, [], Some err) /\
      trace (snd (firstValidFileLines fsys dir allFiles st)) =
      trace st ++ map (read_of fsys dir) (firstn k allFiles)).
Proof.
  destruct (firstValidFileLines_from_run fsys dir allFiles [] eq_refl st)
    as (evs & Ht & k & -> & H).
  fold (firstValidFileLines fsys dir allFiles) in *.
  destruct H as [[Hnil Hsig]|(bad & f0 & rest & lines & es & Hall & -> & Hr & Hf0 & Hb & _ & Hlen)].
  - right.
    destruct (fst (firstValidFileLines fsys dir allFiles st))
      as [[lines files] err]. cbn [fst snd] in *. subst files.
    destruct err as [err|].
    + exists lines, err, k. auto.
    + destruct (Hsig []) as (e1 & s & Hc). discriminate.
  - left. exists bad, f0, rest, lines, es. repeat split; auto.
    rewrite Ht. f_equal. f_equal. rewrite Hall.
    replace (S (List.length bad)) with (S (List.length bad) + 0) by lia.
    now rewrite firstn_past.
Qed.

Section Wrappers.

Context {lib : GoLib}.

(** X19.  [readErr] and [writeErr] leave nil alone and wrap any other
    error, saying what was being done; the wrapper matches every target
    the error matches, and is a validation error, or an opaque one, exactly
    when the error is. *)
Theorem readErr_writeErr_wrap (x : errval) (fileName : string)
    (target : error) (st : State) :
  readErr None fileName st = (None, st) /\
  writeErr None st = (None, st) /\
  (exists e,
      fst (readErr (Some x) fileName st) = Some e /\
      Error e = Some ("reading " +++ strconv_Quote fileName +++ ": " +++
                      fmt_w x) /\
      (errors_Is (Some x) target = true -> errors_Is (Some e) target = true) /\
      IsValidationError (Some e) = IsValidationError (Some x) /\
      opaque e = opaque x) /\
  (exists e,
      fst (writeErr (Some x) st) = Some e /\
      Error e = Some ("writing output: " +++ fmt_w x) /\
      (errors_Is (Some x) target = true -> errors_Is (Some e) target = true) /\
      IsValidationError (Some e) = IsValidationError (Some x) /\
      opaque e = opaque x).
Proof.
  assert (Hwrap : forall p msg,
             errors_Is (Some x) target = true ->
             errors_Is (Some (Wrapf p msg x)) target = true).
  { intros p msg H. destruct target as [t|];
      [|rewrite errors_Is_nil_r in H; discriminate].
    rewrite errors_Is_step, H. apply orb_true_r. }
  split; [reflexivity|]. split; [reflexivity|].
  split; eexists; (split; [reflexivity|]); (split; [reflexivity|]);
    (split; [apply Hwrap|]);
    (split; [apply IsValidationError_Wrapf | apply opaque_Wrapf]).
Qed.

End Wrappers.

Lemma errors_Is_any_element_witness :
  (errors_Is
     (Some (Corpus [Some ErrMalformedEntry; Some ErrUnsupportedVersion]))
     (Some ErrMalformedEntry) = true <->
   exists u,
     In u [Some ErrMalformedEntry; Some ErrUnsupportedVersion] /\
     errors_Is u (Some ErrMalformedEntry) = true) /\
  CorpusErrors_Is [Some ErrMalformedEntry; Some ErrUnsupportedVersion]
    (Some ErrMalformedEntry) =
  errors_Is (last [Some ErrMalformedEntry; Some ErrUnsupportedVersion])
    (Some ErrMalformedEntry).
Proof.
  exact (errors_Is_any_element
           [Some ErrMalformedEntry; Some ErrUnsupportedVersion]
           ErrMalformedEntry eq_refl).
Defined.

Lemma exit_success_is_complete_witness :
  exists a args' f0 rest lines0 entries evs,
    ["multi"%string] = a :: args' /\ a <> EmptyString /\
    filter IsRegular (fst (fs_ReadDir (CmdFixture.DirFS a) ".")) = f0 :: rest /\
    @file_entry Fixture.ascii_lib (CmdFixture.DirFS a) "." f0 = Some lines0 /\
    @entries_of Fixture.ascii_lib (CmdFixture.DirFS a) "."
      (List.length lines0) rest entries /\
    trace (snd (CmdFixture.run ["fuzzdump"; "multi"]%string)) =
    trace Fixture.start ++ evs /\
    Forall succeeded evs /\
    written evs = render (List.length lines0) lines0 entries.
Proof.
  refine (proj2 (@exit_success_is_complete Fixture.ascii_lib CmdFixture.DirFS
                   CmdFixture.Base Fixture.Builder "fuzzdump"
                   ["multi"%string] [] Fixture.start _)).
  vm_compute. reflexivity.
Defined.

Lemma exit_status_of_scan_witness :
  exists report,
    fst (CmdFixture.run ["fuzzdump"; "multi-in-single"]%string) =
    Some (1, ["fuzzdump: fuzz corpus has errors:" +++ report +++ LF]).
Proof.
  assert (Hrest : forall f,
             In f (Fixture.regular ["2"; "3"]%string) ->
             @can_read Fixture.ascii_lib (CmdFixture.DirFS "multi-in-single")
               "." f).
  { intros f [<-|[<-|[]]]; vm_compute; reflexivity. }
  assert (Hbad : forall f,
             In f [] ->
             @fails_validation Fixture.ascii_lib
               (CmdFixture.DirFS "multi-in-single") "." f).
  { intros f []. }
  refine (proj2 (@exit_status_of_scan Fixture.ascii_lib CmdFixture.DirFS
                   CmdFixture.Base Fixture.Builder "fuzzdump"
                   "multi-in-single" []
                   (fst (fs_ReadDir Fixture.fsys "multi-in-single")) []
                   (Fixture.regular ["2"; "3"]%string)
                   {| Name := "1"; IsRegular := true |} ["uint(3)"%string]
                   Fixture.start _ Builder_never_fails eq_refl eq_refl Hbad
                   eq_refl Hrest) _).
  - discriminate.
  - intros [_ H]. inversion H as [|f fs (l & Hl & Hn) _]. subst.
    vm_compute in Hl. injection Hl as <-. discriminate.
Defined.

Lemma exit_status_empty_corpus_witness :
  exists line,
    fst (CmdFixture.run ["fuzzdump"; "bad"]%string) = Some (2, [line]).
Proof.
  refine (proj1 (@exit_status_empty_corpus Fixture.ascii_lib CmdFixture.DirFS
                   CmdFixture.Base Fixture.Builder "fuzzdump" "bad" []
                   (fst (fs_ReadDir Fixture.fsys "bad")) Fixture.start
                   _ eq_refl _)).
  - discriminate.
  - intros f [<-|[<-|[<-|[<-|[]]]]]; eexists;
      (split; [reflexivity | vm_compute; reflexivity]).
Defined.

Lemma exit_status_io_failure_witness :
  exists line,
    fst (CmdFixture.run ["fuzzdump"; "foo"]%string) = Some (3, [line]).
Proof.
  refine (@exit_status_io_failure Fixture.ascii_lib CmdFixture.DirFS
            CmdFixture.Base Fixture.Builder "fuzzdump" "foo" []
            Fixture.start _ _).
  - discriminate.
  - left. eexists _, _. split; [reflexivity | vm_compute; reflexivity].
Defined.

(* ================================================================== *)
(** ** Signals of Capture, and the shape of what a scan returns *)

(** X21.  Aborts propagate up a stack of captures: whatever non-nil error
    a [Capture] returned is returned as a non-nil error again by any later
    [Capture] of it, into any aggregate; an opaque one is returned as it
    is, and leaves that aggregate as it was. *)
Theorem Capture_signal_propagates (e e0 : CorpusErrors) (err : error)
    (s : errval) (Hs : snd (Capture e err) = Some s) :
  snd (Capture e0 (Some s)) <> None /\
  (is_Corpus s = false -> Capture e0 (Some s) = (e0, Some s)).
Proof.
  destruct (Capture_run e err) as (l & Hl & H). rewrite Hs in H.
  destruct H as [(l0 & x & -> & Hl0 & Hx & Hv & Hk & ->)|(_ & Hc & Ho)].
  - split; [|discriminate]. rewrite Capture_Corpus, !app_assoc.
    match goal with |- snd ?c <> None =>
      assert (H1 : exists e1 s1, c = (e1, Some s1)) end.
    { apply Capture_range_signal_end. intros e2.
      rewrite Capture_plain by exact Hx. rewrite Hv, Hk.
      rewrite AsError_snoc. eauto. }
    destruct H1 as (e1 & s1 & ->). discriminate.
  - assert (H : Capture e0 (Some s) = (e0, Some s)).
    { rewrite Capture_plain by exact Hc. unfold opaque in Ho.
      apply andb_true_iff in Ho. destruct Ho as [Hv Hk].
      apply negb_true_iff in Hv, Hk. now rewrite Hv, Hk. }
    split; [rewrite H; discriminate | intros _; exact H].
Qed.

Lemma Capture_signal_propagates_witness :
  snd (Capture [Some ErrMalformedEntry]
         (Some (Corpus [Some ErrUnsupportedVersion; Some ErrEmptyCorpus])))
  <> None /\
  (is_Corpus (Corpus [Some ErrUnsupportedVersion; Some ErrEmptyCorpus]) = false ->
   Capture [Some ErrMalformedEntry]
     (Some (Corpus [Some ErrUnsupportedVersion; Some ErrEmptyCorpus])) =
   ([Some ErrMalformedEntry],
    Some (Corpus [Some ErrUnsupportedVersion; Some ErrEmptyCorpus]))).
Proof.
  exact (Capture_signal_propagates [Some ErrUnsupportedVersion]
           [Some ErrMalformedEntry] (Some ErrEmptyCorpus)
           (Corpus [Some ErrUnsupportedVersion; Some ErrEmptyCorpus])
           eq_refl).
Defined.

(** What [Capture] returns is never an empty aggregate. *)
Lemma Capture_signal_shape (e : CorpusErrors) (err : error) :
  snd (Capture e err) <> Some (Corpus []).
Proof.
  destruct (Capture_run e err) as (l & Hl & H).
  destruct (snd (Capture e err)) as [s|]; [|discriminate].
  destruct H as [(l0 & x & -> & _ & _ & _ & _ & ->)|(_ & Hc & _)].
  - intros [= H]. apply app_eq_nil in H. destruct H as [_ H].
    apply app_eq_nil in H. destruct H as [_ H]. discriminate.
  - intros [= ->]. discriminate.
Qed.

Section Shape.

Context {lib : GoLib}.
Variable w : Writer.
Variable fsys : FS.
Variable dir : string.

(** X22.  A scan never returns an empty aggregate: when the listing
    succeeds, what [DumpDir] returns is nil or a non-nil error that is not
    the empty aggregate, so that a caller may test the result against nil. *)
Theorem DumpDir_never_empty_aggregate (st : State)
    (Hdir : snd (fs_ReadDir fsys dir) = None) :
  fst (DumpDir w fsys dir st) <> Some (Corpus []).
Proof.
  assert (H : spec (DumpDir w fsys dir) (fun _ err => err <> Some (Corpus []))).
  2:{ destruct (H st) as (evs & _ & Hr). exact Hr. }
  unfold DumpDir. eapply spec_bind; [apply corpusFiles_spec|].
  intros [files err] evs0 [_ H]. rewrite Hdir in H.
  destruct (filter IsRegular (fst (fs_ReadDir fsys dir))).
  { injection H as -> ->. apply spec_ret. discriminate. }
  injection H as -> ->.
  eapply spec_bind with (Q1 := fun _ _ => True).
  { eapply spec_weaken;
      [apply (firstValidFileLines_from_run fsys dir (d :: l) [] eq_refl)|].
    auto. }
  intros [[lines files] err] evs1 _.
  pose proof (Capture_signal_shape [] err) as Hc1.
  destruct (Capture [] err) as [errs [s|]].
  { apply spec_ret. exact Hc1. }
  eapply spec_bind; [apply spec_Write|]. intros [x|] evs2 _.
  { eapply spec_weaken; [apply spec_writeErr|].
    intros evs e (_ & p & ->). discriminate. }
  eapply spec_bind; [apply (dumpLines_run w)|]. intros [y|] evs3 [_ H3].
  { apply spec_ret. intros [= ->]. discriminate. }
  eapply spec_bind with (Q1 := fun _ _ => True).
  { eapply spec_weaken;
      [apply (dumpFiles_range_run w fsys dir (List.length lines)
                (skipn 1 files) [] eq_refl)|].
    auto. }
  intros err4 evs4 _.
  pose proof (Capture_signal_shape errs err4) as Hc4.
  destruct (Capture errs err4) as [errs' [s|]].
  { apply spec_ret. exact Hc4. }
  eapply spec_bind; [apply spec_Write|]. intros [x|] evs5 _.
  { eapply spec_weaken; [apply spec_writeErr|].
    intros evs e (_ & p & ->). discriminate. }
  apply spec_ret. unfold AsError. destruct (empty errs') eqn:He;
    [discriminate|]. intros [= H]. subst errs'. discriminate.
Qed.

End Shape.

Lemma DumpDir_never_empty_aggregate_witness :
  fst (Fixture.scan Fixture.Builder Fixture.fsys "badMulti") <>
  Some (Corpus []).
Proof.
  exact (@DumpDir_never_empty_aggregate Fixture.ascii_lib Fixture.Builder
           Fixture.fsys "badMulti" Fixture.start eq_refl).
Defined.

(* ================================================================== *)
(** ** dumpLines on any writer *)

(** X23.  [dumpLines] writes the values in order, one [Write] per value,
    of a tab, the value, a comma and a line feed; it stops at the first
    write that fails and returns its error in the "writing output"
    wrapper, and returns nil when every write succeeded. *)
Theorem dumpLines_first_failure_stops {lib : GoLib} (w : Writer)
    (lines : list string) (st : State) :
  match fst (dumpLines w lines st) with
  | None =>
      trace (snd (dumpLines w lines st)) =
      trace st ++
      map (fun v => EvWrite (TAB +++ v +++ "," +++ LF) None) lines
  | Some e =>
      exists pre v post x p,
        lines = pre ++ v :: post /\
        trace (snd (dumpLines w lines st)) =
        trace st ++
        map (fun v => EvWrite (TAB +++ v +++ "," +++ LF) None) pre ++
        [EvWrite (TAB +++ v +++ "," +++ LF) (Some x)] /\
        e = Wrapf p ("writing output: " +++ fmt_w x) x
  end.
Proof.
  revert st. induction lines as [|v lines IH]; intros st.
  - simpl. now rewrite app_nil_r.
  - cbn [dumpLines]. unfold bind, Write.
    set (b := TAB +++ v +++ "," +++ LF).
    destruct (w (trace st) b) as [x|] eqn:Hw.
    + cbn [writeErr]. unfold bind, Errorf, ret. cbn [fst snd trace].
      exists [], v, lines, x, (heap st). repeat split.
    + set (st' := {| trace := trace st ++ [EvWrite b None]; heap := heap st |}).
      specialize (IH st').
      destruct (fst (dumpLines w lines st')) as [e|].
      * destruct IH as (pre & u & post & x & p & -> & Ht & ->).
        exists (v :: pre), u, post, x, p. repeat split.
        rewrite Ht. subst st'. cbn [trace map app].
        now rewrite <- app_assoc.
      * rewrite IH. subst st'. cbn [trace map app].
        now rewrite <- app_assoc.
Qed.

(* ================================================================== *)
(** ** Nesting is immaterial to Capture *)

Lemma Capture_leaves (x : errval) :
  forall e, Capture e (Some x) = Capture_range e (leaves_of x).
Proof.
  induction x as [p text|p msg x _|errs IH] using errval_nested_ind;
    intros e.
  - cbn [leaves_of Capture_range].
    destruct (Capture e (Some (New p text))) as [e' [s|]]; reflexivity.
  - cbn [leaves_of Capture_range].
    destruct (Capture e (Some (Wrapf p msg x))) as [e' [s|]]; reflexivity.
  - rewrite Capture_Corpus. cbn [leaves_of]. revert e.
    induction IH as [|o errs Ho _ IHl]; intros e; [reflexivity|].
    cbn [flat_map Capture_range]. rewrite Capture_range_app.
    destruct o as [y|].
    + rewrite <- Ho. destruct (Capture e (Some y)) as [e' [s|]];
        [reflexivity | apply IHl].
    + cbn [Capture Capture_range]. apply IHl.
Qed.

Lemma leaves_plain (x : errval) : forallb plain (leaves_of x) = true.
Proof.
  induction x as [p text|p msg x _|errs IH] using errval_nested_ind;
    try reflexivity.
  cbn [leaves_of]. induction IH as [|o errs Ho _ IHl]; [reflexivity|].
  cbn [flat_map]. rewrite forallb_app, IHl.
  destruct o; [rewrite Ho|]; reflexivity.
Qed.

(** X24.  Nesting is immaterial to [Capture]: capturing an error does what
    capturing the flat aggregate of its errors that are not aggregates
    does, taken in order through the aggregates it holds; nil elements and
    empty aggregates inside it contribute nothing. *)
Theorem Capture_flattens (e : CorpusErrors) (x : errval) :
  Capture e (Some x) = Capture e (Some (Corpus (leaves_of x))) /\
  forallb plain (leaves_of x) = true /\
  (is_Corpus x = false -> leaves_of x = [Some x]) /\
  (forall l1 l2,
      leaves_of (Corpus (l1 ++ None :: Some (Corpus []) :: l2)) =
      leaves_of (Corpus (l1 ++ l2))).
Proof.
  split; [now rewrite Capture_Corpus, Capture_leaves|].
  split; [apply leaves_plain|]. split.
  - destruct x; [reflexivity | reflexivity | discriminate].
  - intros l1 l2. cbn [leaves_of]. rewrite !flat_map_app. reflexivity.
Qed.

(* ================================================================== *)
(** ** What a scan without I/O failures returns *)

Section Returned.

Context {lib : GoLib}.
Variable w : Writer.
Variable fsys : FS.
Variable dir : string.

Lemma recorded_excluded (argCount : nat) (files : list DirEntry)
    (es : list error) :
  recorded fsys dir argCount files es ->
  Forall2 (fun f o =>
             exists p msg x,
               o = Some (Wrapf p (reading f msg) x) /\
               IsValidationError (Some x) = true)
    (filter (fun f => negb (emits fsys dir argCount f)) files) es.
Proof.
  induction 1 as [|f l files es Hf Hl _ IH|f l p p' files es Hf Hl _ IH
                  |f x p files es Hf Hx Hst _ IH]; cbn [filter].
  - constructor.
  - unfold emits at 1. rewrite Hf, Hl, Nat.eqb_refl. exact IH.
  - unfold emits at 1. rewrite Hf. apply Nat.eqb_neq in Hl. rewrite Hl.
    constructor; [|exact IH].
    do 3 eexists. split; [reflexivity|].
    now rewrite IsValidationError_Wrapf.
  - unfold emits at 1. rewrite Hf.
    constructor; [|exact IH]. do 3 eexists. split; [reflexivity | exact Hx].
Qed.

(** X25.  One error for each excluded file, in order: in a scan in which
    no read or write fails and some file validates, the result is nil when
    no file is excluded, and otherwise the aggregate that holds, in the
    order of the listing, exactly one error for each file before the first
    valid one and for each later file that is not a valid entry of the
    first one's arity; each is a validation error in the "reading"
    wrapper that names its file. *)
Theorem one_error_per_excluded_file (s bad rest : list DirEntry)
    (f0 : DirEntry) (lines0 : list string) (st : State)
    (Hw : never_fails w)
    (Hdir : fs_ReadDir fsys dir = (s, None))
    (Hfiles : filter IsRegular s = bad ++ f0 :: rest)
    (Hbad : forall f, In f bad -> fails_validation fsys dir f)
    (Hf0 : file_entry fsys dir f0 = Some lines0)
    (Hrest : forall f, In f rest -> can_read fsys dir f) :
  exists es,
    fst (DumpDir w fsys dir st) = AsError es /\
    Forall2 (fun f o =>
               exists p msg x,
                 o = Some (Wrapf p ("reading " +++ strconv_Quote (Name f) +++
                                    ": " +++ msg) x) /\
                 IsValidationError (Some x) = true)
      (bad ++ filter (fun f => negb (emits fsys dir (List.length lines0) f))
                rest)
      es.
Proof.
  destruct (DumpDir_recorded w fsys dir s bad rest f0 lines0 st
              Hw Hdir Hfiles Hbad Hf0 Hrest)
    as (es_bad & es_rest & Hrb & Hrr & Hres & _).
  exists (es_bad ++ es_rest). split; [exact Hres|].
  apply Forall2_app; [|exact (recorded_excluded _ _ _ Hrr)].
  replace bad
    with (filter (fun f => negb (emits fsys dir (List.length lines0) f)) bad)
    at 1; [exact (recorded_excluded _ _ _ Hrb)|].
  clear Hrb Hfiles. induction bad as [|g bad IH]; [reflexivity|].
  cbn [filter]. unfold emits at 1.
  destruct (fails_validation_inv fsys dir g (Hbad g (in_eq _ _))) as [_ Hg].
  rewrite Hg. cbn [negb]. f_equal. apply IH.
  intros f Hf. apply Hbad. now right.
Qed.

(** X26.  With a writer that never fails, [DumpDir] returns nil exactly
    when the listing succeeds and has a regular file, the first regular
    file is a valid entry, and every other regular file is a valid entry
    with as many arguments. *)
Theorem DumpDir_nil_iff (st : State) (Hw : never_fails w) :
  fst (DumpDir w fsys dir st) = None <->
  snd (fs_ReadDir fsys dir) = None /\
  exists f0 rest lines0,
    filter IsRegular (fst (fs_ReadDir fsys dir)) = f0 :: rest /\
    file_entry fsys dir f0 = Some lines0 /\
    Forall (fun f => exists l, file_entry fsys dir f = Some l /\
                               List.length l = List.length lines0) rest.
Proof.
  split.
  - intros Hnil.
    destruct (DumpDir_run w fsys dir st) as (evs & Ht & k & Hi & _ & H).
    destruct (H Hnil) as (f0 & rest & lines0 & entries & Hall & _ & Hf0 & Hent & Hs & _).
    split.
    + assert (Hin : In (EvReadDir dir (snd (fs_ReadDir fsys dir))) evs).
      { apply (proj1 (filter_In is_input _ evs)). fold (inputs evs).
        rewrite Hi. apply in_eq. }
      rewrite Forall_forall in Hs. specialize (Hs _ Hin). simpl in Hs.
      destruct (snd (fs_ReadDir fsys dir)); [destruct Hs | reflexivity].
    + exists f0, rest, lines0. repeat split; auto.
      clear Hall. induction Hent as [|f l rest entries Hfl _ IH];
        constructor; eauto.
  - intros (Hdir & f0 & rest & lines0 & Hall & Hf0 & Hrest).
    destruct (fs_ReadDir fsys dir) as [s e] eqn:Hrd. cbn [fst snd] in *.
    subst e.
    assert (Hread : forall f, In f rest -> can_read fsys dir f).
    { intros f Hf. rewrite Forall_forall in Hrest.
      destruct (Hrest f Hf) as (l & Hl & _).
      eapply file_entry_can_read; eauto. }
    destruct (DumpDir_recorded w fsys dir s [] rest f0 lines0 st
                Hw Hrd Hall (fun f (Hf : In f []) => match Hf with end)
                Hf0 Hread)
      as (es_bad & es_rest & Hrb & Hrr & -> & _).
    inversion Hrb; subst.
    apply (recorded_nothing fsys dir) in Hrr. apply Hrr in Hrest. subst.
    reflexivity.
Qed.

End Returned.

Lemma one_error_per_excluded_file_witness :
  exists es,
    fst (Fixture.scan Fixture.Builder Fixture.fsys "badMulti") = AsError es /\
    Forall2 (fun f o =>
               exists p msg x,
                 o = Some (Wrapf p ("reading " +++
                                    @strconv_Quote Fixture.ascii_lib (Name f) +++
                                    ": " +++ msg) x) /\
                 IsValidationError (Some x) = true)
      (Fixture.regular ["1"%string] ++
       filter (fun f => negb (@emits Fixture.ascii_lib Fixture.fsys "badMulti"
                                2 f))
         (Fixture.regular ["3"; "4"]%string))
      es.
Proof.
  assert (Hrest : forall f,
             In f (Fixture.regular ["3"; "4"]%string) ->
             @can_read Fixture.ascii_lib Fixture.fsys "badMulti" f).
  { intros f [<-|[<-|[]]]; vm_compute; reflexivity. }
  assert (Hbad : forall f,
             In f (Fixture.regular ["1"%string]) ->
             @fails_validation Fixture.ascii_lib Fixture.fsys "badMulti" f).
  { intros f [<-|[]]. eexists.
    split; [reflexivity | vm_compute; reflexivity]. }
  exact (@one_error_per_excluded_file Fixture.ascii_lib Fixture.Builder
           Fixture.fsys "badMulti"
           (fst (fs_ReadDir Fixture.fsys "badMulti"))
           (Fixture.regular ["1"%string])
           (Fixture.regular ["3"; "4"]%string)
           {| Name := "2"; IsRegular := true |}
           ["string(" +++ DQ +++ "foo" +++ DQ +++ ")"; "uint(8)"%string]
           Fixture.start Builder_never_fails eq_refl eq_refl Hbad
           eq_refl Hrest).
Defined.

Lemma DumpDir_nil_iff_witness :
  fst (Fixture.scan Fixture.Builder Fixture.fsys "single") = None <->
  snd (fs_ReadDir Fixture.fsys "single") = None /\
  exists f0 rest lines0,
    filter IsRegular (fst (fs_ReadDir Fixture.fsys "single")) = f0 :: rest /\
    @file_entry Fixture.ascii_lib Fixture.fsys "single" f0 = Some lines0 /\
    Forall (fun f => exists l,
                @file_entry Fixture.ascii_lib Fixture.fsys "single" f = Some l /\
                List.length l = List.length lines0) rest.
Proof.
  exact (@DumpDir_nil_iff Fixture.ascii_lib Fixture.Builder Fixture.fsys
           "single" Fixture.start Builder_never_fails).
Defined.

(* ================================================================== *)
(** ** The runs of the command's tests, evaluated *)

(** [Test_shellIface]: a main function that returns the given error, run
    as [foo/bar qux]. *)
Example shellIface_table :
  map (fun err =>
         fst (@shellIface Fixture.ascii_lib (fun _ => "bar"%string)
                (fun _ _ => ret err) Fixture.Builder
                ["foo/bar"; "qux"]%string Fixture.start))
    [Some ErrEmptyCorpus; Some ErrUnsupportedVersion;
     Some (Corpus [Some ErrMalformedEntry; Some ErrEmptyCorpus]);
     Some Fixture.errSnap; None] =
  [Some (ExitEmptyCorpus,
         ["bar: no valid fuzz corpus files in directory" +++ LF]);
   Some (ExitSoft, ["bar: unsupported encoding version" +++ LF]);
   Some (ExitEmptyCorpus,
         ["bar: fuzz corpus has errors:" +++ LF +++ TAB +++
          "must include version and at least one value" +++ LF +++ TAB +++
          "no valid fuzz corpus files in directory" +++ LF]);
   Some (ExitHard, ["bar: snap" +++ LF]);
   Some (ExitSuccess, [])].
Proof. vm_compute. reflexivity. Qed.

(** The command on the test directories. *)
Example run_command :
  fst (CmdFixture.run ["fuzzdump"; "multi"]%string) = Some (0, []) /\
  written (trace (snd (CmdFixture.run ["fuzzdump"; "multi"]%string))) =
    multi_listing /\
  option_map fst (fst (CmdFixture.run ["fuzzdump"; "badMulti"]%string)) =
    Some 1 /\
  option_map fst (fst (CmdFixture.run ["fuzzdump"; "empty"]%string)) =
    Some 2 /\
  option_map fst (fst (CmdFixture.run ["fuzzdump"; "bad"]%string)) = Some 2 /\
  option_map fst (fst (CmdFixture.run ["fuzzdump"; "foo"]%string)) = Some 3 /\
  fst (CmdFixture.run []) = None.
Proof. repeat split; vm_compute; reflexivity. Qed.
